(** * Command interpretation and task completion: a shallow embedding

    The development follows three source files:
    - [natural-language-processor.py]: the command parser
      ([NaturalLanguageProcessor]) and its suggestions;
    - [natural-language-executor.py]: the dispatch of one action
      ([NaturalLanguageExecutor._execute_action]), the run of one command
      ([execute_command]), waiting and scrolling;
    - [remote_agent.py]: question classification, status detection, the
      per-quiz question loop and the batch loops, the scan of a page for
      quizzes and the search for a section of the site.

    Python strings are sequences of Unicode code points.  The character
    functions below ([isspace], [isupper_char], [lower], ...) and the
    matching of [re] under [re.IGNORECASE] follow CPython 3.11 with its
    character database (Unicode 14.0) on every code point.  [int] is taken
    without the interpreter's configurable limit on the number of digits
    (4300 by default): where it matters, a statement bounds the length of
    its input. *)

From Stdlib Require Import NArith List String Ascii Bool Arith Lia DecimalString DecimalN.
Import ListNotations.

Set Implicit Arguments.

Open Scope string_scope.
Open Scope list_scope.

(** ** Python strings *)

Module Py.

Definition char := N.
Definition str := list char.

(** An ASCII literal of the source as a sequence of code points. *)
Definition lit (s : string) : str := map N_of_ascii (list_ascii_of_string s).

Definition between (lo hi c : N) : bool := (N.leb lo c) && (N.leb c hi).

Definition eqc (a b : char) : bool := N.eqb a b.

Fixpoint eqs (a b : str) : bool :=
  match a, b with
  | [], [] => true
  | x :: a', y :: b' => eqc x y && eqs a' b'
  | _, _ => false
  end.

(** *** The character database

    A set of code points is written as a list of progressions
    [(lo, hi, step)], from [lo] to [hi] in steps of [step], in the order of
    [lo]; a mapping has the code point [lo] goes to as a fourth component,
    and sends [lo + k * step] to [to + k * step]. *)

Fixpoint in_table (t : list (N * N * N)) (c : char) : bool :=
  match t with
  | [] => false
  | (lo, hi, step) :: t' =>
      if N.ltb c lo then false
      else (N.leb c hi && N.eqb ((c - lo) mod step) 0) || in_table t' c
  end.

(** Where the progression starts that holds [c]. *)
Fixpoint start_in (t : list (N * N * N)) (c : char) : option N :=
  match t with
  | [] => None
  | (lo, hi, step) :: t' =>
      if N.ltb c lo then None
      else if N.leb c hi && N.eqb ((c - lo) mod step) 0 then Some lo
      else start_in t' c
  end.

Fixpoint map_table (t : list (N * N * N * N)) (c : char) : char :=
  match t with
  | [] => c
  | (lo, hi, step, to) :: t' =>
      if N.ltb c lo then c
      else if N.leb c hi && N.eqb ((c - lo) mod step) 0 then (to + (c - lo))%N
      else map_table t' c
  end.

(** The characters with the property Uppercase: those [str.isupper] accepts. *)
Definition uppercase_table : list (N * N * N) :=
  [ (65, 90, 1); (192, 214, 1); (216, 222, 1); (256, 310, 2); (313, 327, 2);
    (330, 374, 2); (376, 377, 1); (379, 381, 2); (385, 386, 1); (388, 388, 1);
    (390, 391, 1); (393, 395, 1); (398, 401, 1); (403, 404, 1); (406, 408, 1);
    (412, 413, 1); (415, 416, 1); (418, 420, 2); (422, 423, 1); (425, 425, 1);
    (428, 428, 1); (430, 431, 1); (433, 435, 1); (437, 437, 1); (439, 440, 1);
    (444, 444, 1); (452, 452, 1); (455, 455, 1); (458, 458, 1); (461, 475, 2);
    (478, 494, 2); (497, 497, 1); (500, 500, 1); (502, 504, 1); (506, 562, 2);
    (570, 571, 1); (573, 574, 1); (577, 577, 1); (579, 582, 1); (584, 590, 2);
    (880, 882, 2); (886, 886, 1); (895, 895, 1); (902, 902, 1); (904, 906, 1);
    (908, 908, 1); (910, 911, 1); (913, 929, 1); (931, 939, 1); (975, 975, 1);
    (978, 980, 1); (984, 1006, 2); (1012, 1012, 1); (1015, 1015, 1); (1017, 1018, 1);
    (1021, 1071, 1); (1120, 1152, 2); (1162, 1214, 2); (1216, 1217, 1); (1219, 1229, 2);
    (1232, 1326, 2); (1329, 1366, 1); (4256, 4293, 1); (4295, 4295, 1); (4301, 4301, 1);
    (5024, 5109, 1); (7312, 7354, 1); (7357, 7359, 1); (7680, 7828, 2); (7838, 7934, 2);
    (7944, 7951, 1); (7960, 7965, 1); (7976, 7983, 1); (7992, 7999, 1); (8008, 8013, 1);
    (8025, 8031, 2); (8040, 8047, 1); (8120, 8123, 1); (8136, 8139, 1); (8152, 8155, 1);
    (8168, 8172, 1); (8184, 8187, 1); (8450, 8450, 1); (8455, 8455, 1); (8459, 8461, 1);
    (8464, 8466, 1); (8469, 8469, 1); (8473, 8477, 1); (8484, 8488, 2); (8490, 8493, 1);
    (8496, 8499, 1); (8510, 8511, 1); (8517, 8517, 1); (8544, 8559, 1); (8579, 8579, 1);
    (9398, 9423, 1); (11264, 11311, 1); (11360, 11360, 1); (11362, 11364, 1);
    (11367, 11371, 2); (11373, 11376, 1); (11378, 11378, 1); (11381, 11381, 1);
    (11390, 11392, 1); (11394, 11490, 2); (11499, 11501, 2); (11506, 11506, 1);
    (42560, 42604, 2); (42624, 42650, 2); (42786, 42798, 2); (42802, 42862, 2);
    (42873, 42875, 2); (42877, 42878, 1); (42880, 42886, 2); (42891, 42893, 2);
    (42896, 42898, 2); (42902, 42920, 2); (42922, 42926, 1); (42928, 42932, 1);
    (42934, 42946, 2); (42948, 42951, 1); (42953, 42953, 1); (42960, 42960, 1);
    (42966, 42968, 2); (42997, 42997, 1); (65313, 65338, 1); (66560, 66599, 1);
    (66736, 66771, 1); (66928, 66938, 1); (66940, 66954, 1); (66956, 66962, 1);
    (66964, 66965, 1); (68736, 68786, 1); (71840, 71871, 1); (93760, 93791, 1);
    (119808, 119833, 1); (119860, 119885, 1); (119912, 119937, 1); (119964, 119964, 1);
    (119966, 119967, 1); (119970, 119970, 1); (119973, 119974, 1); (119977, 119980, 1);
    (119982, 119989, 1); (120016, 120041, 1); (120068, 120069, 1); (120071, 120074, 1);
    (120077, 120084, 1); (120086, 120092, 1); (120120, 120121, 1); (120123, 120126, 1);
    (120128, 120132, 1); (120134, 120134, 1); (120138, 120144, 1); (120172, 120197, 1);
    (120224, 120249, 1); (120276, 120301, 1); (120328, 120353, 1); (120380, 120405, 1);
    (120432, 120457, 1); (120488, 120512, 1); (120546, 120570, 1); (120604, 120628, 1);
    (120662, 120686, 1); (120720, 120744, 1); (120778, 120778, 1); (125184, 125217, 1);
    (127280, 127305, 1); (127312, 127337, 1); (127344, 127369, 1) ]%N.

(** The decimal digits (category Nd), in runs of ten from the digit zero. *)
Definition decimal_table : list (N * N * N) :=
  [ (48, 57, 1); (1632, 1641, 1); (1776, 1785, 1); (1984, 1993, 1); (2406, 2415, 1);
    (2534, 2543, 1); (2662, 2671, 1); (2790, 2799, 1); (2918, 2927, 1); (3046, 3055, 1);
    (3174, 3183, 1); (3302, 3311, 1); (3430, 3439, 1); (3558, 3567, 1); (3664, 3673, 1);
    (3792, 3801, 1); (3872, 3881, 1); (4160, 4169, 1); (4240, 4249, 1); (6112, 6121, 1);
    (6160, 6169, 1); (6470, 6479, 1); (6608, 6617, 1); (6784, 6793, 1); (6800, 6809, 1);
    (6992, 7001, 1); (7088, 7097, 1); (7232, 7241, 1); (7248, 7257, 1);
    (42528, 42537, 1); (43216, 43225, 1); (43264, 43273, 1); (43472, 43481, 1);
    (43504, 43513, 1); (43600, 43609, 1); (44016, 44025, 1); (65296, 65305, 1);
    (66720, 66729, 1); (68912, 68921, 1); (69734, 69743, 1); (69872, 69881, 1);
    (69942, 69951, 1); (70096, 70105, 1); (70384, 70393, 1); (70736, 70745, 1);
    (70864, 70873, 1); (71248, 71257, 1); (71360, 71369, 1); (71472, 71481, 1);
    (71904, 71913, 1); (72016, 72025, 1); (72784, 72793, 1); (73040, 73049, 1);
    (73120, 73129, 1); (92768, 92777, 1); (92864, 92873, 1); (93008, 93017, 1);
    (120782, 120831, 1); (123200, 123209, 1); (123632, 123641, 1); (125264, 125273, 1);
    (130032, 130041, 1) ]%N.

(** The digits that are not decimal (superscripts, circled digits, ...). *)
Definition other_digit_table : list (N * N * N) :=
  [ (178, 179, 1); (185, 185, 1); (4969, 4977, 1); (6618, 6618, 1); (8304, 8304, 1);
    (8308, 8313, 1); (8320, 8329, 1); (9312, 9320, 1); (9332, 9340, 1); (9352, 9360, 1);
    (9450, 9450, 1); (9461, 9469, 1); (9471, 9471, 1); (10102, 10110, 1);
    (10112, 10120, 1); (10122, 10130, 1); (68160, 68163, 1); (69216, 69224, 1);
    (69714, 69722, 1); (127232, 127242, 1) ]%N.

(** The simple lowercase mapping: the progression from [lo] to [hi] goes to the one from [to]. *)
Definition lowercase_table : list (N * N * N * N) :=
  [ (65, 90, 1, 97); (192, 214, 1, 224); (216, 222, 1, 248); (256, 302, 2, 257);
    (304, 304, 1, 105); (306, 310, 2, 307); (313, 327, 2, 314); (330, 374, 2, 331);
    (376, 376, 1, 255); (377, 381, 2, 378); (385, 385, 1, 595); (386, 388, 2, 387);
    (390, 390, 1, 596); (391, 391, 1, 392); (393, 394, 1, 598); (395, 395, 1, 396);
    (398, 398, 1, 477); (399, 399, 1, 601); (400, 400, 1, 603); (401, 401, 1, 402);
    (403, 403, 1, 608); (404, 404, 1, 611); (406, 406, 1, 617); (407, 407, 1, 616);
    (408, 408, 1, 409); (412, 412, 1, 623); (413, 413, 1, 626); (415, 415, 1, 629);
    (416, 420, 2, 417); (422, 422, 1, 640); (423, 423, 1, 424); (425, 425, 1, 643);
    (428, 428, 1, 429); (430, 430, 1, 648); (431, 431, 1, 432); (433, 434, 1, 650);
    (435, 437, 2, 436); (439, 439, 1, 658); (440, 440, 1, 441); (444, 444, 1, 445);
    (452, 452, 1, 454); (453, 453, 1, 454); (455, 455, 1, 457); (456, 456, 1, 457);
    (458, 458, 1, 460); (459, 475, 2, 460); (478, 494, 2, 479); (497, 497, 1, 499);
    (498, 500, 2, 499); (502, 502, 1, 405); (503, 503, 1, 447); (504, 542, 2, 505);
    (544, 544, 1, 414); (546, 562, 2, 547); (570, 570, 1, 11365); (571, 571, 1, 572);
    (573, 573, 1, 410); (574, 574, 1, 11366); (577, 577, 1, 578); (579, 579, 1, 384);
    (580, 580, 1, 649); (581, 581, 1, 652); (582, 590, 2, 583); (880, 882, 2, 881);
    (886, 886, 1, 887); (895, 895, 1, 1011); (902, 902, 1, 940); (904, 906, 1, 941);
    (908, 908, 1, 972); (910, 911, 1, 973); (913, 929, 1, 945); (931, 939, 1, 963);
    (975, 975, 1, 983); (984, 1006, 2, 985); (1012, 1012, 1, 952);
    (1015, 1015, 1, 1016); (1017, 1017, 1, 1010); (1018, 1018, 1, 1019);
    (1021, 1023, 1, 891); (1024, 1039, 1, 1104); (1040, 1071, 1, 1072);
    (1120, 1152, 2, 1121); (1162, 1214, 2, 1163); (1216, 1216, 1, 1231);
    (1217, 1229, 2, 1218); (1232, 1326, 2, 1233); (1329, 1366, 1, 1377);
    (4256, 4293, 1, 11520); (4295, 4295, 1, 11559); (4301, 4301, 1, 11565);
    (5024, 5103, 1, 43888); (5104, 5109, 1, 5112); (7312, 7354, 1, 4304);
    (7357, 7359, 1, 4349); (7680, 7828, 2, 7681); (7838, 7838, 1, 223);
    (7840, 7934, 2, 7841); (7944, 7951, 1, 7936); (7960, 7965, 1, 7952);
    (7976, 7983, 1, 7968); (7992, 7999, 1, 7984); (8008, 8013, 1, 8000);
    (8025, 8031, 2, 8017); (8040, 8047, 1, 8032); (8072, 8079, 1, 8064);
    (8088, 8095, 1, 8080); (8104, 8111, 1, 8096); (8120, 8121, 1, 8112);
    (8122, 8123, 1, 8048); (8124, 8124, 1, 8115); (8136, 8139, 1, 8050);
    (8140, 8140, 1, 8131); (8152, 8153, 1, 8144); (8154, 8155, 1, 8054);
    (8168, 8169, 1, 8160); (8170, 8171, 1, 8058); (8172, 8172, 1, 8165);
    (8184, 8185, 1, 8056); (8186, 8187, 1, 8060); (8188, 8188, 1, 8179);
    (8486, 8486, 1, 969); (8490, 8490, 1, 107); (8491, 8491, 1, 229);
    (8498, 8498, 1, 8526); (8544, 8559, 1, 8560); (8579, 8579, 1, 8580);
    (9398, 9423, 1, 9424); (11264, 11311, 1, 11312); (11360, 11360, 1, 11361);
    (11362, 11362, 1, 619); (11363, 11363, 1, 7549); (11364, 11364, 1, 637);
    (11367, 11371, 2, 11368); (11373, 11373, 1, 593); (11374, 11374, 1, 625);
    (11375, 11375, 1, 592); (11376, 11376, 1, 594); (11378, 11378, 1, 11379);
    (11381, 11381, 1, 11382); (11390, 11391, 1, 575); (11392, 11490, 2, 11393);
    (11499, 11501, 2, 11500); (11506, 11506, 1, 11507); (42560, 42604, 2, 42561);
    (42624, 42650, 2, 42625); (42786, 42798, 2, 42787); (42802, 42862, 2, 42803);
    (42873, 42875, 2, 42874); (42877, 42877, 1, 7545); (42878, 42886, 2, 42879);
    (42891, 42891, 1, 42892); (42893, 42893, 1, 613); (42896, 42898, 2, 42897);
    (42902, 42920, 2, 42903); (42922, 42922, 1, 614); (42923, 42923, 1, 604);
    (42924, 42924, 1, 609); (42925, 42925, 1, 620); (42926, 42926, 1, 618);
    (42928, 42928, 1, 670); (42929, 42929, 1, 647); (42930, 42930, 1, 669);
    (42931, 42931, 1, 43859); (42932, 42946, 2, 42933); (42948, 42948, 1, 42900);
    (42949, 42949, 1, 642); (42950, 42950, 1, 7566); (42951, 42953, 2, 42952);
    (42960, 42960, 1, 42961); (42966, 42968, 2, 42967); (42997, 42997, 1, 42998);
    (65313, 65338, 1, 65345); (66560, 66599, 1, 66600); (66736, 66771, 1, 66776);
    (66928, 66938, 1, 66967); (66940, 66954, 1, 66979); (66956, 66962, 1, 66995);
    (66964, 66965, 1, 67003); (68736, 68786, 1, 68800); (71840, 71871, 1, 71872);
    (93760, 93791, 1, 93792); (125184, 125217, 1, 125218) ]%N.

(** The characters with the property Cased. *)
Definition cased_table : list (N * N * N) :=
  [ (65, 90, 1); (97, 122, 1); (170, 170, 1); (181, 181, 1); (186, 186, 1);
    (192, 214, 1); (216, 246, 1); (248, 442, 1); (444, 447, 1); (452, 659, 1);
    (661, 696, 1); (704, 705, 1); (736, 740, 1); (837, 837, 1); (880, 883, 1);
    (886, 887, 1); (890, 893, 1); (895, 895, 1); (902, 902, 1); (904, 906, 1);
    (908, 908, 1); (910, 929, 1); (931, 1013, 1); (1015, 1153, 1); (1162, 1327, 1);
    (1329, 1366, 1); (1376, 1416, 1); (4256, 4293, 1); (4295, 4295, 1); (4301, 4301, 1);
    (4304, 4346, 1); (4349, 4351, 1); (5024, 5109, 1); (5112, 5117, 1); (7296, 7304, 1);
    (7312, 7354, 1); (7357, 7359, 1); (7424, 7615, 1); (7680, 7957, 1); (7960, 7965, 1);
    (7968, 8005, 1); (8008, 8013, 1); (8016, 8023, 1); (8025, 8029, 2); (8031, 8061, 1);
    (8064, 8116, 1); (8118, 8124, 1); (8126, 8126, 1); (8130, 8132, 1); (8134, 8140, 1);
    (8144, 8147, 1); (8150, 8155, 1); (8160, 8172, 1); (8178, 8180, 1); (8182, 8188, 1);
    (8305, 8305, 1); (8319, 8319, 1); (8336, 8348, 1); (8450, 8450, 1); (8455, 8455, 1);
    (8458, 8467, 1); (8469, 8469, 1); (8473, 8477, 1); (8484, 8488, 2); (8490, 8493, 1);
    (8495, 8500, 1); (8505, 8505, 1); (8508, 8511, 1); (8517, 8521, 1); (8526, 8526, 1);
    (8544, 8575, 1); (8579, 8580, 1); (9398, 9449, 1); (11264, 11492, 1);
    (11499, 11502, 1); (11506, 11507, 1); (11520, 11557, 1); (11559, 11559, 1);
    (11565, 11565, 1); (42560, 42605, 1); (42624, 42653, 1); (42786, 42887, 1);
    (42891, 42894, 1); (42896, 42954, 1); (42960, 42961, 1); (42963, 42963, 1);
    (42965, 42969, 1); (42997, 42998, 1); (43000, 43002, 1); (43824, 43866, 1);
    (43868, 43880, 1); (43888, 43967, 1); (64256, 64262, 1); (64275, 64279, 1);
    (65313, 65338, 1); (65345, 65370, 1); (66560, 66639, 1); (66736, 66771, 1);
    (66776, 66811, 1); (66928, 66938, 1); (66940, 66954, 1); (66956, 66962, 1);
    (66964, 66965, 1); (66967, 66977, 1); (66979, 66993, 1); (66995, 67001, 1);
    (67003, 67004, 1); (67456, 67456, 1); (67459, 67461, 1); (67463, 67504, 1);
    (67506, 67514, 1); (68736, 68786, 1); (68800, 68850, 1); (71840, 71903, 1);
    (93760, 93823, 1); (119808, 119892, 1); (119894, 119964, 1); (119966, 119967, 1);
    (119970, 119970, 1); (119973, 119974, 1); (119977, 119980, 1); (119982, 119993, 1);
    (119995, 119995, 1); (119997, 120003, 1); (120005, 120069, 1); (120071, 120074, 1);
    (120077, 120084, 1); (120086, 120092, 1); (120094, 120121, 1); (120123, 120126, 1);
    (120128, 120132, 1); (120134, 120134, 1); (120138, 120144, 1); (120146, 120485, 1);
    (120488, 120512, 1); (120514, 120538, 1); (120540, 120570, 1); (120572, 120596, 1);
    (120598, 120628, 1); (120630, 120654, 1); (120656, 120686, 1); (120688, 120712, 1);
    (120714, 120744, 1); (120746, 120770, 1); (120772, 120779, 1); (122624, 122633, 1);
    (122635, 122654, 1); (125184, 125251, 1); (127280, 127305, 1); (127312, 127337, 1);
    (127344, 127369, 1) ]%N.

(** The characters with the property Case_Ignorable. *)
Definition case_ignorable_table : list (N * N * N) :=
  [ (39, 39, 1); (46, 46, 1); (58, 58, 1); (94, 96, 2); (168, 168, 1); (173, 175, 2);
    (180, 180, 1); (183, 184, 1); (688, 879, 1); (884, 885, 1); (890, 890, 1);
    (900, 901, 1); (903, 903, 1); (1155, 1161, 1); (1369, 1369, 1); (1375, 1375, 1);
    (1425, 1469, 1); (1471, 1471, 1); (1473, 1474, 1); (1476, 1477, 1); (1479, 1479, 1);
    (1524, 1524, 1); (1536, 1541, 1); (1552, 1562, 1); (1564, 1564, 1); (1600, 1600, 1);
    (1611, 1631, 1); (1648, 1648, 1); (1750, 1757, 1); (1759, 1768, 1); (1770, 1773, 1);
    (1807, 1809, 2); (1840, 1866, 1); (1958, 1968, 1); (2027, 2037, 1); (2042, 2042, 1);
    (2045, 2045, 1); (2070, 2093, 1); (2137, 2139, 1); (2184, 2184, 1); (2192, 2193, 1);
    (2200, 2207, 1); (2249, 2306, 1); (2362, 2364, 2); (2369, 2376, 1); (2381, 2381, 1);
    (2385, 2391, 1); (2402, 2403, 1); (2417, 2417, 1); (2433, 2433, 1); (2492, 2492, 1);
    (2497, 2500, 1); (2509, 2509, 1); (2530, 2531, 1); (2558, 2558, 1); (2561, 2562, 1);
    (2620, 2620, 1); (2625, 2626, 1); (2631, 2632, 1); (2635, 2637, 1); (2641, 2641, 1);
    (2672, 2673, 1); (2677, 2677, 1); (2689, 2690, 1); (2748, 2748, 1); (2753, 2757, 1);
    (2759, 2760, 1); (2765, 2765, 1); (2786, 2787, 1); (2810, 2815, 1); (2817, 2817, 1);
    (2876, 2876, 1); (2879, 2879, 1); (2881, 2884, 1); (2893, 2893, 1); (2901, 2902, 1);
    (2914, 2915, 1); (2946, 2946, 1); (3008, 3008, 1); (3021, 3021, 1); (3072, 3072, 1);
    (3076, 3076, 1); (3132, 3132, 1); (3134, 3136, 1); (3142, 3144, 1); (3146, 3149, 1);
    (3157, 3158, 1); (3170, 3171, 1); (3201, 3201, 1); (3260, 3260, 1); (3263, 3263, 1);
    (3270, 3270, 1); (3276, 3277, 1); (3298, 3299, 1); (3328, 3329, 1); (3387, 3388, 1);
    (3393, 3396, 1); (3405, 3405, 1); (3426, 3427, 1); (3457, 3457, 1); (3530, 3530, 1);
    (3538, 3540, 1); (3542, 3542, 1); (3633, 3633, 1); (3636, 3642, 1); (3654, 3662, 1);
    (3761, 3761, 1); (3764, 3772, 1); (3782, 3782, 1); (3784, 3789, 1); (3864, 3865, 1);
    (3893, 3897, 2); (3953, 3966, 1); (3968, 3972, 1); (3974, 3975, 1); (3981, 3991, 1);
    (3993, 4028, 1); (4038, 4038, 1); (4141, 4144, 1); (4146, 4151, 1); (4153, 4154, 1);
    (4157, 4158, 1); (4184, 4185, 1); (4190, 4192, 1); (4209, 4212, 1); (4226, 4226, 1);
    (4229, 4230, 1); (4237, 4237, 1); (4253, 4253, 1); (4348, 4348, 1); (4957, 4959, 1);
    (5906, 5908, 1); (5938, 5939, 1); (5970, 5971, 1); (6002, 6003, 1); (6068, 6069, 1);
    (6071, 6077, 1); (6086, 6086, 1); (6089, 6099, 1); (6103, 6103, 1); (6109, 6109, 1);
    (6155, 6159, 1); (6211, 6211, 1); (6277, 6278, 1); (6313, 6313, 1); (6432, 6434, 1);
    (6439, 6440, 1); (6450, 6450, 1); (6457, 6459, 1); (6679, 6680, 1); (6683, 6683, 1);
    (6742, 6742, 1); (6744, 6750, 1); (6752, 6754, 2); (6757, 6764, 1); (6771, 6780, 1);
    (6783, 6783, 1); (6823, 6823, 1); (6832, 6862, 1); (6912, 6915, 1); (6964, 6964, 1);
    (6966, 6970, 1); (6972, 6972, 1); (6978, 6978, 1); (7019, 7027, 1); (7040, 7041, 1);
    (7074, 7077, 1); (7080, 7081, 1); (7083, 7085, 1); (7142, 7142, 1); (7144, 7145, 1);
    (7149, 7149, 1); (7151, 7153, 1); (7212, 7219, 1); (7222, 7223, 1); (7288, 7293, 1);
    (7376, 7378, 1); (7380, 7392, 1); (7394, 7400, 1); (7405, 7405, 1); (7412, 7412, 1);
    (7416, 7417, 1); (7468, 7530, 1); (7544, 7544, 1); (7579, 7679, 1); (8125, 8125, 1);
    (8127, 8129, 1); (8141, 8143, 1); (8157, 8159, 1); (8173, 8175, 1); (8189, 8190, 1);
    (8203, 8207, 1); (8216, 8217, 1); (8228, 8228, 1); (8231, 8231, 1); (8234, 8238, 1);
    (8288, 8292, 1); (8294, 8303, 1); (8305, 8305, 1); (8319, 8319, 1); (8336, 8348, 1);
    (8400, 8432, 1); (11388, 11389, 1); (11503, 11505, 1); (11631, 11631, 1);
    (11647, 11647, 1); (11744, 11775, 1); (11823, 11823, 1); (12293, 12293, 1);
    (12330, 12333, 1); (12337, 12341, 1); (12347, 12347, 1); (12441, 12446, 1);
    (12540, 12542, 1); (40981, 40981, 1); (42232, 42237, 1); (42508, 42508, 1);
    (42607, 42610, 1); (42612, 42621, 1); (42623, 42623, 1); (42652, 42655, 1);
    (42736, 42737, 1); (42752, 42785, 1); (42864, 42864, 1); (42888, 42890, 1);
    (42994, 42996, 1); (43000, 43001, 1); (43010, 43010, 1); (43014, 43014, 1);
    (43019, 43019, 1); (43045, 43046, 1); (43052, 43052, 1); (43204, 43205, 1);
    (43232, 43249, 1); (43263, 43263, 1); (43302, 43309, 1); (43335, 43345, 1);
    (43392, 43394, 1); (43443, 43443, 1); (43446, 43449, 1); (43452, 43453, 1);
    (43471, 43471, 1); (43493, 43494, 1); (43561, 43566, 1); (43569, 43570, 1);
    (43573, 43574, 1); (43587, 43587, 1); (43596, 43596, 1); (43632, 43632, 1);
    (43644, 43644, 1); (43696, 43696, 1); (43698, 43700, 1); (43703, 43704, 1);
    (43710, 43711, 1); (43713, 43713, 1); (43741, 43741, 1); (43756, 43757, 1);
    (43763, 43764, 1); (43766, 43766, 1); (43867, 43871, 1); (43881, 43883, 1);
    (44005, 44005, 1); (44008, 44008, 1); (44013, 44013, 1); (64286, 64286, 1);
    (64434, 64450, 1); (65024, 65039, 1); (65043, 65043, 1); (65056, 65071, 1);
    (65106, 65106, 1); (65109, 65109, 1); (65279, 65279, 1); (65287, 65287, 1);
    (65294, 65294, 1); (65306, 65306, 1); (65342, 65344, 2); (65392, 65392, 1);
    (65438, 65439, 1); (65507, 65507, 1); (65529, 65531, 1); (66045, 66045, 1);
    (66272, 66272, 1); (66422, 66426, 1); (67456, 67461, 1); (67463, 67504, 1);
    (67506, 67514, 1); (68097, 68099, 1); (68101, 68102, 1); (68108, 68111, 1);
    (68152, 68154, 1); (68159, 68159, 1); (68325, 68326, 1); (68900, 68903, 1);
    (69291, 69292, 1); (69446, 69456, 1); (69506, 69509, 1); (69633, 69633, 1);
    (69688, 69702, 1); (69744, 69744, 1); (69747, 69748, 1); (69759, 69761, 1);
    (69811, 69814, 1); (69817, 69818, 1); (69821, 69821, 1); (69826, 69826, 1);
    (69837, 69837, 1); (69888, 69890, 1); (69927, 69931, 1); (69933, 69940, 1);
    (70003, 70003, 1); (70016, 70017, 1); (70070, 70078, 1); (70089, 70092, 1);
    (70095, 70095, 1); (70191, 70193, 1); (70196, 70196, 1); (70198, 70199, 1);
    (70206, 70206, 1); (70367, 70367, 1); (70371, 70378, 1); (70400, 70401, 1);
    (70459, 70460, 1); (70464, 70464, 1); (70502, 70508, 1); (70512, 70516, 1);
    (70712, 70719, 1); (70722, 70724, 1); (70726, 70726, 1); (70750, 70750, 1);
    (70835, 70840, 1); (70842, 70842, 1); (70847, 70848, 1); (70850, 70851, 1);
    (71090, 71093, 1); (71100, 71101, 1); (71103, 71104, 1); (71132, 71133, 1);
    (71219, 71226, 1); (71229, 71229, 1); (71231, 71232, 1); (71339, 71341, 2);
    (71344, 71349, 1); (71351, 71351, 1); (71453, 71455, 1); (71458, 71461, 1);
    (71463, 71467, 1); (71727, 71735, 1); (71737, 71738, 1); (71995, 71996, 1);
    (71998, 71998, 1); (72003, 72003, 1); (72148, 72151, 1); (72154, 72155, 1);
    (72160, 72160, 1); (72193, 72202, 1); (72243, 72248, 1); (72251, 72254, 1);
    (72263, 72263, 1); (72273, 72278, 1); (72281, 72283, 1); (72330, 72342, 1);
    (72344, 72345, 1); (72752, 72758, 1); (72760, 72765, 1); (72767, 72767, 1);
    (72850, 72871, 1); (72874, 72880, 1); (72882, 72883, 1); (72885, 72886, 1);
    (73009, 73014, 1); (73018, 73018, 1); (73020, 73021, 1); (73023, 73029, 1);
    (73031, 73031, 1); (73104, 73105, 1); (73109, 73111, 2); (73459, 73460, 1);
    (78896, 78904, 1); (92912, 92916, 1); (92976, 92982, 1); (92992, 92995, 1);
    (94031, 94031, 1); (94095, 94111, 1); (94176, 94177, 1); (94179, 94180, 1);
    (110576, 110579, 1); (110581, 110587, 1); (110589, 110590, 1); (113821, 113822, 1);
    (113824, 113827, 1); (118528, 118573, 1); (118576, 118598, 1); (119143, 119145, 1);
    (119155, 119170, 1); (119173, 119179, 1); (119210, 119213, 1); (119362, 119364, 1);
    (121344, 121398, 1); (121403, 121452, 1); (121461, 121461, 1); (121476, 121476, 1);
    (121499, 121503, 1); (121505, 121519, 1); (122880, 122886, 1); (122888, 122904, 1);
    (122907, 122913, 1); (122915, 122916, 1); (122918, 122922, 1); (123184, 123197, 1);
    (123566, 123566, 1); (123628, 123631, 1); (125136, 125142, 1); (125252, 125259, 1);
    (127995, 127999, 1); (917505, 917505, 1); (917536, 917631, 1); (917760, 917999, 1) ]%N.

(** [str.isspace] on one character (also [\s] of [re]). *)
Definition isspace (c : char) : bool :=
  between 9%N 13%N c || between 28%N 32%N c || eqc c 133%N || eqc c 160%N
  || eqc c 5760%N || between 8192%N 8202%N c || eqc c 8232%N || eqc c 8233%N
  || eqc c 8239%N || eqc c 8287%N || eqc c 12288%N.

(** [str.isdecimal] on one character (also [\d] of [re]). *)
Definition isdecimal (c : char) : bool := in_table decimal_table c.

(** The value of a decimal digit: its place in its run of ten. *)
Definition decimal_value (c : char) : N :=
  match start_in decimal_table c with
  | Some zero => ((c - zero) mod 10)%N
  | None => 0%N
  end.

(** [str.isdigit] on one character: the decimal digits and the other
    digits, such as the superscripts U+00B2, U+00B3 and U+00B9. *)
Definition isdigit_char (c : char) : bool :=
  isdecimal c || in_table other_digit_table c.

(** [str.isupper] on one character. *)
Definition isupper_char (c : char) : bool := in_table uppercase_table c.

(** The simple lowercase mapping of one character. *)
Definition lower_char (c : char) : char := map_table lowercase_table c.

(** The full lowercase mapping: U+0130 alone goes to two characters. *)
Definition lower_full (c : char) : str :=
  if eqc c 304%N then [105%N; 775%N] else [lower_char c].

Fixpoint skip_ignorable (s : str) : str :=
  match s with
  | c :: s' => if in_table case_ignorable_table c then skip_ignorable s' else s
  | [] => []
  end.

(** Whether a capital sigma stands at the end of a word: a cased character
    before it and none after it, characters that case ignores apart.
    [before] holds the characters before the sigma, the nearest first. *)
Definition final_sigma (before after : str) : bool :=
  match skip_ignorable before with
  | c :: _ => in_table cased_table c
  | [] => false
  end
  && match skip_ignorable after with
     | c :: _ => negb (in_table cased_table c)
     | [] => true
     end.

Fixpoint lower_from (before s : str) : str :=
  match s with
  | [] => []
  | c :: s' =>
      (if eqc c 931%N
       then [if final_sigma before s' then 962%N else 963%N]
       else lower_full c)
      ++ lower_from (c :: before) s'
  end.

(** [s.lower()] *)
Definition lower (s : str) : str := lower_from [] s.

Fixpoint lstrip (s : str) : str :=
  match s with
  | c :: s' => if isspace c then lstrip s' else s
  | [] => []
  end.

Definition rstrip (s : str) : str := rev (lstrip (rev s)).

(** [s.strip()] *)
Definition strip (s : str) : str := rstrip (lstrip s).

(** [s.startswith(p)] *)
Fixpoint startswith (s p : str) {struct p} : bool :=
  match p, s with
  | [], _ => true
  | x :: p', c :: s' => eqc x c && startswith s' p'
  | _ :: _, [] => false
  end.

(** [sub in s] *)
Fixpoint contains (sub s : str) : bool :=
  startswith s sub ||
  match s with
  | [] => false
  | _ :: s' => contains sub s'
  end.

(** [any(k in s for k in ks)] *)
Definition any_in (ks : list str) (s : str) : bool :=
  existsb (fun k => contains k s) ks.

(** [w in ws] for a list of strings. *)
Definition mem (w : str) (ws : list str) : bool := existsb (eqs w) ws.

(** [s[a:b]] for [0 <= a <= b]. *)
Definition slice (a b : nat) (s : str) : str := firstn (b - a) (skipn a s).

(** [s.split()]: the maximal runs of characters that are not whitespace. *)
Fixpoint split_ws_aux (cur : str) (s : str) : list str :=
  match s with
  | [] => match cur with [] => [] | _ => [rev cur] end
  | c :: s' =>
      if isspace c
      then match cur with
           | [] => split_ws_aux [] s'
           | _ => rev cur :: split_ws_aux [] s'
           end
      else split_ws_aux (c :: cur) s'
  end.

Definition split_ws (s : str) : list str := split_ws_aux [] s.

(** [sep.join(l)] *)
Fixpoint join (sep : str) (l : list str) : str :=
  match l with
  | [] => []
  | [x] => x
  | x :: l' => x ++ sep ++ join sep l'
  end.

(** [s.split(sep)] for a separator [sep] that is not empty. *)
Fixpoint split_lit_aux (sep : str) (cur : str) (skip : nat) (s : str) : list str :=
  match s with
  | [] => [rev cur]
  | c :: s' =>
      match skip with
      | S k => split_lit_aux sep cur k s'
      | O =>
          if startswith s sep
          then rev cur :: split_lit_aux sep [] (Nat.pred (List.length sep)) s'
          else split_lit_aux sep (c :: cur) 0 s'
      end
  end.

Definition split_lit (sep s : str) : list str := split_lit_aux sep [] 0 s.

(** [s.isdigit()] *)
Definition isdigit (s : str) : bool :=
  match s with
  | [] => false
  | _ => forallb isdigit_char s
  end.

(** [int(s)] on the strings [isdigit] lets through: the value when every
    character is a decimal digit, [None] for the [ValueError] otherwise. *)
Definition int (s : str) : option N :=
  match s with
  | [] => None
  | _ =>
      if forallb isdecimal s
      then Some (fold_left (fun acc c => (acc * 10 + decimal_value c)%N) s 0%N)
      else None
  end.

(** [str(n)] for a natural number. *)
Definition str_of_N (n : N) : str :=
  lit (NilZero.string_of_uint (N.to_uint n)).

Definition str_of_nat (n : nat) : str := str_of_N (N.of_nat n).

End Py.

Import Py.


(** ** Regular expressions of [re]

    The patterns of the sources use literals, the classes [.], [\s], [\d] and
    a bracketed set, concatenation, ordered alternation, greedy and lazy
    repetition of one class, the greedy option [?], capturing groups, a
    lookahead and [$].  Matching is by backtracking, in the order [re]
    explores: a continuation receives the position reached and the groups
    captured so far, and a failure of the continuation makes the matcher try
    its next choice. *)

Module Re.

Inductive cls : Type :=
| CAny                      (* .   : all but the line feed *)
| CSpace                    (* \s *)
| CDigit                    (* \d *)
| CSet (l : list char).     (* [...] *)

Inductive regex : Type :=
| Eps
| Lit (c : char)
| Class (k : cls)
| Cat (r1 r2 : regex)
| Alt (r1 r2 : regex)
| Rep (greedy : bool) (min : nat) (k : cls)   (* k+  k*  k+?  k*? *)
| Opt (r : regex)                             (* (?:r)? *)
| Grp (n : nat) (r : regex)                   (* group number n, from 1 *)
| Ahead (r : regex)                           (* (?=r) *)
| Eos.                                        (* $ *)

(** A group is kept as its span in the subject string. *)
Definition caps := list (nat * (nat * nat)).

Record mstate : Type := MState { pos : nat; rest : str; groups_of : caps }.

(** The characters [re] takes as cased: those a simple case mapping moves. *)
Definition sre_cased_table : list (N * N * N) :=
  [ (65, 90, 1); (97, 122, 1); (181, 181, 1); (192, 214, 1); (216, 246, 1);
    (248, 311, 1); (313, 396, 1); (398, 410, 1); (412, 425, 1); (428, 441, 1);
    (444, 445, 1); (447, 447, 1); (452, 544, 1); (546, 563, 1); (570, 596, 1);
    (598, 599, 1); (601, 601, 1); (603, 604, 1); (608, 609, 1); (611, 611, 1);
    (613, 614, 1); (616, 620, 1); (623, 623, 1); (625, 626, 1); (629, 629, 1);
    (637, 637, 1); (640, 640, 1); (642, 643, 1); (647, 652, 1); (658, 658, 1);
    (669, 670, 1); (837, 837, 1); (880, 883, 1); (886, 887, 1); (891, 893, 1);
    (895, 895, 1); (902, 902, 1); (904, 906, 1); (908, 908, 1); (910, 929, 1);
    (931, 977, 1); (981, 1013, 1); (1015, 1019, 1); (1021, 1153, 1); (1162, 1327, 1);
    (1329, 1366, 1); (1377, 1415, 1); (4256, 4293, 1); (4295, 4295, 1); (4301, 4301, 1);
    (4304, 4346, 1); (4349, 4351, 1); (5024, 5109, 1); (5112, 5117, 1); (7296, 7304, 1);
    (7312, 7354, 1); (7357, 7359, 1); (7545, 7545, 1); (7549, 7549, 1); (7566, 7566, 1);
    (7680, 7835, 1); (7838, 7838, 1); (7840, 7957, 1); (7960, 7965, 1); (7968, 8005, 1);
    (8008, 8013, 1); (8016, 8023, 1); (8025, 8029, 2); (8031, 8061, 1); (8064, 8116, 1);
    (8118, 8124, 1); (8126, 8126, 1); (8130, 8132, 1); (8134, 8140, 1); (8144, 8147, 1);
    (8150, 8155, 1); (8160, 8172, 1); (8178, 8180, 1); (8182, 8188, 1); (8486, 8486, 1);
    (8490, 8491, 1); (8498, 8498, 1); (8526, 8526, 1); (8544, 8575, 1); (8579, 8580, 1);
    (9398, 9449, 1); (11264, 11376, 1); (11378, 11379, 1); (11381, 11382, 1);
    (11390, 11491, 1); (11499, 11502, 1); (11506, 11507, 1); (11520, 11557, 1);
    (11559, 11559, 1); (11565, 11565, 1); (42560, 42605, 1); (42624, 42651, 1);
    (42786, 42799, 1); (42802, 42863, 1); (42873, 42887, 1); (42891, 42893, 1);
    (42896, 42900, 1); (42902, 42926, 1); (42928, 42954, 1); (42960, 42961, 1);
    (42966, 42969, 1); (42997, 42998, 1); (43859, 43859, 1); (43888, 43967, 1);
    (64256, 64262, 1); (64275, 64279, 1); (65313, 65338, 1); (65345, 65370, 1);
    (66560, 66639, 1); (66736, 66771, 1); (66776, 66811, 1); (66928, 66938, 1);
    (66940, 66954, 1); (66956, 66962, 1); (66964, 66965, 1); (66967, 66977, 1);
    (66979, 66993, 1); (66995, 67001, 1); (67003, 67004, 1); (68736, 68786, 1);
    (68800, 68850, 1); (71840, 71903, 1); (93760, 93823, 1); (125184, 125251, 1) ]%N.

(** [re._casefix._EXTRA_CASES]: the other lowercase characters with the same uppercase. *)
Definition extra_cases : list (N * list N) :=
  [ (105, [305]);
    (115, [383]);
    (181, [956]);
    (305, [105]);
    (383, [115]);
    (837, [953; 8126]);
    (912, [8147]);
    (944, [8163]);
    (946, [976]);
    (949, [1013]);
    (952, [977]);
    (953, [837; 8126]);
    (954, [1008]);
    (956, [181]);
    (960, [982]);
    (961, [1009]);
    (962, [963]);
    (963, [962]);
    (966, [981]);
    (976, [946]);
    (977, [952]);
    (981, [966]);
    (982, [960]);
    (1008, [954]);
    (1009, [961]);
    (1013, [949]);
    (1074, [7296]);
    (1076, [7297]);
    (1086, [7298]);
    (1089, [7299]);
    (1090, [7300; 7301]);
    (1098, [7302]);
    (1123, [7303]);
    (7296, [1074]);
    (7297, [1076]);
    (7298, [1086]);
    (7299, [1089]);
    (7300, [1090; 7301]);
    (7301, [1090; 7300]);
    (7302, [1098]);
    (7303, [1123]);
    (7304, [42571]);
    (7777, [7835]);
    (7835, [7777]);
    (8126, [837; 953]);
    (8147, [912]);
    (8163, [944]);
    (42571, [7304]);
    (64261, [64262]);
    (64262, [64261]) ]%N.

Definition sre_cased (c : char) : bool := in_table sre_cased_table c.

Fixpoint same_upper (lo : char) : list (N * list N) -> list char :=
  fun t =>
    match t with
    | [] => []
    | (k, l) :: t' => if eqc k lo then l else same_upper lo t'
    end.

(** A character of a pattern compiled with [re.IGNORECASE] against a
    character of the subject: their simple lowercase mappings agree, or the
    one of the subject is an extra case of the one of the pattern. *)
Definition fold_ok (p c : char) : bool :=
  let lo := lower_char p in
  eqc lo (lower_char c) || existsb (eqc (lower_char c)) (same_upper lo extra_cases).

(** A literal; [ic] is the flag [re.IGNORECASE], under which a character
    that is not cased stands for itself alone. *)
Definition lit_ok (ic : bool) (p c : char) : bool :=
  if ic then (if sre_cased p then fold_ok p c else eqc p c) else eqc p c.

(** A bracketed set as [re] compiles it: a set of one character is that
    literal; under [re.IGNORECASE] a set that holds a cased character, or
    one beyond U+FFFF, is looked up with the lowercase of the subject's
    character, and its characters beyond U+FFFF are then kept as written. *)
Definition set_ok (ic : bool) (l : list char) (c : char) : bool :=
  match nodup N.eq_dec l with
  | [p] => lit_ok ic p c
  | l' =>
      if ic && existsb (fun p => N.leb 65536 p || sre_cased p) l'
      then existsb (fun p => if N.leb 65536 p then eqc p (lower_char c)
                             else fold_ok p c) l'
      else existsb (eqc c) l'
  end.

Definition cls_ok (ic : bool) (k : cls) (c : char) : bool :=
  match k with
  | CAny => negb (eqc c 10%N)
  | CSpace => isspace c
  | CDigit => isdecimal c
  | CSet l => set_ok ic l c
  end.

Section Repeat.
Variable A : Type.
Variable ok : char -> bool.
Variable k : nat -> str -> option A.

(** Greedy repetition: take as many characters as possible, then give
    them back one at a time. *)
Fixpoint rep_greedy (min : nat) (p : nat) (s : str) : option A :=
  let stop := match min with O => k p s | S _ => None end in
  match s with
  | c :: s' =>
      if ok c
      then match rep_greedy (Nat.pred min) (S p) s' with
           | Some r => Some r
           | None => stop
           end
      else stop
  | [] => stop
  end.

(** Lazy repetition: take as few characters as possible, then one more
    at a time. *)
Fixpoint rep_lazy (min : nat) (p : nat) (s : str) : option A :=
  let more :=
    match s with
    | c :: s' => if ok c then rep_lazy (Nat.pred min) (S p) s' else None
    | [] => None
    end in
  match min with
  | O => match k p s with
         | Some r => Some r
         | None => more
         end
  | S _ => more
  end.
End Repeat.

Definition set_group (n a b : nat) (g : caps) : caps := (n, (a, b)) :: g.

Fixpoint group_span (n : nat) (g : caps) : option (nat * nat) :=
  match g with
  | [] => None
  | (m, ab) :: g' => if Nat.eqb m n then Some ab else group_span n g'
  end.

Fixpoint m (A : Type) (ic : bool) (r : regex) (st : mstate)
           (k : mstate -> option A) {struct r} : option A :=
  match r with
  | Eps => k st
  | Lit p =>
      match rest st with
      | c :: s' =>
          if lit_ok ic p c then k (MState (S (pos st)) s' (groups_of st)) else None
      | [] => None
      end
  | Class c0 =>
      match rest st with
      | c :: s' =>
          if cls_ok ic c0 c then k (MState (S (pos st)) s' (groups_of st)) else None
      | [] => None
      end
  | Cat r1 r2 => m ic r1 st (fun st1 => m ic r2 st1 k)
  | Alt r1 r2 =>
      match m ic r1 st k with
      | Some x => Some x
      | None => m ic r2 st k
      end
  | Rep greedy min c0 =>
      let k' := fun p s => k (MState p s (groups_of st)) in
      if greedy
      then rep_greedy (cls_ok ic c0) k' min (pos st) (rest st)
      else rep_lazy (cls_ok ic c0) k' min (pos st) (rest st)
  | Opt r1 =>
      match m ic r1 st k with
      | Some x => Some x
      | None => k st
      end
  | Grp n r1 =>
      m ic r1 st (fun st1 =>
        k (MState (pos st1) (rest st1)
                  (set_group n (pos st) (pos st1) (groups_of st1))))
  | Ahead r1 =>
      match m ic r1 st (fun st1 => Some st1) with
      | Some st1 => k (MState (pos st) (rest st) (groups_of st1))
      | None => None
      end
  | Eos =>
      match rest st with
      | [] => k st
      | [c] => if eqc c 10%N then k st else None
      | _ => None
      end
  end.

(** The number of groups of a pattern: the largest group number. *)
Fixpoint ngroups (r : regex) : nat :=
  match r with
  | Cat r1 r2 | Alt r1 r2 => Nat.max (ngroups r1) (ngroups r2)
  | Opt r1 | Ahead r1 => ngroups r1
  | Grp n r1 => Nat.max n (ngroups r1)
  | _ => 0
  end.

(** A match at position [p] of the subject; [adv] asks for a match that is
    not empty (the scanner of [re.split] after an empty match). *)
Definition match_at (ic : bool) (r : regex) (adv : bool) (p : nat) (s : str)
  : option mstate :=
  m ic r (MState p s [])
    (fun st => if adv && Nat.eqb (pos st) p then None else Some st).

Record rmatch : Type := RMatch { m_start : nat; m_end : nat; m_caps : caps }.

(** The leftmost match at or after position [p]; [s] is the subject from
    [p] on. *)
Fixpoint search_from (ic : bool) (r : regex) (p : nat) (s : str) : option rmatch :=
  match match_at ic r false p s with
  | Some st => Some (RMatch p (pos st) (groups_of st))
  | None =>
      match s with
      | [] => None
      | _ :: s' => search_from ic r (S p) s'
      end
  end.

(** [match.groups()]: the text of every group of the pattern, [None] for a
    group that did not take part in the match. *)
Definition group_text (subject : str) (g : caps) (n : nat) : option str :=
  match group_span n g with
  | Some (a, b) => Some (slice a b subject)
  | None => None
  end.

Definition groups (r : regex) (subject : str) (g : caps) : list (option str) :=
  map (fun n => group_text subject g (S n)) (seq 0 (ngroups r)).

(** [re.search(r, s, flags)] followed by [.groups()]. *)
Definition search (ic : bool) (r : regex) (s : str) : option (list (option str)) :=
  match search_from ic r 0 s with
  | Some mt => Some (groups r s (m_caps mt))
  | None => None
  end.

(** [re.split(r, s)] for a pattern without groups.  [last] is where the
    piece being built starts and [skip] counts the characters of the match
    being stepped over.  Where an empty match was just found, the next match
    at the same place must not be empty. *)
Fixpoint split_go (r : regex) (whole : str) (p : nat) (s : str)
                  (skip : nat) (last : nat) : list str :=
  match skip with
  | S n =>
      match s with
      | _ :: s' => split_go r whole (S p) s' n last
      | [] => [slice last (List.length whole) whole]
      end
  | O =>
      let step last' :=
        match s with
        | _ :: s' => split_go r whole (S p) s' 0 last'
        | [] => [slice last' (List.length whole) whole]
        end in
      let jump e :=
        match s with
        | _ :: s' => split_go r whole (S p) s' (e - p - 1) e
        | [] => [slice e (List.length whole) whole]
        end in
      match match_at false r false p s with
      | None => step last
      | Some st =>
          if Nat.eqb (pos st) p
          then
            slice last p whole ::
            match match_at false r true p s with
            | Some st' => slice p p whole :: jump (pos st')
            | None => step p
            end
          else slice last p whole :: jump (pos st)
      end
  end.

Definition split (r : regex) (s : str) : list str := split_go r s 0 s 0 0.

(** Building patterns. *)
Fixpoint lits_of (s : str) : regex :=
  match s with
  | [] => Eps
  | [c] => Lit c
  | c :: s' => Cat (Lit c) (lits_of s')
  end.

Definition lits (s : string) : regex := lits_of (lit s).

Fixpoint cat (l : list regex) : regex :=
  match l with
  | [] => Eps
  | [r] => r
  | r :: l' => Cat r (cat l')
  end.

Fixpoint alt (l : list regex) : regex :=
  match l with
  | [] => Eps
  | [r] => r
  | r :: l' => Alt r (alt l')
  end.

(** [(?:w1|w2|...)] for literal alternatives. *)
Definition words (l : list string) : regex := alt (map lits l).

Definition sp1 : regex := Rep true 1 CSpace.       (* \s+ *)
Definition sp0 : regex := Rep true 0 CSpace.       (* \s* *)
Definition any1 : regex := Rep true 1 CAny.        (* .+  *)
Definition any1_lazy : regex := Rep false 1 CAny.  (* .+? *)
Definition dig1 : regex := Rep true 1 CDigit.      (* \d+ *)
(** The set of the double and the single quotation mark. *)
Definition quote : regex := Class (CSet [34; 39]%N).

End Re.

Import Re.

(** ** Exceptions *)

Inductive exn : Type := ValueError | IndexError | AttributeError.

Inductive result (A : Type) : Type :=
| Ok (a : A)
| Raise (e : exn).
Arguments Ok {A} a.
Arguments Raise {A} e.

Definition rbind {A B : Type} (x : result A) (f : A -> result B) : result B :=
  match x with
  | Ok a => f a
  | Raise e => Raise e
  end.

Notation "x <- c ;; k" := (rbind c (fun x => k))
  (at level 61, c at next level, right associativity).

(** ** The command parser ([natural-language-processor.py]) *)

Module NLP.

Inductive ActionType : Type :=
| NAVIGATE | CLICK | TYPE | SCROLL | WAIT | SCREENSHOT | EXTRACT
| FILL_FORM | LOGIN | SEARCH | DOWNLOAD | UPLOAD | CUSTOM.

Definition ActionType_eqb (a b : ActionType) : bool :=
  match a, b with
  | NAVIGATE, NAVIGATE | CLICK, CLICK | TYPE, TYPE | SCROLL, SCROLL
  | WAIT, WAIT | SCREENSHOT, SCREENSHOT | EXTRACT, EXTRACT
  | FILL_FORM, FILL_FORM | LOGIN, LOGIN | SEARCH, SEARCH
  | DOWNLOAD, DOWNLOAD | UPLOAD, UPLOAD | CUSTOM, CUSTOM => true
  | _, _ => false
  end.

(** The dataclass [AutomationAction]; [parameters] is never set by the
    parser and stays [None]. *)
Record AutomationAction : Type := Action {
  action_type : ActionType;
  target : option str;
  value : option str;
  parameters : option (list (str * str));
  description : option str
}.

(** [_initialize_patterns]: the patterns of every action type, in the order
    of the dictionary. *)
Definition score_pct : regex :=
  alt [Cat dig1 (lits "%"); cat [dig1; sp0; lits "percent"]; lits "100%"].

Definition score_all : regex :=
  alt [Cat dig1 (lits "%"); cat [dig1; sp0; lits "percent"]; lits "100%"; lits "all"].

Definition action_patterns : list (ActionType * list regex) :=
  [ (NAVIGATE,
      [ cat [words ["go to"; "navigate to"; "visit"; "open"]; sp1; Grp 1 any1];
        cat [words ["load"; "browse to"]; sp1; Grp 1 any1];
        cat [words ["take me to"; "show me"]; sp1; Grp 1 any1] ]);
    (CLICK,
      [ cat [words ["click"; "press"; "tap"]; sp1; Opt (Cat (lits "on") sp1); Grp 1 any1];
        cat [words ["select"; "choose"]; sp1; Grp 1 any1];
        cat [words ["hit"; "activate"]; sp1; Grp 1 any1] ]);
    (TYPE,
      [ cat [words ["type"; "enter"; "input"]; sp1; quote; Grp 1 any1_lazy; quote;
             sp1; words ["in"; "into"; "on"]; sp1; Grp 2 any1];
        cat [words ["write"; "fill"]; sp1; Grp 1 any1_lazy; sp1;
             words ["in"; "into"]; sp1; Grp 2 any1];
        cat [words ["put"; "insert"]; sp1; quote; Grp 1 any1_lazy; quote;
             sp1; words ["in"; "into"]; sp1; Grp 2 any1] ]);
    (SCROLL,
      [ cat [words ["scroll"; "move"]; sp1;
             Grp 1 (alt [lits "down"; lits "up"; cat [lits "to"; sp1; any1]])];
        alt [cat [lits "page"; sp1; lits "down"]; cat [lits "page"; sp1; lits "up"]];
        alt [cat [lits "go"; sp1; lits "to"; sp1; lits "top"];
             cat [lits "go"; sp1; lits "to"; sp1; lits "bottom"]] ]);
    (WAIT,
      [ cat [words ["wait"; "pause"]; sp1; Opt (Cat (lits "for") sp1); Grp 1 dig1; sp0;
             Opt (alt [Cat (lits "second") (Opt (lits "s"));
                       Cat (lits "sec") (Opt (lits "s"));
                       lits "s"])];
        cat [words ["delay"; "hold"]; sp1; Grp 1 dig1];
        cat [words ["wait for"; "wait until"]; sp1; Grp 1 any1] ]);
    (SCREENSHOT,
      [ cat [words ["take"; "capture"; "grab"]; sp1; Opt (Cat (lits "a") sp1);
             words ["screenshot"; "picture"; "image"]];
        cat [words ["save"; "export"]; sp1; words ["screenshot"; "image"]];
        cat [words ["show me"; "let me see"]; sp1; Opt (Cat (lits "the") sp1);
             words ["page"; "screen"]] ]);
    (EXTRACT,
      [ cat [words ["get"; "extract"; "find"; "grab"]; sp1; Opt (Cat (lits "the") sp1);
             Grp 1 any1];
        cat [words ["copy"; "save"]; sp1; Opt (Cat (lits "the") sp1); Grp 1 any1];
        cat [words ["what is"; "show me"]; sp1; Opt (Cat (lits "the") sp1); Grp 1 any1] ]);
    (FILL_FORM,
      [ cat [words ["fill"; "complete"]; sp1; Opt (Cat (lits "the") sp1);
             words ["form"; "fields"]];
        cat [words ["submit"; "send"]; sp1; Opt (Cat (lits "the") sp1); lits "form"];
        cat [words ["enter"; "input"]; sp1; Opt (Cat (lits "my") sp1);
             words ["details"; "information"]] ]);
    (LOGIN,
      [ cat [words ["log in"; "login"; "sign in"];
             Opt (cat [sp1; lits "to"; sp1; Grp 1 any1])];
        cat [words ["authenticate"; "access"]; sp1; Grp 1 any1];
        cat [words ["enter"; "use"]; sp1; Opt (Cat (lits "my") sp1);
             words ["credentials"; "login"]] ]);
    (SEARCH,
      [ cat [words ["search"; "look"]; sp1; Opt (Cat (lits "for") sp1);
             quote; Grp 1 any1_lazy; quote];
        cat [words ["find"; "locate"]; sp1; Grp 1 any1];
        cat [words ["query"; "lookup"]; sp1; Grp 1 any1] ]);
    (DOWNLOAD,
      [ cat [words ["download"; "save"; "get"]; sp1; Grp 1 any1];
        cat [words ["fetch"; "retrieve"]; sp1; Grp 1 any1];
        cat [words ["export"; "backup"]; sp1; Grp 1 any1] ]);
    (UPLOAD,
      [ cat [words ["upload"; "attach"; "add"]; sp1; Opt (Cat (lits "file") sp1); Grp 1 any1];
        cat [words ["select"; "choose"]; sp1; Opt (Cat (lits "file") sp1); Grp 1 any1;
             sp1; words ["to upload"; "for upload"]];
        cat [words ["browse"; "pick"]; sp1; Opt (Cat (lits "a") sp1); lits "file"] ]);
    (CUSTOM,
      [ cat [words ["complete"; "finish"; "do"]; sp1; Grp 1 any1_lazy; sp1;
             Opt (Cat (lits "with") sp1); Opt (Grp 2 score_all)];
        cat [words ["take"; "attempt"]; sp1; Grp 1 any1_lazy; sp1;
             Opt (Cat (lits "and") sp1); words ["pass"; "score"]; sp1; Grp 2 score_pct];
        cat [Opt (cat [lits "we"; sp1; lits "need"; sp1; lits "to"; sp1]);
             words ["accomplish"; "achieve"]; sp1; Grp 1 any1] ]) ].

(** [groups[i]] *)
Definition item (groups : list (option str)) (i : nat) : result (option str) :=
  match nth_error groups i with
  | Some g => Ok g
  | None => Raise IndexError
  end.

(** A method call on a group: [None] has no string method. *)
Definition the_str (g : option str) : result str :=
  match g with
  | Some s => Ok s
  | None => Raise AttributeError
  end.

(** Truth value of a group: a string that is not empty. *)
Definition truthy (g : option str) : bool :=
  match g with
  | Some (_ :: _) => true
  | _ => false
  end.

Definition stripped (groups : list (option str)) (i : nat) : result str :=
  g <- item groups i ;; s <- the_str g ;; Ok (strip s).

(** [groups[i].strip() if groups and len(groups) > i and groups[i] else d] *)
Definition stripped_or (groups : list (option str)) (i : nat) (d : option str)
  : option str :=
  match nth_error groups i with
  | Some (Some (c :: s)) => Some (strip (c :: s))
  | _ => d
  end.

Definition action (t : ActionType) (tg v d : option str) : AutomationAction :=
  Action t tg v None d.

(** [_create_action] *)
Definition _create_action (t : ActionType) (groups : list (option str))
                          (command : str) : result AutomationAction :=
  match t with
  | NAVIGATE =>
      url <- stripped groups 0 ;;
      let url :=
        if negb (startswith url (lit "http://") || startswith url (lit "https://"))
        then
          if contains (lit ".") url && negb (startswith url (lit "www."))
          then lit "https://" ++ url
          else if negb (startswith url (lit "www."))
               then lit "https://www." ++ url
               else url
        else url in
      Ok (action t (Some url) None (Some (lit "Navigate to " ++ url)))
  | CLICK =>
      tg <- stripped groups 0 ;;
      Ok (action t (Some tg) None (Some (lit "Click on " ++ tg)))
  | TYPE =>
      vt <- (if Nat.leb 2 (List.length groups)
             then v <- stripped groups 0 ;; tg <- stripped groups 1 ;; Ok (v, tg)
             else
               g <- item groups 0 ;; g0 <- the_str g ;;
               let parts := split_lit (lit " in ") g0 in
               if Nat.leb 2 (List.length parts)
               then Ok (strip (hd [] parts), strip (join (lit " ") (tl parts)))
               else Ok (strip g0, lit "input field")) ;;
      let (v, tg) := vt in
      Ok (action t (Some tg) (Some v)
            (Some (lit "Type '" ++ v ++ lit "' in " ++ tg)))
  | WAIT =>
      g <- item groups 0 ;; g0 <- the_str g ;;
      if isdigit g0
      then
        match int g0 with
        | Some seconds =>
            Ok (action t None (Some (str_of_N seconds))
                  (Some (lit "Wait for " ++ str_of_N seconds ++ lit " seconds")))
        | None => Raise ValueError
        end
      else
        let condition := strip g0 in
        Ok (action t (Some condition) None (Some (lit "Wait for " ++ condition)))
  | SEARCH =>
      query <- stripped groups 0 ;;
      Ok (action t None (Some query)
            (Some (lit "Search for '" ++ query ++ lit "'")))
  | LOGIN =>
      let site :=
        match stripped_or groups 0 None with
        | Some s => s
        | None => lit "current site"
        end in
      Ok (action t (Some site) None (Some (lit "Login to " ++ site)))
  | CUSTOM =>
      let task :=
        match stripped_or groups 0 None with Some s => s | None => lit "task" end in
      let score :=
        match stripped_or groups 1 None with Some s => s | None => lit "100%" end in
      Ok (action t (Some task) (Some score)
            (Some (lit "Complete " ++ task ++ lit " with " ++ score ++ lit " score")))
  | _ =>
      Ok (action t (stripped_or groups 0 None) None (Some command))
  end.

(** [_infer_action_from_keywords] *)
Definition _infer_action_from_keywords (command : str) : option AutomationAction :=
  let words := split_ws (lower command) in
  if existsb (fun word => startswith word (lit "http://")
                          || startswith word (lit "https://")
                          || contains (lit ".") word) words
  then Some (action NAVIGATE (Some command) None (Some (lit "Navigate to " ++ command)))
  else if existsb (fun word => mem word [lit "click"; lit "press"; lit "tap"; lit "select"]) words
  then
    let tg := if Nat.ltb 1 (List.length words) then join (lit " ") (tl words) else lit "element" in
    Some (action CLICK (Some tg) None (Some (lit "Click on " ++ tg)))
  else if existsb (fun word => mem word [lit "what"; lit "show"; lit "get"; lit "find"; lit "tell"]) words
  then Some (action EXTRACT (Some command) None
               (Some (lit "Extract information: " ++ command)))
  else None.

(** [_parse_single_command]: the first pattern that matches, over the action
    types in order and the patterns of each in order, with
    [re.IGNORECASE]. *)
Fixpoint first_match (ic : bool) (ps : list regex) (command : str)
  : option (list (option str)) :=
  match ps with
  | [] => None
  | p :: ps' =>
      match search ic p command with
      | Some g => Some g
      | None => first_match ic ps' command
      end
  end.

Fixpoint match_types (tps : list (ActionType * list regex)) (command : str)
  : option (ActionType * list (option str)) :=
  match tps with
  | [] => None
  | (t, ps) :: tps' =>
      match first_match true ps command with
      | Some g => Some (t, g)
      | None => match_types tps' command
      end
  end.

Definition _parse_single_command (command : str) : result (option AutomationAction) :=
  match match_types action_patterns command with
  | Some (t, g) => a <- _create_action t g command ;; Ok (Some a)
  | None => Ok (_infer_action_from_keywords command)
  end.

(** [_split_compound_command_enhanced] *)
Definition verbs : regex :=
  words ["find"; "see"; "take"; "click"; "go"; "navigate"; "login"; "search";
         "fill"; "submit"; "wait"; "scroll"].

Definition separators : list regex :=
  [ cat [sp1; lits "and"; sp1; lits "then"; sp1];
    cat [sp1; lits "then"; sp1];
    cat [sp0; lits ","; sp0; lits "then"; sp1];
    cat [sp0; lits ","; sp0; lits "and"; sp1; lits "then"; sp1];
    cat [sp0; lits ","; sp0; lits "and"; sp1];
    cat [sp0; lits ";"; sp0];
    cat [sp1; lits "after"; sp1; lits "that"; sp1];
    cat [sp1; lits "next"; sp1];
    cat [sp1; lits "afterwards"; sp1];
    cat [sp0; lits ","; sp0; Ahead verbs];
    cat [sp1; lits "and"; sp1; Ahead verbs] ].

(** The loop over the separators: every piece found so far is split again
    on the next separator. *)
Definition split_all (seps : list regex) (commands : list str) : list str :=
  fold_left (fun commands separator => flat_map (Re.split separator) commands)
            seps commands.

(** The cleaning pass: pieces are stripped, and kept when longer than two
    characters. *)
Definition clean (commands : list str) : list str :=
  filter (fun cmd => Nat.ltb 2 (List.length cmd)) (map strip commands).

Definition _split_compound_command_enhanced (command : str) : list str :=
  clean (split_all separators [command]).

(** [_parse_complex_phrases] *)
Definition auth_patterns : list regex :=
  [ cat [lits "login"; sp1; lits "with"; sp1; Grp 1 any1_lazy; sp1; lits "to"; sp1;
         Opt (Cat (lits "the") sp1); Grp 2 any1];
    cat [lits "sign"; sp1; lits "in"; sp1; Opt (Cat (lits "with") sp1);
         Grp 1 any1_lazy; sp1; Opt (Cat (lits "to") sp1);
         Opt (Cat (lits "the") sp1); Grp 2 any1];
    cat [lits "authenticate"; sp1; Opt (Cat (lits "with") sp1); Grp 1 any1_lazy;
         sp1; Opt (Cat (lits "for") sp1); Grp 2 any1] ].

Definition find_tail : regex :=
  alt [Cat sp0 (lits ","); Cat sp1 (lits "and"); Cat sp0 Eos].

Definition find_patterns : list regex :=
  [ cat [lits "find"; sp1; Opt (Cat (lits "my") sp1); Grp 1 any1_lazy; find_tail];
    cat [lits "look"; sp1; lits "for"; sp1; Opt (Cat (lits "my") sp1);
         Grp 1 any1_lazy; find_tail];
    cat [lits "locate"; sp1; Opt (Cat (lits "my") sp1); Grp 1 any1_lazy; find_tail];
    cat [lits "see"; sp1; Opt (Cat (lits "what") sp1); Opt (Cat (lits "i") sp1);
         Grp 1 any1_lazy; find_tail] ].

Definition completion_patterns : list regex :=
  [ cat [words ["take"; "complete"; "do"; "finish"]; sp1; Opt (Cat (lits "the") sp1);
         Grp 1 any1_lazy; sp1; Opt (Cat (lits "and") sp1);
         Opt (cat [lits "pass"; sp1; lits "them"; sp1]); Opt (Grp 2 score_all)];
    cat [words ["pass"; "complete"]; sp1; Grp 1 any1_lazy; sp1;
         Opt (Cat (lits "at") sp1); Opt (Grp 2 score_pct)];
    cat [Opt (cat [lits "we"; sp1; lits "need"; sp1; lits "to"; sp1]);
         words ["take"; "do"; "complete"]; sp1; Grp 1 any1_lazy; sp1;
         Opt (Cat (lits "all") sp1); Opt (lits "please")] ].

(** [match.group(i)], for [i] from 1. *)
Definition group (groups : list (option str)) (i : nat) : result (option str) :=
  item groups (Nat.pred i).

Definition _parse_complex_phrases (command : str)
                                  (previous_actions : list AutomationAction)
  : result (option AutomationAction) :=
  match first_match false auth_patterns command with
  | Some g =>
      g1 <- group g 1 ;; m1 <- the_str g1 ;;
      let method := strip m1 in
      tg <- (if Nat.ltb 1 (List.length g)
             then g2 <- group g 2 ;; t2 <- the_str g2 ;; Ok (strip t2)
             else Ok []) ;;
      Ok (Some (action LOGIN (Some (method ++ lit " login")) (Some tg)
                  (Some (lit "Login with " ++ method ++ lit " to " ++ tg))))
  | None =>
  match first_match false find_patterns command with
  | Some g =>
      g1 <- group g 1 ;; t1 <- the_str g1 ;;
      let tg := strip t1 in
      Ok (Some (action SEARCH (Some tg) None (Some (lit "Find " ++ tg))))
  | None =>
  match first_match false completion_patterns command with
  | Some g =>
      g1 <- group g 1 ;; t1 <- the_str g1 ;;
      let tg := strip t1 in
      let score :=
        match (if Nat.ltb 1 (List.length g) then nth_error g 1 else None) with
        | Some (Some (c :: sc)) => c :: sc
        | _ => lit "100%"
        end in
      Ok (Some (action CUSTOM (Some tg) (Some score)
                  (Some (lit "Complete " ++ tg ++ lit " with " ++ score ++ lit " score"))))
  | None => Ok None
  end end end.

(** [_parse_single_command_enhanced] *)
Definition _parse_single_command_enhanced (command : str)
                                          (previous_actions : list AutomationAction)
  : result (option AutomationAction) :=
  a <- _parse_single_command command ;;
  match a with
  | Some x => Ok (Some x)
  | None => _parse_complex_phrases command previous_actions
  end.

(** [_infer_complex_action] *)
Definition interaction_keywords : list str :=
  map lit [ "quizzes"; "tests"; "assessments"; "exams"; "assignments";
            "account"; "profile"; "dashboard"; "settings";
            "results"; "scores"; "grades"; "progress" ].

Definition last_is_navigate (previous_actions : list AutomationAction) : bool :=
  match rev previous_actions with
  | a :: _ => ActionType_eqb (action_type a) NAVIGATE
  | [] => false
  end.

Definition _infer_complex_action (command : str)
                                 (previous_actions : list AutomationAction)
  : option AutomationAction :=
  match (if last_is_navigate previous_actions
         then find (fun keyword => contains keyword command) interaction_keywords
         else None) with
  | Some keyword =>
      Some (action CLICK (Some keyword) None (Some (lit "Click on " ++ keyword)))
  | None =>
      if any_in [lit "my"; lit "i"; lit "me"] command
         && any_in [lit "passed"; lit "completed"; lit "finished"] command
      then Some (action SEARCH (Some (lit "completed items")) None
                   (Some (lit "Find completed items")))
      else if Nat.ltb 5 (List.length command)
      then Some (action SEARCH (Some command) None
                   (Some (lit "Search for: " ++ command)))
      else None
  end.

(** [process_command]: the loop over the sub-commands, with the actions
    collected so far. *)
Fixpoint process_subs (subs : list str) (actions : list AutomationAction)
  : result (list AutomationAction) :=
  match subs with
  | [] => Ok actions
  | sub_command :: subs' =>
      let sub_command := strip sub_command in
      match sub_command with
      | [] => process_subs subs' actions
      | _ =>
          a <- _parse_single_command_enhanced sub_command actions ;;
          match a with
          | Some x => process_subs subs' (actions ++ [x])
          | None =>
              match _infer_complex_action sub_command actions with
              | Some x => process_subs subs' (actions ++ [x])
              | None => process_subs subs' actions
              end
          end
      end
  end.

Definition process_command (command : str) : result (list AutomationAction) :=
  let command := strip (lower command) in
  process_subs (_split_compound_command_enhanced command) [].

End NLP.

Import NLP.

(** ** Splitting on "then" alone

    The procedure the specification compares the splitter with: the command
    is split on [\s+then\s+] alone, and a piece that ends with whitespace
    and the word "and" loses them. *)

Module ThenAlone.







(** Plain fragments: words separated by one space each, where a word has
    no whitespace, comma or semicolon and is none of the words the
    separators are made of. *)
Definition word_char (c : char) : bool :=
  negb (isspace c) && negb (eqc c 44%N) && negb (eqc c 59%N).

Definition reserved : list str :=
  map lit ["and"; "then"; "after"; "next"; "afterwards"].

Definition word (w : str) : bool :=
  match w with
  | [] => false
  | _ => forallb word_char w && negb (mem w reserved)
  end.







(** A string that does not start with whitespace. *)
Definition no_space_ahead (s : str) : Prop :=
  match s with
  | [] => True
  | c :: _ => isspace c = false
  end.



(** A word as a token: not empty, of word characters. *)
Definition token (w : str) : Prop := w <> [] /\ forallb word_char w = true.


End ThenAlone.

(** ** Code that drives the page

    A call into Playwright or into the language model either returns or
    raises; [Exc text] is an exception [e] with [str(e) = text]. *)

Inductive res (A : Type) : Type :=
| Ret (a : A)
| Exc (text : str).
Arguments Ret {A} a.
Arguments Exc {A} text.

(** ** The dispatch of one action ([natural-language-executor.py]) *)

Module Executor.

(** The dictionary an executor returns: the keys every handler sets, and
    the further keys of some handlers ([url], [data], ...). *)
Record outcome : Type := Outcome {
  success : bool;
  message : str;
  error : option str;
  extra : list (str * str)
}.

(** [str(action.action_type)] *)
Definition type_name (t : ActionType) : str :=
  lit "ActionType." ++
  lit match t with
      | NAVIGATE => "NAVIGATE" | CLICK => "CLICK" | TYPE => "TYPE"
      | SCROLL => "SCROLL" | WAIT => "WAIT" | SCREENSHOT => "SCREENSHOT"
      | EXTRACT => "EXTRACT" | FILL_FORM => "FILL_FORM" | LOGIN => "LOGIN"
      | SEARCH => "SEARCH" | DOWNLOAD => "DOWNLOAD" | UPLOAD => "UPLOAD"
      | CUSTOM => "CUSTOM"
      end.

Section Dispatch.
(** The state of the page the executor holds. *)
Variable Page : Type.

Definition handler : Type := AutomationAction -> Page -> Page * res outcome.

(** The eleven [_execute_*] methods; each works on the page and may
    raise. *)
Record handlers : Type := Handlers {
  _execute_navigate : handler;
  _execute_click : handler;
  _execute_type : handler;
  _execute_scroll : handler;
  _execute_wait : handler;
  _execute_screenshot : handler;
  _execute_extract : handler;
  _execute_search : handler;
  _execute_login : handler;
  _execute_fill_form : handler;
  _execute_custom : handler
}.

Variable h : handlers.

(** The chain of comparisons of [_execute_action]; [None] is its final
    [else]. *)
Definition dispatch (t : ActionType) : option handler :=
  match t with
  | NAVIGATE => Some (_execute_navigate h)
  | CLICK => Some (_execute_click h)
  | TYPE => Some (_execute_type h)
  | SCROLL => Some (_execute_scroll h)
  | WAIT => Some (_execute_wait h)
  | SCREENSHOT => Some (_execute_screenshot h)
  | EXTRACT => Some (_execute_extract h)
  | SEARCH => Some (_execute_search h)
  | LOGIN => Some (_execute_login h)
  | FILL_FORM => Some (_execute_fill_form h)
  | CUSTOM => Some (_execute_custom h)
  | DOWNLOAD | UPLOAD => None
  end.

Definition not_implemented (t : ActionType) : outcome :=
  Outcome false (lit "Action type " ++ type_name t ++ lit " not implemented yet")
          None [].

Definition failed (t : ActionType) (text : str) : outcome :=
  Outcome false (lit "Error executing " ++ type_name t ++ lit ": " ++ text)
          (Some text) [].

(** The body of the [try] of [_execute_action]. *)
Definition _execute_action_body (a : AutomationAction) (pg : Page)
  : Page * res outcome :=
  match dispatch (action_type a) with
  | Some f => f a pg
  | None => (pg, Ret (not_implemented (action_type a)))
  end.

(** [_execute_action]: the body under [except Exception]. *)
Definition _execute_action (a : AutomationAction) (pg : Page)
  : Page * res outcome :=
  match _execute_action_body a pg with
  | (pg', Ret o) => (pg', Ret o)
  | (pg', Exc text) => (pg', Ret (failed (action_type a) text))
  end.
End Dispatch.

End Executor.

(** ** The remote agent ([remote_agent.py]) *)

Module Agent.

Inductive TaskStatus : Type :=
| NOT_STARTED | IN_PROGRESS | COMPLETED | FAILED | RETAKE_AVAILABLE.

Inductive QuestionType : Type :=
| MULTIPLE_CHOICE | CODING | ESSAY | MATH | FORM_FILL | GENERAL.

Record QuizItem : Type := Quiz {
  title : str;
  url : str;
  status : TaskStatus;
  start_button_selector : option str;
  completion_indicator : option str
}.

Record Question : Type := Quest {
  text : str;
  question_type : QuestionType;
  options : list str;
  context : str;
  element_selector : str
}.

(** The three characters the source files hold where a pictograph was
    meant: U+201A U+00FA U+00EC in the list of completion markers, and the
    marks that open the result strings. *)
Definition mark_check : str := [8218; 250; 236]%N.
Definition mark_ok : str := [8218; 250; 214]%N.
Definition mark_fail : str := [8218; 249; 229]%N.

(** [QuestionAnsweringAI.classify_question] *)
Definition classify_question (question_text : str) : QuestionType :=
  let question_lower := lower question_text in
  if any_in (map lit ["a)"; "b)"; "c)"; "d)"; "select"; "choose"]) question_lower
  then MULTIPLE_CHOICE
  else if any_in (map lit ["code"; "function"; "algorithm"; "programming";
                           "python"; "javascript"]) question_lower
  then CODING
  else if any_in (map lit ["calculate"; "solve"; "equation"; "formula"; "math"])
                 question_lower
  then MATH
  else if any_in (map lit ["explain"; "describe"; "discuss"; "essay"; "paragraph"])
                 question_lower
  then ESSAY
  else GENERAL.

(** What [_detect_completion_status] reads of an element: its text content
    and its [class] attribute.  Either read returns a string, returns
    [None], or raises. *)
Record Element : Type := Elem {
  text_content : res (option str);
  class_attribute : res (option str)
}.

Definition completed_text : list str :=
  [mark_check; lit "completed"; lit "100%"; lit "passed"; lit "done"].
Definition progress_text : list str :=
  map lit ["in progress"; "started"; "continue"].
Definition retake_text : list str :=
  map lit ["failed"; "retake"; "try again"].
Definition completed_class : list str :=
  map lit ["completed"; "done"; "passed"].
Definition progress_class : list str :=
  map lit ["in-progress"; "started"].

(** [TaskExecutionEngine._detect_completion_status]; the handler of its
    [try] logs a warning and answers [NOT_STARTED]. *)
Definition _detect_completion_status (quiz_element : Element) : TaskStatus :=
  match text_content quiz_element with
  | Exc _ => NOT_STARTED
  | Ret text_content =>
      let text_lower :=
        match text_content with
        | Some (c :: t) => lower (c :: t)
        | _ => []
        end in
      if any_in completed_text text_lower then COMPLETED
      else if any_in progress_text text_lower then IN_PROGRESS
      else if any_in retake_text text_lower then RETAKE_AVAILABLE
      else
        match class_attribute quiz_element with
        | Exc _ => NOT_STARTED
        | Ret class_attr =>
            let class_list :=
              match class_attr with
              | Some (c :: t) => c :: t
              | _ => []
              end in
            if any_in completed_class class_list then COMPLETED
            else if any_in progress_class class_list then IN_PROGRESS
            else NOT_STARTED
        end
  end.

(** The lower-cased text and the class the rules look at: the empty string
    for an element without them. *)
Definition text_lower (quiz_element : Element) : str :=
  match text_content quiz_element with
  | Ret (Some text_content) => lower text_content
  | _ => []
  end.

Definition class_list (quiz_element : Element) : str :=
  match class_attribute quiz_element with
  | Ret (Some class_attr) => class_attr
  | _ => []
  end.

(** *** The task execution engine

    [World] is everything outside the program: the browser, the page it
    shows and the language model behind [solve_question].  The engine owns
    two attributes besides: [browser.current_url] and its execution log.
    Log entries are kept without the time stamp and the pictograph that
    [log] and the messages put in front of them; [asyncio.sleep] changes
    nothing and is left out. *)

Section Engine.
Variable World : Type.
Variable Handle : Type.

Record Browser : Type := {
  page_started : World -> bool;
  goto : str -> World -> World * res unit;
  page_url : World -> str;
  wait_for_selector : str -> nat -> World -> World * res (option Handle);
  click : str -> World -> World * res unit;
  wait_for_load_state : str -> World -> World * res unit;
  handle_text_content : Handle -> World -> World * res (option str);
  handle_fill : Handle -> str -> World -> World * res unit;
  query_selector_all : str -> World -> World * res (list Handle);
  page_title : World -> World * res str;
  keyboard_press : str -> World -> World * res unit;
  (* [QuestionAnsweringAI.solve_question]: it catches what the model
     raises and answers with a string in every case *)
  solve_question : Question -> World -> World * str
}.

Variable B : Browser.

Record St : Type := State {
  world : World;
  current_url : str;
  execution_log : list str;   (* TaskExecutionEngine.execution_log *)
  agent_log : list str        (* UniversalWebAutomationAgent.execution_log *)
}.

Definition M (A : Type) : Type := St -> St * res A.

Definition ret {A : Type} (a : A) : M A := fun s => (s, Ret a).

Definition bind {A C : Type} (c : M A) (f : A -> M C) : M C :=
  fun s =>
    match c s with
    | (s', Ret a) => f a s'
    | (s', Exc t) => (s', Exc t)
    end.

(** [try: c  except Exception as e: h e] *)
Definition catch {A : Type} (c : M A) (h : str -> M A) : M A :=
  fun s =>
    match c s with
    | (s', Exc t) => h t s'
    | r => r
    end.

Definition page {A : Type} (f : World -> World * res A) : M A :=
  fun s =>
    let (w, r) := f (world s) in
    (State w (current_url s) (execution_log s) (agent_log s), r).

Definition log (msg : str) : M unit :=
  fun s =>
    (State (world s) (current_url s) (execution_log s ++ [msg]) (agent_log s),
     Ret tt).

Definition agent_say (msg : str) : M unit :=
  fun s =>
    (State (world s) (current_url s) (execution_log s) (agent_log s ++ [msg]),
     Ret tt).

Notation "x <-- c ;; k" := (bind c (fun x => k))
  (at level 61, c at next level, right associativity).
Notation "c ;;; k" := (bind c (fun _ => k))
  (at level 61, right associativity).

Definition is_some {A : Type} (o : option A) : bool :=
  match o with Some _ => true | None => false end.

Definition nonempty {A : Type} (l : list A) : bool :=
  match l with [] => false | _ => true end.

(** [for selector in selectors: try: ... return True  except: continue]:
    [attempt] answers [true] where the body returns. *)
Fixpoint first_success (attempt : str -> M bool) (selectors : list str) : M bool :=
  match selectors with
  | [] => ret false
  | selector :: rest =>
      done <-- catch (attempt selector) (fun _ => ret false) ;;
      if done then ret true else first_success attempt rest
  end.

(** [SmartBrowserEngine.navigate_to] *)
Definition navigate_to (url : str) : M bool :=
  fun s =>
    if negb (page_started B (world s)) then (s, Ret false)
    else
      match goto B url (world s) with
      | (w, Ret _) =>
          (State w (page_url B w) (execution_log s) (agent_log s), Ret true)
      | (w, Exc _) =>
          (State w (current_url s) (execution_log s) (agent_log s), Ret false)
      end.

(** [_is_quiz_finished] *)
Definition completion_selectors : list str :=
  map lit [".quiz-complete"; ".assessment-complete"; ".finished";
           "[data-testid*='complete']"; ".success-message";
           "text='Quiz Complete'"; "text='Assessment Complete'"].

Definition _is_quiz_finished : M bool :=
  catch
    (found <-- first_success
                 (fun selector =>
                    element <-- page (wait_for_selector B selector 1000) ;;
                    ret (is_some element))
                 completion_selectors ;;
     if found then ret true
     else
       fun s =>
         let current_url := page_url B (world s) in
         (s, Ret (any_in (map lit ["complete"; "finished"; "results"]) current_url)))
    (fun _ => ret false).

(** [_extract_multiple_choice_options]: the list [options] grows while
    the elements are read, and keeps what it has when a read raises. *)
Definition option_selectors : list str :=
  map lit [".option"; ".choice"; ".answer-option"; "[data-testid*='option']";
           "input[type='radio'] + label"; ".multiple-choice-option"].

Fixpoint append_texts (elements : list Handle) (options : list str) (s : St)
  : St * (list str * bool) :=
  match elements with
  | [] => (s, (options, true))
  | element :: rest =>
      match page (handle_text_content B element) s with
      | (s', Ret t) =>
          let options' :=
            match t with
            | Some text =>
                if nonempty (strip text) then options ++ [strip text] else options
            | None => options
            end in
          append_texts rest options' s'
      | (s', Exc _) => (s', (options, false))
      end
  end.

Fixpoint collect_options (selectors : list str) (options : list str) : M (list str) :=
  match selectors with
  | [] => ret options
  | selector :: rest =>
      fun s =>
        match page (query_selector_all B selector) s with
        | (s', Ret elements) =>
            let '(s'', (options', whole)) := append_texts elements options s' in
            if whole && nonempty options' then (s'', Ret options')
            else collect_options rest options' s''
        | (s', Exc _) => collect_options rest options s'
        end
  end.

Definition _extract_multiple_choice_options : M (list str) :=
  catch (collect_options option_selectors [])
        (fun e => log (lit "Option extraction failed: " ++ e) ;;; ret []).

(** [_get_current_question] *)
Definition question_selectors : list str :=
  map lit [".question"; ".quiz-question"; ".assessment-question";
           "[data-testid*='question']"; ".question-text"; "h1, h2, h3"].

Fixpoint find_question_text (selectors : list str) : M (option str) :=
  match selectors with
  | [] => ret None
  | selector :: rest =>
      found <-- catch
        (element <-- page (wait_for_selector B selector 2000) ;;
         match element with
         | Some element =>
             t <-- page (handle_text_content B element) ;;
             match t with
             | Some text =>
                 if nonempty text && Nat.ltb 10 (List.length (strip text))
                 then ret (Some (strip text))
                 else ret None
             | None => ret None
             end
         | None => ret None
         end)
        (fun _ => ret None) ;;
      match found with
      | Some question_text => ret (Some question_text)
      | None => find_question_text rest
      end
  end.

Definition _get_current_question : M (option Question) :=
  catch
    (found <-- find_question_text question_selectors ;;
     match found with
     | None => ret None
     | Some question_text =>
         let question_type := classify_question question_text in
         options <-- match question_type with
                     | MULTIPLE_CHOICE => _extract_multiple_choice_options
                     | _ => ret []
                     end ;;
         page_title <-- page (page_title B) ;;
         ret (Some (Quest question_text question_type options
                          (lit "Page: " ++ page_title) (lit ".question")))
     end)
    (fun e => log (lit "Question extraction failed: " ++ e) ;;; ret None).

(** [_click_submit_button] *)
Definition submit_selectors : list str :=
  map lit ["button:has-text('Submit')"; "button:has-text('Next')";
           "button:has-text('Continue')"; ".submit-btn"; ".next-btn";
           "[data-testid*='submit']"; "[data-testid*='next']"].

Definition _click_submit_button : M bool :=
  catch
    (clicked <-- first_success
                   (fun selector =>
                      page (click B selector) ;;;
                      page (wait_for_load_state B (lit "networkidle")) ;;;
                      log (lit "Clicked submit button") ;;;
                      ret true)
                   submit_selectors ;;
     if clicked then ret true
     else
       page (keyboard_press B (lit "Enter")) ;;;
       log (lit "Pressed Enter to submit") ;;;
       ret true)
    (fun e => log (lit "Submit button click failed: " ++ e) ;;; ret false).

(** [_submit_multiple_choice_answer] *)
Definition answer_selectors (answer : str) : list str :=
  [ lit "text='" ++ answer ++ lit "'";
    lit "label:has-text('" ++ answer ++ lit "')";
    lit "input[value='" ++ answer ++ lit "'] + label";
    lit ".option:has-text('" ++ answer ++ lit "')" ].

Definition _submit_multiple_choice_answer (answer : str) : M bool :=
  catch
    (done <-- first_success
                (fun selector =>
                   page (click B selector) ;;;
                   log (lit "Selected option: " ++ answer) ;;;
                   _click_submit_button ;;;
                   ret true)
                (answer_selectors answer) ;;
     if done then ret true
     else log (lit "Could not find option: " ++ answer) ;;; ret false)
    (fun e => log (lit "Multiple choice submission failed: " ++ e) ;;; ret false).

(** [_submit_text_answer] *)
Definition input_selectors : list str :=
  map lit ["textarea"; "input[type='text']"; ".answer-input";
           "[data-testid*='answer']"; ".text-input"].

Definition _submit_text_answer (answer : str) : M bool :=
  catch
    (done <-- first_success
                (fun selector =>
                   element <-- page (wait_for_selector B selector 2000) ;;
                   match element with
                   | Some element =>
                       page (handle_fill B element answer) ;;;
                       log (lit "Entered answer: " ++ firstn 50 answer ++ lit "...") ;;;
                       _click_submit_button ;;;
                       ret true
                   | None => ret false
                   end)
                input_selectors ;;
     if done then ret true
     else log (lit "Could not find answer input field") ;;; ret false)
    (fun e => log (lit "Text answer submission failed: " ++ e) ;;; ret false).

(** [_submit_answer] *)
Definition _submit_answer (answer : str) (question : Question) : M bool :=
  catch
    (match question_type question with
     | MULTIPLE_CHOICE => _submit_multiple_choice_answer answer
     | _ => _submit_text_answer answer
     end)
    (fun e => log (lit "Answer submission failed: " ++ e) ;;; ret false).

(** [complete_quiz] *)
Definition max_questions : nat := 50.

(** How the [while] loop was left. *)
Inductive loop_exit : Type :=
| Finished        (* return True: the quiz is finished *)
| NoQuestion      (* break: no question found *)
| SubmitFailed    (* return False: the answer was not submitted *)
| LimitReached    (* the condition question_count < max_questions failed *)
| OutOfFuel.      (* the recursion of the model was cut *)

(** The loop with its counter [question_count]; [iterations] counts the
    times the body was entered, and [fuel] bounds the recursion. *)
Fixpoint question_loop (fuel : nat) (quiz : QuizItem)
                       (question_count iterations : nat)
  : M (loop_exit * nat * nat) :=
  match fuel with
  | O => ret (OutOfFuel, question_count, iterations)
  | S fuel' =>
      if Nat.ltb question_count max_questions
      then
        let iterations := S iterations in
        finished <-- _is_quiz_finished ;;
        if finished
        then
          log (lit "Quiz completed: " ++ title quiz) ;;;
          ret (Finished, question_count, iterations)
        else
          question <-- _get_current_question ;;
          match question with
          | None =>
              log (lit "No question found, quiz may be complete") ;;;
              ret (NoQuestion, question_count, iterations)
          | Some question =>
              log (lit "Processing question " ++ str_of_nat (question_count + 1)
                   ++ lit ": " ++ firstn 50 (text question) ++ lit "...") ;;;
              answer <-- page (fun w => let (w', a) := solve_question B question w in
                                        (w', Ret a)) ;;
              success <-- _submit_answer answer question ;;
              if negb success
              then
                log (lit "Failed to submit answer for question "
                     ++ str_of_nat (question_count + 1)) ;;;
                ret (SubmitFailed, question_count, iterations)
              else question_loop fuel' quiz (question_count + 1) iterations
          end
      else ret (LimitReached, question_count, iterations)
  end.

Definition start_line (quiz : QuizItem) : str := lit "Starting quiz: " ++ title quiz.

(** The steps of [complete_quiz] before the loop: the quiz is announced,
    opened when the browser is elsewhere, and started when it has a start
    button. *)
Definition open_and_start (quiz : QuizItem) : M unit :=
  (fun s => if eqs (url quiz) (current_url s) then (s, Ret false)
            else navigate_to (url quiz) s) ;;;
  match start_button_selector quiz with
  | Some (c :: sel) =>
      catch (page (click B (c :: sel)) ;;;
             page (wait_for_load_state B (lit "networkidle")))
            (fun e => log (lit "Could not click start button: " ++ e))
  | _ => ret tt
  end.

Definition before_questions (quiz : QuizItem) : M unit :=
  log (start_line quiz) ;;; open_and_start quiz.

(** What [complete_quiz] returns for each way out of the loop. *)
Definition after_questions (quiz : QuizItem) (r : loop_exit * nat * nat) : M bool :=
  match r with
  | (Finished, _, _) => ret true
  | (SubmitFailed, _, _) => ret false
  | (_, question_count, _) =>
      log (lit "Completed quiz: " ++ title quiz ++ lit " ("
           ++ str_of_nat question_count ++ lit " questions)") ;;;
      ret true
  end.

Definition complete_quiz (quiz : QuizItem) : M bool :=
  catch
    (before_questions quiz ;;;
     r <-- question_loop (S max_questions) quiz 0 0 ;;
     after_questions quiz r)
    (fun e => log (lit "Quiz completion failed: " ++ e) ;;; ret false).

(** *** The batch of [complete_turing_quizzes]

    Steps 6 and 7 of [UniversalWebAutomationAgent.complete_turing_quizzes]:
    from the list of quizzes the scan returned to the result string. *)
Definition is_incomplete (quiz : QuizItem) : bool :=
  match status quiz with
  | NOT_STARTED | IN_PROGRESS | RETAKE_AVAILABLE => true
  | _ => false
  end.

Fixpoint complete_each (quizzes : list QuizItem) (completed_count : nat) : M nat :=
  match quizzes with
  | [] => ret completed_count
  | quiz :: rest =>
      done <-- complete_quiz quiz ;;
      if done then complete_each rest (completed_count + 1)
      else
        agent_say (lit "Failed to complete: " ++ title quiz) ;;;
        complete_each rest completed_count
  end.

Definition result_line (completed_count attempted : nat) : str :=
  mark_ok ++ lit " Successfully completed " ++ str_of_nat completed_count
  ++ lit " out of " ++ str_of_nat attempted ++ lit " quizzes".

Definition complete_scanned_quizzes (all_quizzes : list QuizItem) : M str :=
  catch
    (let incomplete_quizzes := filter is_incomplete all_quizzes in
     agent_say (lit "Found " ++ str_of_nat (List.length incomplete_quizzes)
                ++ lit " incomplete quizzes to complete") ;;;
     match incomplete_quizzes with
     | [] => ret (mark_ok ++ lit " All quizzes are already completed!")
     | _ =>
         completed_count <-- complete_each incomplete_quizzes 0 ;;
         let result := result_line completed_count (List.length incomplete_quizzes) in
         agent_say result ;;;
         ret result
     end)
    (fun e =>
       let error_msg := mark_fail ++ lit " Automation failed: " ++ e in
       agent_say error_msg ;;; ret error_msg).

End Engine.

End Agent.

Import Agent.

(** ** A small site to run the engine on

    The page at [/endless] always shows a question and takes every answer;
    the page at [/short] shows two questions; the page at [/stuck] shows a
    question and has no field for the answer.  No page ever shows a mark of
    completion, and no page has a button: an answer is sent with Enter. *)

Module Site.

Record world : Type := World { here : str; answered : nat }.

Definition timeout {A : Type} (w : world) : world * res A :=
  (w, Exc (lit "Timeout 2000ms exceeded")).

Definition questions_at (w : world) : bool :=
  if eqs (here w) (lit "/endless") then true
  else if eqs (here w) (lit "/short") then Nat.ltb (answered w) 2
  else eqs (here w) (lit "/stuck").

Definition browser : Browser world unit := {|
  page_started := fun _ => true;
  goto := fun url _ => (World url 0, Ret tt);
  page_url := fun w => here w;
  wait_for_selector := fun selector _ w =>
    if eqs selector (lit ".question")
    then if questions_at w then (w, Ret (Some tt)) else timeout w
    else if eqs selector (lit "textarea")
    then if eqs (here w) (lit "/stuck") then timeout w else (w, Ret (Some tt))
    else timeout w;
  click := fun _ w => timeout w;
  wait_for_load_state := fun _ w => (w, Ret tt);
  handle_text_content := fun _ w => (w, Ret (Some (lit "Name the largest planet.")));
  handle_fill := fun _ _ w => (w, Ret tt);
  query_selector_all := fun _ w => (w, Ret []);
  page_title := fun w => (w, Ret (lit "Quiz"));
  keyboard_press := fun _ w => (World (here w) (S (answered w)), Ret tt);
  solve_question := fun _ w => (w, lit "Jupiter")
|}.

Definition quiz_at (name path : string) : QuizItem :=
  Quiz (lit name) (lit path) NOT_STARTED None None.

Definition start : St world := State (World (lit "/") 0) (lit "/") [] [].

(** The engine with the page at [path] open. *)
Definition opened (path : string) : St world :=
  State (World (lit path) 0) (lit path) [] [].

End Site.

(** Handlers for a page without state: navigation is refused with an
    exception, every other handler reports success. *)
Module Stub.

Definition fine : Executor.handler unit :=
  fun _ pg => (pg, Ret (Executor.Outcome true (lit "done") None [])).

Definition refuse : Executor.handler unit :=
  fun _ pg => (pg, Exc (lit "net::ERR_NAME_NOT_RESOLVED")).

Definition handlers : Executor.handlers unit :=
  Executor.Handlers refuse fine fine fine fine fine fine fine fine fine fine.

End Stub.

(** The target of the action [_create_action] builds for a navigation
    pattern that matched with [token] as its group. *)
Definition navigate_target (token command : str) : option str :=
  match _create_action NAVIGATE [Some token] command with
  | Ok a => target a
  | Raise _ => None
  end.

(** What the logs show of a batch: the line [complete_quiz] opens with,
    and the line the agent writes for a quiz that failed. *)
Definition is_start_line (entry : str) : bool :=
  startswith entry (lit "Starting quiz: ").

Definition starts (entries : list str) : list str := filter is_start_line entries.

Definition fail_line (quiz : QuizItem) : str :=
  lit "Failed to complete: " ++ title quiz.

Definition found_line (n : nat) : str :=
  lit "Found " ++ str_of_nat n ++ lit " incomplete quizzes to complete".

(** The attempts of a batch.  [attempts B s quizzes results s']: from the
    state [s], [complete_quiz] is run on every quiz of the list in turn, each
    from the state the one before left, and [results] holds what it
    answered for each; after a quiz that failed the agent writes its line.
    The batch ends in the state [s']. *)
Section Attempts.
Variable World : Type.
Variable Handle : Type.
Variable B : Browser World Handle.

Inductive attempts : St World -> list QuizItem -> list bool -> St World -> Prop :=
| attempts_none : forall s, attempts s [] [] s
| attempts_completed : forall s quiz s1 rest results s',
    complete_quiz B quiz s = (s1, Ret true) ->
    attempts s1 rest results s' ->
    attempts s (quiz :: rest) (true :: results) s'
| attempts_failed : forall s quiz s1 rest results s',
    complete_quiz B quiz s = (s1, Ret false) ->
    attempts (fst (agent_say (fail_line quiz) s1)) rest results s' ->
    attempts s (quiz :: rest) (false :: results) s'.

End Attempts.

(** How many of the attempts [complete_quiz] answered with [True], and the
    quizzes of the others. *)
Definition completed_of (results : list bool) : nat :=
  List.length (filter (fun done => done) results).

Definition failed_of (quizzes : list QuizItem) (results : list bool) : list QuizItem :=
  map fst (filter (fun attempt => negb (snd attempt)) (combine quizzes results)).

(** [frame s s']: from [s] to [s'] no quiz was announced and the agent
    wrote nothing. *)
Definition frame {World : Type} (s s' : St World) : Prop :=
  starts (execution_log s') = starts (execution_log s)
  /\ agent_log s' = agent_log s.

Definition quiet {World A : Type} (c : M World A) : Prop :=
  forall s, frame s (fst (c s)).

(** A computation that returns, in every state. *)
Definition total {World A : Type} (c : M World A) : Prop :=
  forall s, exists s' a, c s = (s', Ret a).

(** An early way out of the question loop: one taken inside the body. *)
Definition early (e : loop_exit) : bool :=
  match e with
  | Finished | NoQuestion | SubmitFailed => true
  | LimitReached | OutOfFuel => false
  end.

(** The code points of a progression, and of a table. *)
Fixpoint points (lo step : N) (n : nat) : list N :=
  match n with
  | O => []
  | S n' => lo :: points (lo + step)%N step n'
  end.

Definition points_of (lo hi step : N) : list N :=
  points lo step (S (N.to_nat ((hi - lo) / step))).

Definition set_points (e : N * N * N) : list N :=
  let '(lo, hi, step) := e in points_of lo hi step.

Definition map_points (e : N * N * N * N) : list (N * N) :=
  let '(lo, hi, step, to) := e in
  map (fun c => (c, (to + (c - lo))%N)) (points_of lo hi step).

(** A character that goes to one character when a string is lower-cased,
    wherever it stands: every one but the capital sigma and U+0130. *)
Definition one_to_one (c : char) : bool := negb (eqc c 931%N) && negb (eqc c 304%N).

(** A property of every character of a string that may be absent. *)
Definition every (P : char -> Prop) (o : option str) : Prop :=
  match o with
  | Some s => Forall P s
  | None => True
  end.

(** Strings without a capital letter: no character [str.isupper] accepts. *)
Definition not_upper (c : char) : Prop := isupper_char c = false.

Definition no_capitals (a : AutomationAction) : Prop :=
  every not_upper (target a) /\ every not_upper (value a).






(** ** More of the parser: suggestions

    [NaturalLanguageProcessor.get_action_suggestions], which the executor
    calls for a command it could not interpret. *)

Module Suggest.

Definition starters : list str :=
  map lit [ "go to"; "click on"; "type"; "search for"; "login to";
            "take screenshot"; "scroll down"; "wait for"; "fill form";
            "download"; "upload file"; "extract"; "find" ].

Definition get_action_suggestions (partial_command : str) : list str :=
  let partial := strip (lower partial_command) in
  firstn 10
    (filter (fun starter => startswith starter partial || contains partial starter)
            starters).

End Suggest.

Import Suggest.

(** ** More of the executor: one command, and waiting

    [NaturalLanguageExecutor.execute_command] runs the actions of a command
    through [_execute_action] and keeps a log entry for each one it ran (the
    time stamp of an entry is left out).  [str_of_exn] is [str(e)] for an
    exception of the parser. *)

Module Command.

(** An entry of [execution_log]. *)
Record entry : Type := Entry {
  entry_command : str;
  entry_action : AutomationAction;
  entry_result : Executor.outcome
}.

(** The dictionary [execute_command] returns; a key that is not set is
    [None]. *)
Record report : Type := Report {
  success : bool;
  message : str;
  suggestions : option (list str);
  actions_executed : option nat;
  results : option (list Executor.outcome);
  error : option str
}.

Section Run.
Variable Page : Type.
Variable h : Executor.handlers Page.
Variable str_of_exn : exn -> str.

(** The executor: its page and its log. *)
Record executor : Type := NLExecutor {
  page_of : Page;
  execution_log : list entry
}.

(** The loop over the actions: it is left at the first result that is not
    a success. *)
Fixpoint run_actions (command : str) (actions : list AutomationAction)
                     (results : list Executor.outcome) (x : executor)
  : executor * res (list Executor.outcome) :=
  match actions with
  | [] => (x, Ret results)
  | action :: rest =>
      match Executor._execute_action h action (page_of x) with
      | (pg, Ret result) =>
          let results := results ++ [result] in
          let x := NLExecutor pg (execution_log x ++ [Entry command action result]) in
          if negb (Executor.success result) then (x, Ret results)
          else run_actions command rest results x
      | (pg, Exc text) => (NLExecutor pg (execution_log x), Exc text)
      end
  end.

Definition not_understood (command : str) : report :=
  Report false (lit "Could not understand the command. Please try rephrasing.")
         (Some (get_action_suggestions command)) None None None.

Definition combined (results : list Executor.outcome) : report :=
  let success := forallb Executor.success results in
  let messages :=
    filter (fun msg => match msg with [] => false | _ => true end)
           (map Executor.message results) in
  Report success
         match messages with
         | [] => lit "Command executed successfully"
         | _ => join (lit " | ") messages
         end
         None (Some (List.length results)) (Some results) None.

Definition raised (text : str) : report :=
  Report false (lit "Error executing command: " ++ text) None None None (Some text).

Definition execute_command (command : str) (x : executor) : executor * report :=
  match process_command command with
  | Raise e => (x, raised (str_of_exn e))
  | Ok [] => (x, not_understood command)
  | Ok actions =>
      match run_actions command actions [] x with
      | (x', Ret results) => (x', combined results)
      | (x', Exc text) => (x', raised text)
      end
  end.

End Run.

Section Wait.
Variable Page : Type.
(** [asyncio.sleep] and [page.wait_for_selector]; a sleep can raise too
    ([OverflowError] for a number of seconds beyond the floating-point
    numbers). *)
Variable sleep : N -> Page -> Page * res unit.
Variable wait_for_selector : str -> N -> Page -> Page * res unit.

Definition waited (what : str) : Executor.outcome :=
  Executor.Outcome true (lit "Waited for " ++ what) None [].

(** [_execute_wait]; where [int] raises, the text of the [ValueError] names
    the value, which holds digits only. *)
Definition _execute_wait : Executor.handler Page :=
  fun action pg =>
    let slept (r : Page * res unit) (what : str) : Page * res Executor.outcome :=
      match r with
      | (pg', Ret _) => (pg', Ret (waited what))
      | (pg', Exc e) => (pg', Exc e)
      end in
    let otherwise :=
      match target action with
      | Some (c :: t) =>
          match wait_for_selector (c :: t) 10000%N pg with
          | (pg', Ret _) => (pg', Ret (waited (c :: t)))
          | (pg', Exc _) =>
              (pg', Ret (Executor.Outcome false (lit "Timeout waiting for " ++ c :: t)
                                          None []))
          end
      | _ => slept (sleep 2 pg) (lit "2 seconds")
      end in
    match value action with
    | Some (c :: v) =>
        if isdigit (c :: v)
        then
          match int (c :: v) with
          | Some seconds =>
              slept (sleep seconds pg) (str_of_N seconds ++ lit " seconds")
          | None =>
              (pg, Exc (lit "invalid literal for int() with base 10: '"
                        ++ c :: v ++ lit "'"))
          end
        else otherwise
    | _ => otherwise
    end.

End Wait.

Section Scroll.
Variable Page : Type.
Variable Handle : Type.
(** [page.keyboard.press], [_find_element] and
    [element.scroll_into_view_if_needed]. *)
Variable keyboard_press : str -> Page -> Page * res unit.
Variable _find_element : str -> Page -> Page * res (option Handle).
Variable scroll_into_view_if_needed : Handle -> Page -> Page * res unit.

Definition scrolled (target : str) : Executor.outcome :=
  Executor.Outcome true (lit "Scrolled " ++ target) None [].

(** [_execute_scroll] *)
Definition _execute_scroll : Executor.handler Page :=
  fun action pg =>
    let target :=
      match target action with
      | Some (c :: t) => c :: t
      | _ => lit "down"
      end in
    let done (r : Page * res unit) : Page * res Executor.outcome :=
      match r with
      | (pg', Ret _) => (pg', Ret (scrolled target))
      | (pg', Exc e) => (pg', Exc e)
      end in
    if contains (lit "down") (lower target)
    then done (keyboard_press (lit "PageDown") pg)
    else if contains (lit "up") (lower target)
    then done (keyboard_press (lit "PageUp") pg)
    else if contains (lit "top") (lower target)
    then done (keyboard_press (lit "Home") pg)
    else if contains (lit "bottom") (lower target)
    then done (keyboard_press (lit "End") pg)
    else
      match _find_element target pg with
      | (pg', Ret (Some element)) => done (scroll_into_view_if_needed element pg')
      | (pg', Ret None) => (pg', Ret (scrolled target))
      | (pg', Exc e) => (pg', Exc e)
      end.

End Scroll.

End Command.

(** ** More of the agent: scanning the page and finding a section

    [TaskExecutionEngine.get_all_quiz_items] and [find_navigation_item],
    and the agent's [_find_relevant_section].  What the scan reads of one
    element is taken as the page shows it while the scan runs: the results
    of the two [query_selector] calls on the element, with the text of the
    title and the [href] of the button behind them, and what
    [_detect_completion_status] reads. *)

Module Scan.

Record Card : Type := {
  title_element : res (option (res (option str)));  (* then [text_content()] *)
  start_button : res (option (res (option str)));   (* then [get_attribute("href")] *)
  shown : Element
}.

Definition quiz_selectors : list str :=
  map lit [ ".quiz-item"; ".assessment-item"; ".test-item";
            ".skill-test"; ".challenge-item"; "[data-testid*='quiz']";
            ".card"; ".list-item"; ".assessment-card" ].

(** [f"{selector} button, {selector} a"] *)
Definition start_selector_of (selector : str) : str :=
  selector ++ lit " button, " ++ selector ++ lit " a".

(** The line [_detect_completion_status] logs where a read raised (it
    then answers [NOT_STARTED]). *)
Definition status_warning (quiz_element : Element) : list str :=
  match text_content quiz_element with
  | Exc e => [lit "Status detection failed: " ++ e]
  | Ret text_content =>
      let text_lower :=
        match text_content with
        | Some (c :: t) => lower (c :: t)
        | _ => []
        end in
      if any_in completed_text text_lower || any_in progress_text text_lower
         || any_in retake_text text_lower
      then []
      else
        match class_attribute quiz_element with
        | Exc e => [lit "Status detection failed: " ++ e]
        | Ret _ => []
        end
  end.

(** The body of the loop over the elements: the lines it logs, and the item
    built of the element or the exception that ends the work on the
    selector. *)
Definition scan_element (selector current_url : str) (element : Card)
  : list str * res QuizItem :=
  match title_element element with
  | Exc e => ([], Exc e)
  | Ret title_element =>
  match (match title_element with
         | Some text_content => text_content
         | None => Ret (Some (lit "Unknown Quiz"))
         end) with
  | Exc e => ([], Exc e)
  | Ret title =>
  match start_button element with
  | Exc e => ([], Exc e)
  | Ret start_button =>
      let start_selector :=
        match start_button with
        | Some _ => Some (start_selector_of selector)
        | None => None
        end in
      let status := _detect_completion_status (shown element) in
      let warnings := status_warning (shown element) in
      match (match start_button with
             | Some href => href
             | None => Ret (Some current_url)
             end) with
      | Exc e => (warnings, Exc e)
      | Ret url =>
          match title with
          | Some title =>
              (warnings,
               Ret (Quiz (strip title)
                         match url with
                         | Some (c :: u) => c :: u
                         | _ => current_url
                         end
                         status start_selector None))
          | None => (warnings, Exc (lit "'NoneType' object has no attribute 'strip'"))
          end
      end
  end end end.

(** The loop over the elements of one selector, with the lines logged and
    the list [quizzes] as it grows. *)
Fixpoint scan_elements (selector current_url : str) (elements : list Card)
                       (logged : list str) (quizzes : list QuizItem)
  : list str * list QuizItem :=
  match elements with
  | [] => (logged, quizzes)
  | element :: rest =>
      match scan_element selector current_url element with
      | (warnings, Ret quiz) =>
          scan_elements selector current_url rest (logged ++ warnings) (quizzes ++ [quiz])
      | (warnings, Exc _) => (logged ++ warnings, quizzes)
      end
  end.

(** [task.status != TaskStatus.COMPLETED], the test of
    [complete_tasks_on_any_site]. *)
Definition not_completed (task : QuizItem) : bool :=
  match status task with
  | COMPLETED => false
  | _ => true
  end.

Section Scanner.
Variable World : Type.
Variable Handle : Type.
Variable B : Browser World Handle.
Variable read : Handle -> Card.

Notation "x <-- c ;; k" := (bind c (fun x => k))
  (at level 61, c at next level, right associativity).
Notation "c ;;; k" := (bind c (fun _ => k))
  (at level 61, right associativity).

Fixpoint scan_selectors (selectors : list str) (quizzes : list QuizItem)
  : M World (list QuizItem) :=
  match selectors with
  | [] => ret quizzes
  | selector :: rest =>
      fun s =>
        match page (query_selector_all B selector) s with
        | (s', Ret elements) =>
            let (logged, quizzes) :=
              scan_elements selector (current_url s') (map read elements) [] quizzes in
            scan_selectors rest quizzes
              (State (world s') (current_url s') (execution_log s' ++ logged)
                     (agent_log s'))
        | (s', Exc _) => scan_selectors rest quizzes s'
        end
  end.

Definition get_all_quiz_items : M World (list QuizItem) :=
  catch
    (log (lit "Scanning for quiz items...") ;;;
     quizzes <-- scan_selectors quiz_selectors [] ;;
     log (lit "Found " ++ str_of_nat (List.length quizzes) ++ lit " quiz items") ;;;
     ret quizzes)
    (fun e => log (lit "Quiz scanning failed: " ++ e) ;;; ret []).

(** [find_navigation_item] *)
Definition navigation_selectors (name : str) : list str :=
  [ lit "a:has-text('" ++ name ++ lit "')";
    lit "button:has-text('" ++ name ++ lit "')";
    lit "[role='menuitem']:has-text('" ++ name ++ lit "')";
    lit "nav a:has-text('" ++ name ++ lit "')";
    lit ".nav-item:has-text('" ++ name ++ lit "')";
    lit ".menu-item:has-text('" ++ name ++ lit "')" ].

Fixpoint first_shown (name : str) (selectors : list str) : M World (option str) :=
  match selectors with
  | [] => ret None
  | selector :: rest =>
      found <-- catch
        (element <-- page (wait_for_selector B selector 2000) ;;
         match element with
         | Some _ =>
             log (lit "Found navigation item: " ++ name) ;;;
             ret (Some selector)
         | None => ret None
         end)
        (fun _ => ret None) ;;
      match found with
      | Some selector => ret (Some selector)
      | None => first_shown name rest
      end
  end.

Fixpoint first_named (possible_names : list str) : M World (option str) :=
  match possible_names with
  | [] => log (lit "No navigation items found") ;;; ret None
  | name :: rest =>
      found <-- first_shown name (navigation_selectors name) ;;
      match found with
      | Some selector => ret (Some selector)
      | None => first_named rest
      end
  end.

Definition find_navigation_item (possible_names : list str) : M World (option str) :=
  catch (first_named possible_names)
        (fun e => log (lit "Navigation search failed: " ++ e) ;;; ret None).

(** [_find_relevant_section] *)
Definition section_mappings : list (str * list str) :=
  [ (lit "quiz", map lit ["Skills"; "Assessments"; "Tests"; "Quizzes"]);
    (lit "test", map lit ["Skills"; "Assessments"; "Tests"; "Quizzes"]);
    (lit "course", map lit ["Courses"; "Learning"; "Training"]);
    (lit "job", map lit ["Jobs"; "Opportunities"; "Positions"]);
    (lit "profile", map lit ["Profile"; "Account"; "Settings"]) ].

(** [section_mappings[keyword]] where [keyword in section_mappings]. *)
Definition mapped (keyword : str) : option (list str) :=
  match find (fun entry => eqs keyword (fst entry)) section_mappings with
  | Some entry => Some (snd entry)
  | None => None
  end.

Fixpoint first_section (keywords : list str) : M World (option str) :=
  match keywords with
  | [] => ret None
  | keyword :: rest =>
      match mapped keyword with
      | Some section_names =>
          section <-- find_navigation_item section_names ;;
          match section with
          | Some (c :: sel) => ret (Some (c :: sel))
          | _ => first_section rest
          end
      | None => first_section rest
      end
  end.

Definition _find_relevant_section (task_description : str) : M World (option str) :=
  catch (first_section (split_ws (lower task_description)))
        (fun e => agent_say (lit "Section finding failed: " ++ e) ;;; ret None).

(** [complete_tasks_on_any_site] from its fifth step on: the tasks on the
    page are found, and the ones that are not completed are worked through
    with [complete_quiz]. *)
Definition _analyze_available_tasks (task_description : str) : M World (list QuizItem) :=
  catch get_all_quiz_items
        (fun e => agent_say (lit "Task analysis failed: " ++ e) ;;; ret []).

Fixpoint complete_tasks (tasks : list QuizItem) (completed_count : nat) : M World nat :=
  match tasks with
  | [] => ret completed_count
  | task :: rest =>
      done <-- complete_quiz B task ;;
      complete_tasks rest (if done then completed_count + 1 else completed_count)
  end.

Definition tasks_line (completed_count attempted : nat) (site_url : str) : str :=
  mark_ok ++ lit " Completed " ++ str_of_nat completed_count
  ++ lit " out of " ++ str_of_nat attempted ++ lit " tasks on " ++ site_url.

Definition complete_found_tasks (site_url task_description : str) : M World str :=
  catch
    (tasks <-- _analyze_available_tasks task_description ;;
     let incomplete_tasks := filter not_completed tasks in
     agent_say (lit "Found " ++ str_of_nat (List.length incomplete_tasks)
                ++ lit " tasks to complete") ;;;
     completed_count <-- complete_tasks incomplete_tasks 0 ;;
     let result := tasks_line completed_count (List.length incomplete_tasks) site_url in
     agent_say result ;;;
     ret result)
    (fun e =>
       let error_msg := mark_fail ++ lit " Universal automation failed: " ++ e in
       agent_say error_msg ;;; ret error_msg).

End Scanner.

End Scan.

Import Scan.

(** Strings that hold none of the superscript digits U+00B2, U+00B3 and
    U+00B9, the characters [str.isdigit] accepts and [int] refuses. *)
Definition no_superscript (c : char) : Prop :=
  isdigit_char c = true -> isdecimal c = true.

(** What an action of the parser carries, by its type. *)
Definition is_set {A : Type} (o : option A) : Prop := o <> None.

Definition well_formed (a : AutomationAction) : Prop :=
  is_set (description a)
  /\ parameters a = None
  /\ match action_type a with
     | NAVIGATE | CLICK => is_set (target a) /\ value a = None
     | TYPE | CUSTOM => is_set (target a) /\ is_set (value a)
     | LOGIN => is_set (target a)
     | WAIT =>
         (target a = None /\ exists n, value a = Some (str_of_N n))
         \/ (is_set (target a) /\ value a = None)
     | SEARCH =>
         (target a = None /\ is_set (value a))
         \/ (is_set (target a) /\ value a = None)
     | _ => value a = None
     end.

(** A pattern in every match of which group [n] takes part. *)
Fixpoint sets (n : nat) (r : regex) : bool :=
  match r with
  | Cat r1 r2 => sets n r1 || sets n r2
  | Alt r1 r2 => sets n r1 && sets n r2
  | Grp k r1 => Nat.eqb k n || sets n r1
  | _ => false
  end.

(** The groups [_create_action] reads without a test, by action type. *)
Definition needed (t : ActionType) : list nat :=
  match t with
  | NAVIGATE | CLICK | WAIT | SEARCH => [1]
  | TYPE => [1; 2]
  | _ => []
  end.

Definition all_set (ns : list nat) (ps : list regex) : bool :=
  forallb (fun p => forallb (fun n => sets n p) ns) ps.

Definition covered (tps : list (ActionType * list regex)) : bool :=
  forallb (fun tp => all_set (needed (fst tp)) (snd tp)) tps.

(** Group [n] was set. *)
Definition has (g : list (option str)) (n : nat) : Prop :=
  exists t, nth_error g (Nat.pred n) = Some (Some t).

(** Every group set in [g] is set in [g']. *)
Definition grows (g g' : caps) : Prop :=
  forall n, group_span n g <> None -> group_span n g' <> None.

(** A page on which an option can be clicked and an answer cannot be sent:
    a click on a selector by text succeeds, every other click and the Enter
    key raise. *)
Module NoSubmit.

Definition browser : Browser Site.world unit := {|
  page_started := page_started Site.browser;
  goto := goto Site.browser;
  page_url := page_url Site.browser;
  wait_for_selector := wait_for_selector Site.browser;
  click := fun selector w =>
    if startswith selector (lit "text=") then (w, Ret tt) else Site.timeout w;
  wait_for_load_state := wait_for_load_state Site.browser;
  handle_text_content := handle_text_content Site.browser;
  handle_fill := handle_fill Site.browser;
  query_selector_all := query_selector_all Site.browser;
  page_title := page_title Site.browser;
  keyboard_press := fun _ w => Site.timeout w;
  solve_question := solve_question Site.browser
|}.

End NoSubmit.

(** A site whose every address holds the word "results". *)
Module Results.

Definition browser : Browser Site.world unit := {|
  page_started := page_started Site.browser;
  goto := goto Site.browser;
  page_url := fun _ => lit "https://quiz.example/results-driven-teams";
  wait_for_selector := wait_for_selector Site.browser;
  click := click Site.browser;
  wait_for_load_state := wait_for_load_state Site.browser;
  handle_text_content := handle_text_content Site.browser;
  handle_fill := handle_fill Site.browser;
  query_selector_all := query_selector_all Site.browser;
  page_title := page_title Site.browser;
  keyboard_press := keyboard_press Site.browser;
  solve_question := solve_question Site.browser
|}.

End Results.

(** * Properties *)

Unset Implicit Arguments.

(** ** The parser *)

(** C1, as stated: [parse("go to google.com")] would be one Navigate action
    with target [https://www.google.com].  The parser does not return it. *)
Lemma go_to_google_is_not_www :
  ~ (exists a, process_command (lit "go to google.com") = Ok [a]
               /\ action_type a = NAVIGATE
               /\ target a = Some (lit "https://www.google.com")).
Proof.
  intros (a & Hrun & _ & Htarget).
  vm_compute in Hrun.
  injection Hrun as <-.
  vm_compute in Htarget.
  discriminate Htarget.
Qed.

(** C1, amended: [parse("go to google.com")] is exactly one Navigate action
    with target [https://google.com].  A token with a scheme, or one that
    starts with [www.], is kept; otherwise a token with a dot gets
    [https://] in front, and a token without a dot gets [https://www.]. *)
Theorem navigate_target_rule :
  forall (token command url : str),
    strip token = url ->
    process_command (lit "go to google.com")
      = Ok [action NAVIGATE (Some (lit "https://google.com")) None
                   (Some (lit "Navigate to https://google.com"))]
    /\ (startswith url (lit "http://") || startswith url (lit "https://") = true ->
        navigate_target token command = Some url)
    /\ (startswith url (lit "www.") = true ->
        navigate_target token command = Some url)
    /\ (startswith url (lit "http://") || startswith url (lit "https://") = false ->
        startswith url (lit "www.") = false ->
        contains (lit ".") url = true ->
        navigate_target token command = Some (lit "https://" ++ url))
    /\ (startswith url (lit "http://") || startswith url (lit "https://") = false ->
        startswith url (lit "www.") = false ->
        contains (lit ".") url = false ->
        navigate_target token command = Some (lit "https://www." ++ url)).
Proof.
  intros token command url Hurl.
  split; [vm_compute; reflexivity|].
  unfold navigate_target, _create_action, stripped, item, the_str.
  cbn [nth_error rbind]. rewrite Hurl.
  repeat split.
  - intros ->. reflexivity.
  - intros Hwww. rewrite Hwww.
    destruct (startswith url (lit "http://") || startswith url (lit "https://"));
      cbn; rewrite ?andb_false_r; reflexivity.
  - intros -> -> ->. reflexivity.
  - intros -> -> ->. reflexivity.
Qed.

Lemma navigate_target_rule_witness :
  navigate_target (lit "google") (lit "go to google") = Some (lit "https://www.google")
  /\ navigate_target (lit "docs.python.org") (lit "open docs.python.org")
     = Some (lit "https://docs.python.org").
Proof.
  split.
  - apply (navigate_target_rule (lit "google") (lit "go to google") _ eq_refl); reflexivity.
  - apply (navigate_target_rule (lit "docs.python.org") (lit "open docs.python.org")
                  _ eq_refl);
      reflexivity.
Defined.

(** C6: [process_command] is to return a sequence of actions for every
    input and never raise.  The command "wait for" followed by a superscript
    two (U+00B2) makes it raise: the third wait pattern captures the
    character, [isdigit] accepts it, and [int] does not.  A command from
    which nothing is inferred gives the empty sequence. *)
Theorem process_command_raises_on_superscript :
  isdigit [178%N] = true
  /\ int [178%N] = None
  /\ process_command (lit "wait for " ++ [178%N]) = Raise ValueError
  /\ process_command (lit "ok") = Ok [].
Proof. repeat split; vm_compute; reflexivity. Qed.

(** ** The executor *)

(** C7: for every action, [_execute_action] returns an outcome and does not
    raise: what a handler raises becomes an outcome with [success = false],
    and an action of a type outside the dispatched ones, DOWNLOAD or UPLOAD,
    gets [success = false] and a message that says "not implemented".  The
    parser produces both types. *)
Theorem execute_action_returns_outcome :
  forall (Page : Type) (h : Executor.handlers Page) (a : AutomationAction) (pg : Page),
    (exists pg' o, Executor._execute_action h a pg = (pg', Ret o))
    /\ (forall pg' text,
          Executor._execute_action_body h a pg = (pg', Exc text) ->
          Executor._execute_action h a pg
            = (pg', Ret (Executor.failed (action_type a) text)))
    /\ (action_type a = DOWNLOAD \/ action_type a = UPLOAD ->
        exists o,
          Executor._execute_action h a pg = (pg, Ret o)
          /\ Executor.success o = false
          /\ contains (lit "not implemented") (Executor.message o) = true)
    /\ process_command (lit "fetch report")
       = Ok [action DOWNLOAD (Some (lit "report")) None (Some (lit "fetch report"))]
    /\ process_command (lit "attach resume")
       = Ok [action UPLOAD (Some (lit "resume")) None (Some (lit "attach resume"))].
Proof.
  intros Page h a pg.
  split; [|split; [|split; [|split]]].
  - unfold Executor._execute_action.
    destruct (Executor._execute_action_body h a pg) as [pg' [o | text]]; eauto.
  - intros pg' text Hbody. unfold Executor._execute_action. now rewrite Hbody.
  - intros Htype.
    exists (Executor.not_implemented (action_type a)).
    unfold Executor._execute_action, Executor._execute_action_body.
    destruct Htype as [-> | ->]; cbn [Executor.dispatch];
      repeat split; vm_compute; reflexivity.
  - vm_compute; reflexivity.
  - vm_compute; reflexivity.
Qed.

Lemma execute_action_returns_outcome_witness :
  Executor._execute_action Stub.handlers
      (action NAVIGATE (Some (lit "https://nowhere")) None None) tt
    = (tt, Ret (Executor.failed NAVIGATE (lit "net::ERR_NAME_NOT_RESOLVED")))
  /\ exists o,
       Executor._execute_action Stub.handlers
           (action DOWNLOAD (Some (lit "report")) None None) tt = (tt, Ret o)
       /\ Executor.success o = false
       /\ contains (lit "not implemented") (Executor.message o) = true.
Proof.
  split.
  - apply (execute_action_returns_outcome unit Stub.handlers
             (action NAVIGATE (Some (lit "https://nowhere")) None None) tt).
    reflexivity.
  - apply (execute_action_returns_outcome unit Stub.handlers
             (action DOWNLOAD (Some (lit "report")) None None) tt).
    left; reflexivity.
Defined.

(** ** Classification *)

(** C5, as stated: [classify_question("What is 5 + 3?")] would be Math. *)
Lemma what_is_5_plus_3_is_not_math :
  classify_question (lit "What is 5 + 3?") <> MATH.
Proof. vm_compute. discriminate. Qed.

(** C5, amended: "What is 5 + 3?" holds none of the keywords and is
    classified General; "Select A, B, C, or D" is MultipleChoice.  The
    keywords are looked for in the lower-cased text, the markers of multiple
    choice first, then those of coding, of math and of an essay; a text with
    none of them is General. *)
Theorem classify_question_taxonomy :
  forall (question_text : str) (q : str),
    lower question_text = q ->
    classify_question (lit "What is 5 + 3?") = GENERAL
    /\ classify_question (lit "Select A, B, C, or D") = MULTIPLE_CHOICE
    /\ (any_in (map lit ["a)"; "b)"; "c)"; "d)"; "select"; "choose"]) q = true ->
        classify_question question_text = MULTIPLE_CHOICE)
    /\ (any_in (map lit ["a)"; "b)"; "c)"; "d)"; "select"; "choose"]) q = false ->
        (any_in (map lit ["code"; "function"; "algorithm"; "programming";
                          "python"; "javascript"]) q = true ->
         classify_question question_text = CODING)
        /\ (any_in (map lit ["code"; "function"; "algorithm"; "programming";
                             "python"; "javascript"]) q = false ->
            (any_in (map lit ["calculate"; "solve"; "equation"; "formula"; "math"]) q
               = true ->
             classify_question question_text = MATH)
            /\ (any_in (map lit ["calculate"; "solve"; "equation"; "formula"; "math"]) q
                  = false ->
                (any_in (map lit ["explain"; "describe"; "discuss"; "essay";
                                  "paragraph"]) q = true ->
                 classify_question question_text = ESSAY)
                /\ (any_in (map lit ["explain"; "describe"; "discuss"; "essay";
                                     "paragraph"]) q = false ->
                    classify_question question_text = GENERAL)))).
Proof.
  intros question_text q <-.
  split; [vm_compute; reflexivity|].
  split; [vm_compute; reflexivity|].
  unfold classify_question.
  split; [intros ->; reflexivity|].
  intros ->. split; [intros ->; reflexivity|].
  intros ->. split; [intros ->; reflexivity|].
  intros ->. split; intros ->; reflexivity.
Qed.

Lemma classify_question_taxonomy_witness :
  classify_question (lit "Solve the equation x + 2 = 5") = MATH
  /\ classify_question (lit "Write a function that selects the maximum")
     = MULTIPLE_CHOICE.
Proof.
  split.
  - apply (classify_question_taxonomy (lit "Solve the equation x + 2 = 5") _ eq_refl);
      reflexivity.
  - apply (classify_question_taxonomy
             (lit "Write a function that selects the maximum") _ eq_refl);
      reflexivity.
Defined.

(** Containment, as a decomposition of the string. *)
Lemma startswith_elim : forall p s : str,
  startswith s p = true -> exists post, s = p ++ post.
Proof.
  induction p as [|x p IH]; intros s H; [now exists s|].
  destruct s as [|c s]; cbn in H; [discriminate|].
  apply Bool.andb_true_iff in H. destruct H as [Hx Hp].
  apply N.eqb_eq in Hx. subst c.
  destruct (IH s Hp) as (post & ->). now exists post.
Qed.

Lemma startswith_intro : forall p post : str, startswith (p ++ post) p = true.
Proof.
  induction p as [|x p IH]; intros post; cbn; [reflexivity|].
  unfold eqc. now rewrite N.eqb_refl, IH.
Qed.

Lemma contains_elim : forall k s : str,
  contains k s = true -> exists pre post, s = pre ++ k ++ post.
Proof.
  intros k. induction s as [|c s IH]; cbn [contains]; intros H.
  - rewrite Bool.orb_false_r in H.
    destruct (startswith_elim _ _ H) as (post & ->). now exists [], post.
  - apply Bool.orb_true_iff in H. destruct H as [H | H].
    + destruct (startswith_elim _ _ H) as (post & ->). now exists [], post.
    + destruct (IH H) as (pre & post & ->). now exists (c :: pre), post.
Qed.

Lemma contains_intro : forall k pre post : str, contains k (pre ++ k ++ post) = true.
Proof.
  intros k pre post. induction pre as [|c pre IH].
  - cbn [app]. destruct (k ++ post) eqn:E; cbn [contains]; rewrite <- E;
      now rewrite startswith_intro.
  - cbn [app contains]. rewrite IH. apply Bool.orb_true_r.
Qed.

(** ** The character tables *)

Lemma in_points : forall (n k : nat) (lo step : N),
  (k <= n)%nat -> In (lo + N.of_nat k * step)%N (points lo step (S n)).
Proof.
  induction n as [|n IH]; intros k lo step Hk.
  - replace k with 0%nat by lia. left. cbn. lia.
  - destruct k as [|k].
    + left. cbn. lia.
    + right. replace (lo + N.of_nat (S k) * step)%N
        with ((lo + step) + N.of_nat k * step)%N by lia.
      apply IH. lia.
Qed.

Lemma in_points_of : forall lo hi step c : N,
  (lo <= c)%N -> (c <= hi)%N -> ((c - lo) mod step = 0)%N ->
  In c (points_of lo hi step).
Proof.
  intros lo hi step c Hlo Hhi Hmod. unfold points_of.
  destruct (N.eq_dec step 0) as [->|Hstep].
  - rewrite N.mod_0_r in Hmod. left. lia.
  - pose proof (N.Div0.div_exact (c - lo) step) as [_ Hex].
    specialize (Hex Hmod).
    replace c with (lo + N.of_nat (N.to_nat ((c - lo) / step)) * step)%N at 1
      by (rewrite N2Nat.id; lia).
    apply in_points.
    assert ((c - lo) / step <= (hi - lo) / step)%N
      by (apply N.Div0.div_le_mono; lia).
    lia.
Qed.

Lemma in_table_points : forall (t : list (N * N * N)) (c : char),
  in_table t c = true -> In c (flat_map set_points t).
Proof.
  induction t as [|[[lo hi] step] t IH]; intros c H; cbn [in_table] in H;
    [discriminate|].
  cbn [flat_map]. apply in_or_app.
  destruct (N.ltb c lo) eqn:Hlt; [discriminate|].
  apply N.ltb_ge in Hlt.
  apply Bool.orb_true_iff in H. destruct H as [H|H]; [left|right; auto].
  apply Bool.andb_true_iff in H. destruct H as [Hhi Hmod].
  apply N.leb_le in Hhi. apply N.eqb_eq in Hmod.
  now apply in_points_of.
Qed.

Lemma map_table_points : forall (t : list (N * N * N * N)) (c : char),
  map_table t c <> c -> In (c, map_table t c) (flat_map map_points t).
Proof.
  induction t as [|[[[lo hi] step] to] t IH]; intros c H; cbn [map_table] in *;
    [congruence|].
  cbn [flat_map]. apply in_or_app.
  destruct (N.ltb c lo) eqn:Hlt; [congruence|].
  apply N.ltb_ge in Hlt.
  destruct (N.leb c hi && N.eqb ((c - lo) mod step) 0) eqn:Hin; [left|right; auto].
  apply Bool.andb_true_iff in Hin. destruct Hin as [Hhi Hmod].
  apply N.leb_le in Hhi. apply N.eqb_eq in Hmod.
  cbn [map_points]. apply in_map_iff. exists c. split; [reflexivity|].
  now apply in_points_of.
Qed.

(** What holds of every character the lowercase mapping moves, and of its
    image, is found by going through the table. *)
Lemma lower_char_moved : forall (ok : char -> char -> bool) (c : char),
  forallb (fun cd => ok (fst cd) (snd cd)) (flat_map map_points lowercase_table) = true ->
  lower_char c <> c -> ok c (lower_char c) = true.
Proof.
  intros ok c Hall Hc. rewrite forallb_forall in Hall.
  exact (Hall _ (map_table_points lowercase_table c Hc)).
Qed.


(** Lower-casing goes through a string from left to right; what comes before
    a piece matters to a capital sigma only. *)
Lemma lower_from_app : forall pre before s : str,
  exists x : str, lower_from before (pre ++ s) = x ++ lower_from (rev pre ++ before) s.
Proof.
  induction pre as [|c pre IH]; intros before s.
  - exists []. reflexivity.
  - cbn [app lower_from rev]. destruct (IH (c :: before) s) as [x ->].
    rewrite <- (app_assoc (rev pre) [c] before). cbn [app].
    eexists. rewrite app_assoc. reflexivity.
Qed.

Lemma lower_from_one_to_one : forall mid before post : str,
  forallb one_to_one mid = true ->
  lower_from before (mid ++ post)
  = map lower_char mid ++ lower_from (rev mid ++ before) post.
Proof.
  induction mid as [|c mid IH]; intros before post H.
  - reflexivity.
  - cbn [forallb] in H. apply Bool.andb_true_iff in H. destruct H as [Hc H].
    unfold one_to_one in Hc. apply Bool.andb_true_iff in Hc. destruct Hc as [H1 H2].
    apply Bool.negb_true_iff in H1, H2.
    cbn [app lower_from rev map]. unfold lower_full. rewrite H1, H2.
    rewrite (IH (c :: before) post H). rewrite <- (app_assoc (rev mid) [c] before).
    reflexivity.
Qed.

Lemma lower_one_to_one : forall s : str,
  forallb one_to_one s = true -> lower s = map lower_char s.
Proof.
  intros s H. unfold lower.
  rewrite <- (app_nil_r s) at 1. rewrite (lower_from_one_to_one s [] [] H).
  cbn [lower_from]. apply app_nil_r.
Qed.

Lemma lower_contains : forall k mid pre post : str,
  forallb one_to_one mid = true ->
  contains k (map lower_char mid) = true ->
  contains k (lower (pre ++ mid ++ post)) = true.
Proof.
  intros k mid pre post Hmid Hk.
  destruct (contains_elim _ _ Hk) as (a & b & Hab).
  unfold lower. destruct (lower_from_app pre [] (mid ++ post)) as [x ->].
  rewrite (lower_from_one_to_one mid _ post Hmid), Hab.
  rewrite <- !app_assoc. rewrite (app_assoc x a). apply contains_intro.
Qed.

(** C4: the status of every element is decided by the first rule that
    holds, the markers in the text before the markers in the CSS class: a
    text with a completion marker is Completed whatever the class says, the
    class is read only where no marker of the text is found, and an element
    that fits no rule is NotStarted, as is one of which a read raises.  The
    text and the class of an element without them are the empty string.  An
    element whose text contains a check mark followed by " Completed" is
    Completed also when its class contains "in-progress". *)
Theorem status_text_before_class :
  forall e : Element,
    let t := text_lower e in
    let cls := class_list e in
    (forall x, text_content e = Exc x -> _detect_completion_status e = NOT_STARTED)
    /\ (forall o, text_content e = Ret o ->
        (any_in completed_text t = true -> _detect_completion_status e = COMPLETED)
        /\ (any_in completed_text t = false ->
            (any_in progress_text t = true ->
             _detect_completion_status e = IN_PROGRESS)
            /\ (any_in progress_text t = false ->
                (any_in retake_text t = true ->
                 _detect_completion_status e = RETAKE_AVAILABLE)
                /\ (any_in retake_text t = false ->
                    (forall x, class_attribute e = Exc x ->
                     _detect_completion_status e = NOT_STARTED)
                    /\ (forall o', class_attribute e = Ret o' ->
                        (any_in completed_class cls = true ->
                         _detect_completion_status e = COMPLETED)
                        /\ (any_in completed_class cls = false ->
                            (any_in progress_class cls = true ->
                             _detect_completion_status e = IN_PROGRESS)
                            /\ (any_in progress_class cls = false ->
                                _detect_completion_status e = NOT_STARTED)))))))
    /\ (forall txt, text_content e = Ret (Some txt) ->
        contains (10003%N :: lit " Completed") txt = true ->
        _detect_completion_status e = COMPLETED).
Proof.
  intros e t cls.
  assert (Ht : forall o, text_content e = Ret o ->
               match o with Some (c :: r) => lower (c :: r) | _ => [] end = t).
  { intros o Ho. unfold t, text_lower. rewrite Ho. now destruct o as [[|c r]|]. }
  assert (Hc : forall o, class_attribute e = Ret o ->
               match o with Some (c :: r) => c :: r | _ => [] end = cls).
  { intros o Ho. unfold cls, class_list. rewrite Ho. now destruct o as [[|c r]|]. }
  split; [|split].
  - intros x Hx. unfold _detect_completion_status. now rewrite Hx.
  - intros o Ho. unfold _detect_completion_status. rewrite Ho, (Ht o Ho).
    split; [intros ->; reflexivity|].
    intros ->. split; [intros ->; reflexivity|].
    intros ->. split; [intros ->; reflexivity|].
    intros ->. split.
    + intros x Hx. now rewrite Hx.
    + intros o' Ho'. rewrite Ho', (Hc o' Ho').
      split; [intros ->; reflexivity|].
      intros ->. split; intros ->; reflexivity.
  - intros txt Htext Hmark.
    unfold _detect_completion_status. rewrite Htext, (Ht _ Htext).
    match goal with
    | |- (if ?c then _ else _) = _ => replace c with true; [reflexivity|symmetry]
    end.
    unfold t, text_lower. rewrite Htext.
    destruct (contains_elim _ _ Hmark) as (pre & post & ->).
    unfold any_in, completed_text. cbn [existsb].
    apply Bool.orb_true_iff. right. apply Bool.orb_true_iff. left.
    apply lower_contains; reflexivity.
Qed.

Lemma status_text_before_class_witness :
  _detect_completion_status
    (Elem (Ret (Some (10003%N :: lit " Completed"))) (Ret (Some (lit "quiz-item in-progress"))))
  = COMPLETED
  /\ _detect_completion_status
       (Elem (Ret (Some (lit "Python basics"))) (Ret (Some (lit "card started"))))
     = IN_PROGRESS
  /\ _detect_completion_status (Elem (Ret None) (Exc (lit "detached")))
     = NOT_STARTED.
Proof.
  split; [|split].
  - destruct (status_text_before_class
                (Elem (Ret (Some (10003%N :: lit " Completed")))
                      (Ret (Some (lit "quiz-item in-progress")))))
      as (_ & _ & Hmark).
    apply (Hmark _ eq_refl). reflexivity.
  - destruct (status_text_before_class
                (Elem (Ret (Some (lit "Python basics")))
                      (Ret (Some (lit "card started")))))
      as (_ & Hrules & _).
    destruct (Hrules _ eq_refl) as [_ Hrest].
    destruct (Hrest eq_refl) as [_ Hrest1].
    destruct (Hrest1 eq_refl) as [_ Hrest2].
    destruct (Hrest2 eq_refl) as [_ Hclass].
    destruct (Hclass _ eq_refl) as [_ Hrest3].
    destruct (Hrest3 eq_refl) as [Hprogress _].
    apply Hprogress. reflexivity.
  - destruct (status_text_before_class (Elem (Ret None) (Exc (lit "detached"))))
      as (_ & Hrules & _).
    destruct (Hrules _ eq_refl) as [_ Hrest].
    destruct (Hrest eq_refl) as [_ Hrest1].
    destruct (Hrest1 eq_refl) as [_ Hrest2].
    destruct (Hrest2 eq_refl) as [Hraise _].
    apply (Hraise _ eq_refl).
Defined.

(** Where the text holds the Kelvin sign U+212A for the letter K, its
    lower-cased form holds "k": "RETA", U+212A, "E" is a marker of a
    retake. *)
Example status_of_a_kelvin_sign :
  _detect_completion_status
    (Elem (Ret (Some (lit "RETA" ++ [8490%N] ++ lit "E"))) (Ret None))
  = RETAKE_AVAILABLE.
Proof. reflexivity. Qed.

(** ** The task execution engine *)

Section EngineFacts.
Variables World Handle : Type.
Variable B : Browser World Handle.

Lemma frame_refl : forall s : St World, frame s s.
Proof. split; reflexivity. Qed.

Lemma frame_trans : forall s1 s2 s3 : St World,
  frame s1 s2 -> frame s2 s3 -> frame s1 s3.
Proof. unfold frame. intros s1 s2 s3 [H1 H2] [H3 H4]. split; congruence. Qed.

Lemma quiet_ret : forall (A : Type) (a : A), quiet (ret (World := World) a).
Proof. intros A a s. apply frame_refl. Qed.

Lemma quiet_bind : forall (A C : Type) (c : M World A) (f : A -> M World C),
  quiet c -> (forall a, quiet (f a)) -> quiet (bind c f).
Proof.
  intros A C c f Hc Hf s. unfold bind.
  specialize (Hc s). destruct (c s) as [s1 [a | t]]; cbn in *.
  - eapply frame_trans; [exact Hc | apply Hf].
  - exact Hc.
Qed.

Lemma quiet_catch : forall (A : Type) (c : M World A) (h : str -> M World A),
  quiet c -> (forall t, quiet (h t)) -> quiet (catch c h).
Proof.
  intros A c h Hc Hh s. unfold catch.
  specialize (Hc s). destruct (c s) as [s1 [a | t]]; cbn in *.
  - exact Hc.
  - eapply frame_trans; [exact Hc | apply Hh].
Qed.

Lemma quiet_page : forall (A : Type) (f : World -> World * res A), quiet (page f).
Proof.
  intros A f s. unfold page. destruct (f (world s)) as [w r]. split; reflexivity.
Qed.

Lemma quiet_log : forall msg : str,
  is_start_line msg = false -> quiet (log (World := World) msg).
Proof.
  intros msg Hmsg s. split; cbn; [|reflexivity].
  unfold starts. rewrite filter_app. cbn [filter]. rewrite Hmsg. apply app_nil_r.
Qed.

Lemma quiet_first_success :
  forall (attempt : str -> M World bool) (selectors : list str),
    (forall selector, quiet (attempt selector)) ->
    quiet (first_success attempt selectors).
Proof.
  intros attempt selectors Ha.
  induction selectors as [|selector rest IH]; cbn [first_success].
  - apply quiet_ret.
  - apply quiet_bind.
    + apply quiet_catch; [apply Ha | intro; apply quiet_ret].
    + intros [|]; [apply quiet_ret | exact IH].
Qed.

Lemma quiet_navigate_to : forall url : str, quiet (navigate_to B url).
Proof.
  intros url s. unfold navigate_to.
  destruct (negb (page_started B (world s))); [apply frame_refl|].
  destruct (goto B url (world s)) as [w [u | t]]; split; reflexivity.
Qed.

(** Steps that close most goals on [quiet]. *)
Ltac quiet_step :=
  lazymatch goal with
  | |- forall _, quiet _ => intro
  | |- quiet (first_success _ _) => apply quiet_first_success
  | |- quiet (ret _) => apply quiet_ret
  | |- quiet (page _) => apply quiet_page
  | |- quiet (navigate_to _ _) => apply quiet_navigate_to
  | |- quiet (log _) => apply quiet_log; reflexivity
  | |- quiet (bind _ _) => apply quiet_bind
  | |- quiet (catch _ _) => apply quiet_catch
  | |- quiet (if ?b then _ else _) => destruct b
  | |- quiet (match ?x with _ => _ end) => destruct x
  end.

Ltac quiet_auto := repeat quiet_step.

Lemma quiet_is_quiz_finished : quiet (_is_quiz_finished B).
Proof.
  unfold _is_quiz_finished. quiet_auto.
  intros s. apply frame_refl.
Qed.

Lemma frame_append_texts : forall elements options s,
  frame s (fst (append_texts B elements options s)).
Proof.
  induction elements as [|element rest IH]; intros options s; cbn [append_texts].
  - apply frame_refl.
  - pose proof (quiet_page _ (handle_text_content B element) s) as Hp.
    destruct (page (handle_text_content B element) s) as [s1 [t | e]]; cbn in *.
    + eapply frame_trans; [exact Hp | apply IH].
    + exact Hp.
Qed.

Lemma quiet_collect_options : forall selectors options,
  quiet (collect_options B selectors options).
Proof.
  induction selectors as [|selector rest IH]; intros options; cbn [collect_options].
  - apply quiet_ret.
  - intros s.
    pose proof (quiet_page _ (query_selector_all B selector) s) as Hp.
    destruct (page (query_selector_all B selector) s) as [s1 [elements | e]]; cbn in *.
    + pose proof (frame_append_texts elements options s1) as Ha.
      destruct (append_texts B elements options s1) as [s2 [options' whole]].
      cbn in Ha.
      destruct (whole && nonempty options'); cbn.
      * eapply frame_trans; eassumption.
      * eapply frame_trans; [eapply frame_trans; eassumption | apply IH].
    + eapply frame_trans; [exact Hp | apply IH].
Qed.

Lemma quiet_extract_options : quiet (_extract_multiple_choice_options B).
Proof.
  unfold _extract_multiple_choice_options.
  apply quiet_catch; [apply quiet_collect_options | quiet_auto].
Qed.

Lemma quiet_find_question_text : forall selectors,
  quiet (find_question_text B selectors).
Proof.
  induction selectors as [|selector rest IH]; cbn [find_question_text].
  - apply quiet_ret.
  - apply quiet_bind; [quiet_auto|].
    intros [question_text|]; [apply quiet_ret | exact IH].
Qed.

Lemma quiet_get_current_question : quiet (_get_current_question B).
Proof.
  unfold _get_current_question.
  apply quiet_catch; [|quiet_auto].
  apply quiet_bind; [apply quiet_find_question_text|].
  intros [question_text|]; [|apply quiet_ret].
  apply quiet_bind; [|quiet_auto].
  destruct (classify_question question_text);
    first [apply quiet_extract_options | apply quiet_ret].
Qed.

Lemma quiet_click_submit_button : quiet (_click_submit_button B).
Proof. unfold _click_submit_button. quiet_auto. Qed.

Lemma quiet_submit_multiple_choice : forall answer,
  quiet (_submit_multiple_choice_answer B answer).
Proof.
  intros answer. unfold _submit_multiple_choice_answer.
  repeat first [apply quiet_click_submit_button | quiet_step].
Qed.

Lemma quiet_submit_text : forall answer, quiet (_submit_text_answer B answer).
Proof.
  intros answer. unfold _submit_text_answer.
  repeat first [apply quiet_click_submit_button | quiet_step].
Qed.

Lemma quiet_submit_answer : forall answer question,
  quiet (_submit_answer B answer question).
Proof.
  intros answer question. unfold _submit_answer.
  apply quiet_catch; [|quiet_auto].
  destruct (question_type question);
    first [apply quiet_submit_multiple_choice | apply quiet_submit_text].
Qed.

(** Totality. *)
Lemma total_ret : forall (A : Type) (a : A), total (ret (World := World) a).
Proof. intros A a s. exists s, a. reflexivity. Qed.

Lemma total_log : forall msg : str, total (log (World := World) msg).
Proof. intros msg s. eexists _, tt. reflexivity. Qed.

Lemma total_bind : forall (A C : Type) (c : M World A) (f : A -> M World C),
  total c -> (forall a, total (f a)) -> total (bind c f).
Proof.
  intros A C c f Hc Hf s. unfold bind.
  destruct (Hc s) as (s1 & a & ->). apply Hf.
Qed.

Lemma total_catch : forall (A : Type) (c : M World A) (h : str -> M World A),
  (forall t, total (h t)) -> total (catch c h).
Proof.
  intros A c h Hh s. unfold catch.
  destruct (c s) as [s1 [a | t]]; [exists s1, a; reflexivity | apply Hh].
Qed.

Ltac total_auto :=
  repeat lazymatch goal with
         | |- forall _, total _ => intro
         | |- total (ret _) => apply total_ret
         | |- total (log _) => apply total_log
         | |- total (catch _ _) => apply total_catch
         | |- total (bind _ _) => apply total_bind
         end.

Lemma total_is_quiz_finished : total (_is_quiz_finished B).
Proof. unfold _is_quiz_finished. total_auto. Qed.

Lemma total_get_current_question : total (_get_current_question B).
Proof. unfold _get_current_question. total_auto. Qed.

Lemma total_submit_answer : forall answer question,
  total (_submit_answer B answer question).
Proof. intros. unfold _submit_answer. total_auto. Qed.

Lemma quiet_question_loop : forall fuel quiz question_count iterations,
  quiet (question_loop B fuel quiz question_count iterations).
Proof.
  induction fuel as [|fuel IH]; intros quiz question_count iterations;
    cbn [question_loop].
  - apply quiet_ret.
  - destruct (Nat.ltb question_count max_questions); [|apply quiet_ret].
    repeat first
      [ apply quiet_is_quiz_finished | apply quiet_get_current_question
      | apply quiet_submit_answer | apply IH | quiet_step ].
Qed.

(** The loop from any value of its counter: it returns, the counter stays
    within the bound, and the body is entered once for each answer that
    was submitted and once more when the loop is left from inside. *)
Lemma question_loop_run : forall fuel quiz question_count iterations s,
  question_count <= max_questions ->
  max_questions - question_count < fuel ->
  exists s' e count' iterations',
    question_loop B fuel quiz question_count iterations s
      = (s', Ret (e, count', iterations'))
    /\ e <> OutOfFuel
    /\ question_count <= count' <= max_questions
    /\ iterations' = iterations + (count' - question_count)
                     + (if early e then 1 else 0)
    /\ (early e = true -> count' < max_questions)
    /\ (e = LimitReached -> count' = max_questions).
Proof.
  induction fuel as [|fuel IH]; intros quiz question_count iterations s Hle Hfuel;
    [lia|].
  cbn [question_loop].
  destruct (Nat.ltb question_count max_questions) eqn:Hlt.
  - apply Nat.ltb_lt in Hlt.
    unfold bind at 1.
    destruct (total_is_quiz_finished s) as (s1 & finished & ->).
    destruct finished.
    + cbn. eexists _, Finished, question_count, (S iterations).
      repeat split; cbn [early]; try lia; try discriminate.
    + unfold bind at 1.
      destruct (total_get_current_question s1) as (s2 & question & ->).
      destruct question as [question|].
      * unfold bind at 1. cbn [log].
        unfold bind at 1, page at 1. cbn [world].
        destruct (solve_question B question (world s2)) as [w answer].
        unfold bind at 1.
        match goal with
        | |- context [_submit_answer B answer question ?st] =>
            destruct (total_submit_answer answer question st) as (s3 & success & ->)
        end.
        destruct success; cbn [negb].
        -- destruct (IH quiz (question_count + 1) (S iterations) s3)
             as (s' & e & count' & iterations' & Hrun & He & Hc & Hi & Hearly & Hlimit);
             [lia | lia |].
           exists s', e, count', iterations'.
           repeat split; try assumption; try lia.
        -- cbn. eexists _, SubmitFailed, question_count, (S iterations).
           repeat split; cbn [early]; try lia; try discriminate.
      * cbn. eexists _, NoQuestion, question_count, (S iterations).
        repeat split; cbn [early]; try lia; try discriminate.
  - apply Nat.ltb_ge in Hlt.
    exists s, LimitReached, question_count, iterations.
    cbn. repeat split; cbn [early]; try lia; try discriminate.
Qed.

Lemma bind_ext : forall (A C : Type) (c : M World A) (f g : A -> M World C) s,
  (forall a s', f a s' = g a s') -> bind c f s = bind c g s.
Proof.
  intros A C c f g s Hfg. unfold bind.
  destruct (c s) as [s1 [a | t]]; [apply Hfg | reflexivity].
Qed.

(** More fuel than the loop needs changes nothing. *)
Lemma question_loop_fuel : forall fuel1 fuel2 quiz question_count iterations s,
  max_questions - question_count < fuel1 ->
  max_questions - question_count < fuel2 ->
  question_loop B fuel1 quiz question_count iterations s
    = question_loop B fuel2 quiz question_count iterations s.
Proof.
  induction fuel1 as [|fuel1 IH];
    intros [|fuel2] quiz question_count iterations s H1 H2; try lia.
  cbn [question_loop].
  destruct (Nat.ltb question_count max_questions) eqn:Hlt; [|reflexivity].
  apply Nat.ltb_lt in Hlt.
  apply bind_ext. intros [|] s1; [reflexivity|].
  apply bind_ext. intros [question|] s2; [|reflexivity].
  apply bind_ext. intros _ s3.
  apply bind_ext. intros answer s4.
  apply bind_ext. intros [|] s5; cbn [negb]; [|reflexivity].
  apply IH; lia.
Qed.

(** C2: for every quiz and every state of the page, the question loop of
    [complete_quiz] returns after at most 50 passes through its body, also
    when the quiz never shows as finished.  The counter goes up by one on
    every pass that submits an answer, and the loop is left when it
    reaches the bound. *)
Theorem question_loop_bounded : forall (quiz : QuizItem) (s : St World),
  exists s' e question_count iterations,
    question_loop B (S max_questions) quiz 0 0 s
      = (s', Ret (e, question_count, iterations))
    /\ e <> OutOfFuel
    /\ iterations <= 50
    /\ question_count <= 50
    /\ iterations = question_count + (if early e then 1 else 0)
    /\ (e = LimitReached <-> question_count = 50)
    /\ forall fuel, max_questions < fuel ->
         question_loop B fuel quiz 0 0 s = (s', Ret (e, question_count, iterations)).
Proof.
  intros quiz s.
  destruct (question_loop_run (S max_questions) quiz 0 0 s)
    as (s' & e & count' & iterations' & Hrun & He & Hc & Hi & Hearly & Hlimit);
    [unfold max_questions; lia | lia |].
  exists s', e, count', iterations'.
  unfold max_questions in *.
  repeat split; try assumption; try lia.
  - destruct (early e) eqn:Hee; [specialize (Hearly eq_refl)|]; lia.
  - intros Hfifty. destruct e; cbn in Hearly; try (specialize (Hearly eq_refl); lia);
      [reflexivity | congruence].
  - intros fuel Hfuel.
    rewrite <- Hrun. apply question_loop_fuel; unfold max_questions; lia.
Qed.

Lemma start_line_is_start : forall quiz, is_start_line (start_line quiz) = true.
Proof. reflexivity. Qed.

Lemma quiet_open_and_start : forall quiz, quiet (open_and_start B quiz).
Proof.
  intros quiz. unfold open_and_start.
  apply quiet_bind.
  - intros s. destruct (eqs (url quiz) (current_url s));
      [apply frame_refl | apply quiet_navigate_to].
  - intros _. destruct (start_button_selector quiz) as [[|c sel]|]; quiet_auto.
Qed.

Lemma quiet_after_questions : forall quiz r,
  quiet (after_questions (World := World) quiz r).
Proof.
  intros quiz [[e question_count] iterations].
  destruct e; cbn [after_questions]; quiet_auto.
Qed.

(** One quiz: [complete_quiz] returns, announces the quiz once, and
    leaves the agent's log alone. *)
Lemma complete_quiz_run : forall quiz s,
  exists s' done,
    complete_quiz B quiz s = (s', Ret done)
    /\ starts (execution_log s') = starts (execution_log s) ++ [start_line quiz]
    /\ agent_log s' = agent_log s.
Proof.
  intros quiz s.
  pose (s0 := State (world s) (current_url s)
                    (execution_log s ++ [start_line quiz]) (agent_log s)).
  pose (rest := catch
                  (bind (open_and_start B quiz)
                     (fun _ => bind (question_loop B (S max_questions) quiz 0 0)
                                    (after_questions quiz)))
                  (fun e => bind (log (lit "Quiz completion failed: " ++ e))
                                 (fun _ => ret false))).
  assert (Hstep : complete_quiz B quiz s = rest s0) by reflexivity.
  assert (Hquiet : quiet rest).
  { unfold rest.
    repeat first [ apply quiet_open_and_start | apply quiet_question_loop
                 | apply quiet_after_questions | quiet_step ]. }
  assert (Htotal : total rest) by (unfold rest; total_auto).
  destruct (Htotal s0) as (s' & done & Hrun).
  exists s', done. rewrite Hstep, Hrun.
  specialize (Hquiet s0). rewrite Hrun in Hquiet. destruct Hquiet as [Hs Ha].
  cbn [fst] in Hs, Ha. unfold s0 in Hs, Ha.
  cbn [execution_log agent_log] in Hs, Ha.
  repeat split; [|exact Ha].
  rewrite Hs. unfold starts. rewrite filter_app. cbn [filter].
  now rewrite start_line_is_start.
Qed.

(** The batch, from any value of its counter: it is a run of attempts on
    every quiz, and the counter grows by the attempts that were answered
    with [True]. *)
Lemma complete_each_run : forall quizzes completed_count s,
  exists results s',
    attempts B s quizzes results s'
    /\ List.length results = List.length quizzes
    /\ complete_each B quizzes completed_count s
       = (s', Ret (completed_count + completed_of results))
    /\ starts (execution_log s')
       = starts (execution_log s) ++ map start_line quizzes
    /\ agent_log s' = agent_log s ++ map fail_line (failed_of quizzes results).
Proof.
  induction quizzes as [|quiz rest IH]; intros completed_count s;
    cbn [complete_each].
  - exists [], s. cbn. rewrite !app_nil_r, Nat.add_0_r.
    repeat split; constructor.
  - unfold bind at 1.
    destruct (complete_quiz_run quiz s) as (s1 & done & Hquiz & Hs1 & Ha1).
    rewrite Hquiz. destruct done.
    + destruct (IH (completed_count + 1) s1)
        as (results & s' & Hrun & Hlen & -> & Hs & Ha).
      exists (true :: results), s'.
      repeat split.
      * eapply attempts_completed; eauto.
      * cbn. now rewrite Hlen.
      * unfold completed_of. cbn [filter List.length]. do 2 f_equal.
        fold (completed_of results). lia.
      * rewrite Hs, Hs1, <- app_assoc. reflexivity.
      * unfold failed_of. cbn [combine filter snd negb]. fold (failed_of rest results).
        congruence.
    + unfold bind at 1. cbn [agent_say].
      match goal with
      | |- context [complete_each B rest completed_count ?st] =>
          destruct (IH completed_count st)
            as (results & s' & Hrun & Hlen & -> & Hs & Ha)
      end.
      cbn [execution_log agent_log] in Hs, Ha.
      exists (false :: results), s'.
      repeat split.
      * eapply attempts_failed; eauto.
      * cbn. now rewrite Hlen.
      * rewrite Hs, Hs1, <- app_assoc. reflexivity.
      * unfold failed_of. cbn [combine filter snd negb map fst].
        fold (failed_of rest results).
        rewrite Ha, Ha1, <- app_assoc. reflexivity.
Qed.

Lemma completed_and_failed : forall (quizzes : list QuizItem) (results : list bool),
  List.length results = List.length quizzes ->
  completed_of results + List.length (failed_of quizzes results) = List.length quizzes
  /\ incl (failed_of quizzes results) quizzes.
Proof.
  induction quizzes as [|quiz rest IH]; intros [|done results] Hlen;
    try discriminate.
  - split; [reflexivity | apply incl_nil_l].
  - injection Hlen as Hlen. destruct (IH results Hlen) as [Hn Hin].
    unfold completed_of, failed_of in *.
    destruct done; cbn [combine filter snd negb map fst List.length] in *.
    + split; [lia | now apply incl_tl].
    + split; [lia | apply incl_cons; [now left | now apply incl_tl]].
Qed.

(** C3: in a batch of incomplete quizzes every quiz is attempted, in
    order, whether or not an earlier one failed: [complete_quiz] is run on
    each of them, each is announced in the engine's log, each one for which
    [complete_quiz] answered [False] is reported in the agent's log, and
    the result gives the number of those for which it answered [True] out
    of the number attempted. *)
Theorem batch_attempts_every_quiz : forall (all_quizzes : list QuizItem) (s : St World),
  let batch := filter is_incomplete all_quizzes in
  exists (results : list bool) (s1 s' : St World),
    attempts B (fst (agent_say (found_line (List.length batch)) s)) batch results s1
    /\ List.length results = List.length batch
    /\ complete_scanned_quizzes B all_quizzes s
       = (s', Ret match batch with
                  | [] => mark_ok ++ lit " All quizzes are already completed!"
                  | _ => result_line (completed_of results) (List.length batch)
                  end)
    /\ starts (execution_log s') = starts (execution_log s) ++ map start_line batch
    /\ agent_log s'
       = agent_log s ++ [found_line (List.length batch)]
         ++ map fail_line (failed_of batch results)
         ++ match batch with
            | [] => []
            | _ => [result_line (completed_of results) (List.length batch)]
            end
    /\ completed_of results + List.length (failed_of batch results)
       = List.length batch
    /\ incl (failed_of batch results) batch.
Proof.
  intros all_quizzes s batch.
  unfold complete_scanned_quizzes. fold batch.
  unfold catch, bind at 1. cbn [agent_say fst].
  destruct batch as [|quiz rest] eqn:Hbatch.
  - exists [], (State (world s) (current_url s) (execution_log s)
                     (agent_log s ++ [found_line 0])),
           (State (world s) (current_url s) (execution_log s)
                  (agent_log s ++ [found_line 0])).
    cbn. rewrite !app_nil_r. repeat split; auto using incl_nil_l. constructor.
  - unfold bind at 1.
    match goal with
    | |- context [complete_each B (quiz :: rest) 0 ?st] =>
        destruct (complete_each_run (quiz :: rest) 0 st)
          as (results & s1 & Hrun & Hlen & Heach & Hs & Ha)
    end.
    rewrite Heach.
    cbn [execution_log agent_log] in Hs, Ha.
    unfold bind at 1. cbn [agent_say ret Nat.add].
    destruct (completed_and_failed (quiz :: rest) results Hlen) as [Hn Hin].
    eexists results, s1, _.
    repeat split.
    + exact Hrun.
    + exact Hlen.
    + exact Hs.
    + cbn [agent_log]. rewrite Ha, <- !app_assoc. reflexivity.
    + exact Hn.
    + exact Hin.
Qed.

(** C9: [complete_quiz] answers [True] not only when the quiz shows as
    finished, but also when the loop is left because no question was found
    and when it is left at the bound of 50 questions; the batch then counts
    the quiz as completed. *)
Theorem complete_quiz_true_without_finish :
  forall (quiz : QuizItem) (s s1 s2 : St World) (e : loop_exit)
         (question_count iterations : nat),
    before_questions B quiz s = (s1, Ret tt) ->
    question_loop B (S max_questions) quiz 0 0 s1
      = (s2, Ret (e, question_count, iterations)) ->
    e = Finished \/ e = NoQuestion \/ e = LimitReached ->
    exists s3,
      complete_quiz B quiz s = (s3, Ret true)
      /\ forall rest completed_count,
           complete_each B (quiz :: rest) completed_count s
             = complete_each B rest (completed_count + 1) s3.
Proof.
  intros quiz s s1 s2 e question_count iterations Hbefore Hloop He.
  assert (Hdone : exists s3, complete_quiz B quiz s = (s3, Ret true)).
  { unfold complete_quiz, catch. unfold bind at 1. rewrite Hbefore.
    unfold bind at 1. rewrite Hloop.
    destruct He as [-> | [-> | ->]]; cbn; eauto. }
  destruct Hdone as (s3 & Hdone). exists s3. split; [exact Hdone|].
  intros rest completed_count. cbn [complete_each].
  unfold bind at 1. now rewrite Hdone.
Qed.

End EngineFacts.

Lemma question_loop_bounded_witness :
  exists s', question_loop Site.browser 60 (Site.quiz_at "A" "/endless") 0 0
               (Site.opened "/endless")
             = (s', Ret (LimitReached, 50, 50)).
Proof.
  destruct (question_loop_bounded _ _ Site.browser (Site.quiz_at "A" "/endless")
              (Site.opened "/endless"))
    as (s' & e & question_count & iterations & Hrun & _ & _ & _ & _ & _ & Hfuel).
  exists s'.
  rewrite (Hfuel 60 ltac:(unfold max_questions; lia)).
  vm_compute in Hrun.
  inversion Hrun; subst; reflexivity.
Defined.

Lemma complete_quiz_true_without_finish_witness :
  (exists s3, complete_quiz Site.browser (Site.quiz_at "A" "/endless") Site.start
              = (s3, Ret true))
  /\ (exists s3, complete_quiz Site.browser (Site.quiz_at "B" "/short") Site.start
                 = (s3, Ret true)).
Proof.
  split.
  - edestruct (complete_quiz_true_without_finish _ _ Site.browser
                 (Site.quiz_at "A" "/endless") Site.start) as (s3 & Hdone & _).
    + vm_compute. reflexivity.
    + vm_compute. reflexivity.
    + right; right; reflexivity.
    + exists s3. exact Hdone.
  - edestruct (complete_quiz_true_without_finish _ _ Site.browser
                 (Site.quiz_at "B" "/short") Site.start) as (s3 & Hdone & _).
    + vm_compute. reflexivity.
    + vm_compute. reflexivity.
    + right; left; reflexivity.
    + exists s3. exact Hdone.
Defined.

(** On the site of the examples the quiz at "/stuck" cannot be submitted
    and the one at "/short" can: [complete_quiz] answers [False], then
    [True], and the batch reports one quiz out of two. *)
Example batch_goes_on_after_a_failure :
  let batch := [Site.quiz_at "A" "/stuck"; Site.quiz_at "B" "/short"] in
  exists s1 s',
    attempts Site.browser (fst (agent_say (found_line 2) Site.start)) batch
             [false; true] s1
    /\ complete_scanned_quizzes Site.browser batch Site.start
       = (s', Ret (result_line 1 2))
    /\ agent_log s' = [found_line 2; fail_line (Site.quiz_at "A" "/stuck"); result_line 1 2].
Proof.
  cbv zeta. eexists _, _. split; [|split; vm_compute; reflexivity].
  eapply attempts_failed; [vm_compute; reflexivity|].
  eapply attempts_completed; [vm_compute; reflexivity|].
  apply attempts_none.
Qed.

(** ** Lower case through the parser *)

Section CharsKept.
(** What holds of every character of a string holds of every character of
    the strings cut out of it. *)
Variable P : char -> Prop.

Lemma Forall_skipn_str : forall n (s : str), Forall P s -> Forall P (skipn n s).
Proof.
  induction n as [|n IH]; intros [|c s] H; cbn; auto.
  inversion H; auto.
Qed.

Lemma Forall_firstn_str : forall n (s : str), Forall P s -> Forall P (firstn n s).
Proof.
  induction n as [|n IH]; intros [|c s] H; cbn; auto.
  inversion H; subst. constructor; auto.
Qed.

Lemma Forall_slice : forall a b (s : str), Forall P s -> Forall P (slice a b s).
Proof. intros. unfold slice. now apply Forall_firstn_str, Forall_skipn_str. Qed.

Lemma Forall_lstrip : forall s : str, Forall P s -> Forall P (lstrip s).
Proof.
  induction s as [|c s IH]; intros H; cbn; auto.
  destruct (isspace c); auto. inversion H; auto.
Qed.

Lemma Forall_strip : forall s : str, Forall P s -> Forall P (strip s).
Proof.
  intros s H. unfold strip, rstrip.
  now apply Forall_rev, Forall_lstrip, Forall_rev, Forall_lstrip.
Qed.






(** The pieces of [re.split] are slices of the subject. *)
Lemma Forall_split_go : forall r (whole : str), Forall P whole ->
  forall (s : str) p skip last, Forall (Forall P) (split_go r whole p s skip last).
Proof.
  intros r whole Hwhole.
  induction s as [|c s IH]; intros p skip last.
  - cbn [split_go]. destruct skip.
    + destruct (match_at false r false p []) as [st|]; [|auto using Forall_slice].
      destruct (Nat.eqb (pos st) p).
      * constructor; [auto using Forall_slice|].
        destruct (match_at false r true p []); auto using Forall_slice.
      * auto using Forall_slice.
    + auto using Forall_slice.
  - cbn [split_go]. destruct skip; [|apply IH].
    destruct (match_at false r false p (c :: s)) as [st|]; [|apply IH].
    destruct (Nat.eqb (pos st) p).
    + constructor; [auto using Forall_slice|].
      destruct (match_at false r true p (c :: s));
        [constructor; [auto using Forall_slice | apply IH] | apply IH].
    + constructor; [auto using Forall_slice | apply IH].
Qed.

Lemma Forall_re_split : forall r (s : str),
  Forall P s -> Forall (Forall P) (Re.split r s).
Proof. intros. now apply Forall_split_go. Qed.

Lemma Forall_split_all : forall seps (commands : list str),
  Forall (Forall P) commands -> Forall (Forall P) (split_all seps commands).
Proof.
  unfold split_all.
  induction seps as [|r seps IH]; intros commands H; cbn [fold_left]; auto.
  apply IH. apply Forall_flat_map.
  eapply Forall_impl; [|exact H]. intros. now apply Forall_re_split.
Qed.

Lemma Forall_clean : forall commands : list str,
  Forall (Forall P) commands -> Forall (Forall P) (clean commands).
Proof.
  intros commands H. unfold clean.
  apply Forall_forall. intros x Hx.
  apply filter_In in Hx. destruct Hx as [Hx _].
  apply in_map_iff in Hx. destruct Hx as (y & <- & Hy).
  apply Forall_strip. rewrite Forall_forall in H. auto.
Qed.

Lemma Forall_split_compound : forall command : str,
  Forall P command -> Forall (Forall P) (_split_compound_command_enhanced command).
Proof.
  intros. unfold _split_compound_command_enhanced.
  apply Forall_clean, Forall_split_all. auto.
Qed.

(** The groups of a match are slices of the subject. *)
Lemma every_search : forall ic r (s : str) g,
  Forall P s -> search ic r s = Some g -> Forall (every P) g.
Proof.
  intros ic r s g Hs. unfold search.
  destruct (search_from ic r 0 s) as [mt|]; [|discriminate].
  intros [= <-]. unfold groups.
  apply Forall_forall. intros x Hx.
  apply in_map_iff in Hx. destruct Hx as (n & <- & _).
  unfold group_text. destruct (group_span (S n) (m_caps mt)) as [[a b]|]; cbn; auto.
  now apply Forall_slice.
Qed.

Lemma every_first_match : forall ic ps (s : str) g,
  Forall P s -> first_match ic ps s = Some g -> Forall (every P) g.
Proof.
  intros ic ps s g Hs. induction ps as [|p ps IH]; cbn; [discriminate|].
  destruct (search ic p s) as [g'|] eqn:Hsearch; [|exact IH].
  intros [= <-]. eapply every_search; eauto.
Qed.

Lemma every_match_types : forall tps (s : str) t g,
  Forall P s -> match_types tps s = Some (t, g) -> Forall (every P) g.
Proof.
  intros tps s t g Hs. induction tps as [|[t' ps] tps IH]; cbn; [discriminate|].
  destruct (first_match true ps s) as [g'|] eqn:Hfirst; [|exact IH].
  intros [= <- <-]. eapply every_first_match; eauto.
Qed.

Lemma every_item : forall groups i g,
  Forall (every P) groups -> item groups i = Ok g -> every P g.
Proof.
  intros groups i g H. unfold item.
  destruct (nth_error groups i) as [g'|] eqn:Hnth; [|discriminate].
  intros [= <-]. rewrite Forall_forall in H. eauto using nth_error_In.
Qed.



End CharsKept.





















(** C10, as stated: no target and no value of an action that
    [process_command] returns would hold a capital letter.  The letter
    U+2102, the double-struck capital C, is one for [str.isupper] and has no
    lowercase form: [str.lower] leaves it, and "click" followed by it gives
    a Click action whose target is that capital letter. *)
Lemma capital_without_lowercase_is_kept :
  let command := lit "click " ++ [8450%N] in
  let clicked := action CLICK (Some [8450%N]) None (Some (lit "Click on " ++ [8450%N])) in
  isupper_char 8450%N = true
  /\ lower command = command
  /\ process_command command = Ok [clicked]
  /\ ~ no_capitals clicked
  /\ ~ (forall command actions,
          process_command command = Ok actions -> Forall no_capitals actions).
Proof.
  assert (Hrun : process_command (lit "click " ++ [8450%N])
                 = Ok [action CLICK (Some [8450%N]) None
                              (Some (lit "Click on " ++ [8450%N]))])
    by (vm_compute; reflexivity).
  assert (Hno : ~ no_capitals (action CLICK (Some [8450%N]) None
                                      (Some (lit "Click on " ++ [8450%N])))).
  { intros [Ht _]. cbn [target every action] in Ht.
    inversion Ht as [|? ? Hc _]; subst. vm_compute in Hc. discriminate. }
  cbv zeta. split; [vm_compute; reflexivity|].
  split; [vm_compute; reflexivity|].
  split; [exact Hrun|]. split; [exact Hno|].
  intros Hall. specialize (Hall _ _ Hrun).
  inversion Hall; subst. contradiction.
Qed.



(** ** Splitting commands *)

Import ThenAlone.


Section Matching.
(** How the matcher runs on the parts the separators are made of. *)
Variable A : Type.








End Matching.











Section Scanning.
(** [re.split] over text in which the separator finds no match. *)
Variable r : regex.
Variable whole : str.








End Scanning.
















Lemma lstrip_no_space : forall s : str, no_space_ahead s -> lstrip s = s.
Proof. intros [|c s] H; cbn in *; [reflexivity | now rewrite H]. Qed.













(** * Further properties *)

(** ** Stripping *)

Lemma lstrip_head : forall s : str, no_space_ahead (lstrip s).
Proof.
  induction s as [|c s IH]; cbn; [exact I|].
  destruct (isspace c) eqn:Hc; [exact IH | exact Hc].
Qed.

Lemma lstrip_snoc : forall (s : str) (c : char),
  isspace c = false -> lstrip (s ++ [c]) = lstrip s ++ [c].
Proof.
  intros s c Hc. induction s as [|x s IH]; cbn.
  - now rewrite Hc.
  - destruct (isspace x); [exact IH | reflexivity].
Qed.

Lemma rstrip_cons : forall (c : char) (s : str),
  isspace c = false -> rstrip (c :: s) = c :: rstrip s.
Proof.
  intros c s Hc. unfold rstrip. cbn [rev].
  rewrite lstrip_snoc by exact Hc. rewrite rev_app_distr. reflexivity.
Qed.

Lemma rstrip_head : forall s : str, no_space_ahead s -> no_space_ahead (rstrip s).
Proof.
  intros [|c s] H; [exact I|]. cbn in H. rewrite rstrip_cons by exact H. exact H.
Qed.

Lemma rstrip_rstrip : forall s : str, rstrip (rstrip s) = rstrip s.
Proof.
  intros s. unfold rstrip. rewrite rev_involutive.
  now rewrite (lstrip_no_space _ (lstrip_head _)).
Qed.

Lemma strip_strip : forall s : str, strip (strip s) = strip s.
Proof.
  intros s. unfold strip.
  rewrite (lstrip_no_space (rstrip (lstrip s))).
  - apply rstrip_rstrip.
  - apply rstrip_head, lstrip_head.
Qed.

Lemma fragments_stripped : forall command : str,
  Forall (fun fragment => strip fragment = fragment)
         (_split_compound_command_enhanced command).
Proof.
  intros command. apply Forall_forall. intros fragment Hin.
  unfold _split_compound_command_enhanced, clean in Hin.
  apply filter_In in Hin. destruct Hin as [Hin _].
  apply in_map_iff in Hin. destruct Hin as (piece & <- & _).
  apply strip_strip.
Qed.

(** X1: every fragment [_split_compound_command_enhanced] returns is
    stripped (stripping it again changes nothing), is longer than two
    characters, and is made of characters of the command. *)
Theorem fragments_are_stripped_and_long : forall command : str,
  Forall (fun fragment =>
            strip fragment = fragment
            /\ 2 < List.length fragment
            /\ Forall (fun c => In c command) fragment)
         (_split_compound_command_enhanced command).
Proof.
  intros command.
  pose proof (Forall_split_compound (fun c => In c command) command) as Hkept.
  assert (Hself : Forall (fun c => In c command) command)
    by (apply Forall_forall; auto).
  specialize (Hkept Hself).
  pose proof (fragments_stripped command) as Hstripped.
  rewrite Forall_forall in Hkept, Hstripped |- *.
  intros fragment Hin. split; [|split]; auto.
  unfold _split_compound_command_enhanced, clean in Hin.
  apply filter_In in Hin. destruct Hin as [_ Hlen].
  now apply Nat.ltb_lt in Hlen.
Qed.

(** ** One action for a fragment *)

Lemma process_subs_length : forall subs actions result,
  Forall (fun sub => strip sub = sub) subs ->
  process_subs subs actions = Ok result ->
  List.length actions
  + List.length (filter (fun sub => Nat.ltb 5 (List.length sub)) subs)
  <= List.length result <= List.length actions + List.length subs.
Proof.
  induction subs as [|sub subs IH]; intros actions result Hsubs; cbn [process_subs].
  - intros [= <-]. cbn. lia.
  - inversion Hsubs as [|? ? Hsub Hrest]; subst. rewrite Hsub.
    assert (Hgrow : forall x, process_subs subs (actions ++ [x]) = Ok result ->
              List.length actions
              + List.length (filter (fun sub => Nat.ltb 5 (List.length sub)) (sub :: subs))
              <= List.length result <= List.length actions + List.length (sub :: subs)).
    { intros x Hrun. apply IH in Hrun; [|exact Hrest].
      rewrite length_app in Hrun. cbn [List.length filter] in *.
      destruct (Nat.ltb 5 (List.length sub)); cbn [List.length]; lia. }
    assert (Hskip : Nat.ltb 5 (List.length sub) = false ->
              process_subs subs actions = Ok result ->
              List.length actions
              + List.length (filter (fun sub => Nat.ltb 5 (List.length sub)) (sub :: subs))
              <= List.length result <= List.length actions + List.length (sub :: subs)).
    { intros Hshort Hrun. apply IH in Hrun; [|exact Hrest].
      cbn [List.length filter]. rewrite Hshort. lia. }
    destruct sub as [|c sub']; [now apply Hskip|].
    destruct (_parse_single_command_enhanced (c :: sub') actions) as [[x|]|];
      cbn [rbind]; [apply Hgrow | | discriminate].
    destruct (_infer_complex_action (c :: sub') actions) as [x|] eqn:Hinfer;
      [apply Hgrow|].
    apply Hskip. unfold _infer_complex_action in Hinfer.
    destruct (if last_is_navigate actions
              then find (fun keyword => contains keyword (c :: sub')) interaction_keywords
              else None); [discriminate|].
    destruct (any_in _ (c :: sub') && any_in _ (c :: sub')); [discriminate|].
    destruct (Nat.ltb 5 (List.length (c :: sub'))); [discriminate | reflexivity].
Qed.

(** X2: [process_command] builds at most one action for a fragment of the
    stripped, lower-cased command, and one for every fragment longer than
    five characters, which is searched for where nothing else is made of
    it.  So only fragments of three to five characters can be dropped. *)
Theorem one_action_per_fragment : forall (command : str) actions,
  process_command command = Ok actions ->
  let fragments := _split_compound_command_enhanced (strip (lower command)) in
  List.length (filter (fun fragment => Nat.ltb 5 (List.length fragment)) fragments)
  <= List.length actions <= List.length fragments.
Proof.
  intros command actions Hrun. unfold process_command in Hrun.
  apply process_subs_length in Hrun; [exact Hrun|].
  apply fragments_stripped.
Qed.

Lemma one_action_per_fragment_witness :
  2 <= List.length
         [action CLICK (Some (lit "ok")) None (Some (lit "Click on ok"));
          action WAIT None (Some (lit "3")) (Some (lit "Wait for 3 seconds"))]
    <= 2.
Proof.
  assert (Hrun : process_command (lit "Click OK then wait 3")
                 = Ok [action CLICK (Some (lit "ok")) None (Some (lit "Click on ok"));
                       action WAIT None (Some (lit "3"))
                              (Some (lit "Wait for 3 seconds"))])
    by (vm_compute; reflexivity).
  pose proof (one_action_per_fragment _ _ Hrun) as Hbounds.
  vm_compute in Hbounds. exact Hbounds.
Defined.

(** ** The groups of a match *)

Lemma rep_greedy_inv : forall (A : Type) ok (k : nat -> str -> option A) s min p x,
  rep_greedy ok k min p s = Some x -> exists p' s', k p' s' = Some x.
Proof.
  intros A ok k. induction s as [|c s IH]; intros min p x; cbn [rep_greedy].
  - destruct min; [eauto | discriminate].
  - destruct (ok c).
    + destruct (rep_greedy ok k (Nat.pred min) (S p) s) as [y|] eqn:Hrec.
      * intros [= <-]. eauto.
      * destruct min; [eauto | discriminate].
    + destruct min; [eauto | discriminate].
Qed.

Lemma rep_lazy_inv : forall (A : Type) ok (k : nat -> str -> option A) s min p x,
  rep_lazy ok k min p s = Some x -> exists p' s', k p' s' = Some x.
Proof.
  intros A ok k. induction s as [|c s IH]; intros min p x; cbn [rep_lazy].
  - destruct min; [|discriminate]. destruct (k p []) eqn:Hk; [|discriminate].
    intros [= <-]. eauto.
  - destruct min.
    + destruct (k p (c :: s)) eqn:Hk; [intros [= <-]; eauto|].
      destruct (ok c); [eauto | discriminate].
    + destruct (ok c); [eauto | discriminate].
Qed.

Lemma grows_refl : forall g, grows g g.
Proof. intros g n H. exact H. Qed.

Lemma grows_trans : forall g1 g2 g3, grows g1 g2 -> grows g2 g3 -> grows g1 g3.
Proof. intros g1 g2 g3 H1 H2 n H. auto. Qed.

Lemma grows_set_group : forall n a b g, grows g (set_group n a b g).
Proof.
  intros n a b g k H. cbn. destruct (Nat.eqb n k); [discriminate | exact H].
Qed.

(** Where a pattern matched, the continuation was run with every group
    set that the pattern sets in all of its matches, and with the groups
    that were set before. *)
Lemma m_sets : forall r (A : Type) ic st (k : mstate -> option A) x,
  m ic r st k = Some x ->
  exists st', k st' = Some x
              /\ grows (groups_of st) (groups_of st')
              /\ forall n, sets n r = true -> group_span n (groups_of st') <> None.
Proof.
  induction r as [| p | c0 | r1 IH1 r2 IH2 | r1 IH1 r2 IH2 | greedy min c0
                  | r1 IH1 | g r1 IH1 | r1 IH1 |];
    intros A ic st k x; cbn [m sets].
  - intros H. exists st. split; [exact H|]. split; [apply grows_refl | discriminate].
  - destruct (rest st) as [|c s']; [discriminate|].
    destruct (lit_ok ic p c); [|discriminate].
    intros H. eexists. split; [exact H|]. split; [apply grows_refl | discriminate].
  - destruct (rest st) as [|c s']; [discriminate|].
    destruct (cls_ok ic c0 c); [|discriminate].
    intros H. eexists. split; [exact H|]. split; [apply grows_refl | discriminate].
  - intros H. apply IH1 in H. destruct H as (st1 & H & Hg1 & Hs1).
    apply IH2 in H. destruct H as (st2 & H & Hg2 & Hs2).
    exists st2. split; [exact H|]. split; [eapply grows_trans; eauto|].
    intros n Hn. apply Bool.orb_true_iff in Hn. destruct Hn as [Hn | Hn]; auto.
  - destruct (m ic r1 st k) as [y|] eqn:H1.
    + intros [= <-]. apply IH1 in H1. destruct H1 as (st1 & H & Hg1 & Hs1).
      exists st1. split; [exact H|]. split; [exact Hg1|].
      intros n Hn. apply Bool.andb_true_iff in Hn. apply Hs1. tauto.
    + intros H. apply IH2 in H. destruct H as (st2 & H & Hg2 & Hs2).
      exists st2. split; [exact H|]. split; [exact Hg2|].
      intros n Hn. apply Bool.andb_true_iff in Hn. apply Hs2. tauto.
  - intros H.
    assert (exists p' s', k (MState p' s' (groups_of st)) = Some x) as (p' & s' & Hk).
    { destruct greedy;
        [apply rep_greedy_inv in H | apply rep_lazy_inv in H]; exact H. }
    eexists. split; [exact Hk|]. split; [apply grows_refl | discriminate].
  - destruct (m ic r1 st k) as [y|] eqn:H1.
    + intros [= <-]. apply IH1 in H1. destruct H1 as (st1 & H & Hg1 & _).
      exists st1. split; [exact H|]. split; [exact Hg1 | discriminate].
    + intros H. exists st. split; [exact H|]. split; [apply grows_refl | discriminate].
  - intros H. apply IH1 in H. destruct H as (st1 & H & Hg1 & Hs1).
    eexists. split; [exact H|]. cbn [groups_of]. split.
    + eapply grows_trans; [exact Hg1 | apply grows_set_group].
    + intros n Hn. apply Bool.orb_true_iff in Hn. destruct Hn as [Hn | Hn].
      * cbn. now rewrite Hn.
      * apply grows_set_group. auto.
  - destruct (m ic r1 st (fun st1 => Some st1)) as [st1|] eqn:H1; [|discriminate].
    intros H. apply IH1 in H1. destruct H1 as (st1' & [= ->] & Hg1 & _).
    eexists. split; [exact H|]. split; [exact Hg1 | discriminate].
  - intros H.
    assert (Hk : k st = Some x).
    { destruct (rest st) as [|c [|c' s']]; [exact H | | discriminate].
      destruct (eqc c 10%N); [exact H | discriminate]. }
    exists st. split; [exact Hk|]. split; [apply grows_refl | discriminate].
Qed.

Lemma sets_ngroups : forall n r, sets n r = true -> n <= ngroups r.
Proof.
  intros n. induction r; cbn [sets ngroups]; try discriminate.
  - intros H. apply Bool.orb_true_iff in H. destruct H as [H | H]; [apply IHr1 in H | apply IHr2 in H]; lia.
  - intros H. apply Bool.andb_true_iff in H. destruct H as [H _]. apply IHr1 in H. lia.
  - intros H. apply Bool.orb_true_iff in H. destruct H as [H | H].
    + apply Nat.eqb_eq in H. lia.
    + apply IHr in H. lia.
Qed.

Lemma search_from_sets : forall ic r (s : str) p mt n,
  search_from ic r p s = Some mt ->
  sets n r = true ->
  group_span n (m_caps mt) <> None.
Proof.
  intros ic r. induction s as [|c s IH]; intros p mt n; cbn [search_from];
    destruct (match_at ic r false p _) as [st|] eqn:Hm;
    try discriminate; try (now apply IH).
  all: intros [= <-] Hn; cbn [m_caps];
    unfold match_at in Hm; apply m_sets in Hm;
    destruct Hm as (st' & Hk & _ & Hs);
    destruct (false && Nat.eqb (pos st') p); [discriminate|];
    injection Hk as <-; auto.
Qed.

Lemma search_has : forall ic r (s : str) g n,
  search ic r s = Some g -> sets n r = true -> 0 < n -> has g n.
Proof.
  intros ic r s g n Hsearch Hn Hpos. unfold search in Hsearch.
  destruct (search_from ic r 0 s) as [mt|] eqn:Hfrom; [|discriminate].
  injection Hsearch as <-.
  pose proof (search_from_sets _ _ _ _ _ _ Hfrom Hn) as Hspan.
  apply sets_ngroups in Hn.
  unfold has, groups. destruct n as [|n]; [lia|]. cbn [Nat.pred].
  rewrite nth_error_map.
  rewrite nth_error_seq. destruct (Nat.ltb n (ngroups r)) eqn:Hlt.
  - cbn. unfold group_text.
    destruct (group_span (S n) (m_caps mt)) as [[a b]|]; [eauto | congruence].
  - apply Nat.ltb_ge in Hlt. lia.
Qed.

Lemma first_match_has : forall ic ns ps (s : str) g,
  first_match ic ps s = Some g ->
  all_set ns ps = true ->
  Forall (fun n => 0 < n) ns ->
  Forall (has g) ns.
Proof.
  intros ic ns ps s g. induction ps as [|p ps IH]; cbn [first_match all_set forallb];
    [discriminate|].
  intros Hrun Hall Hpos. apply Bool.andb_true_iff in Hall. destruct Hall as [Hp Hps].
  destruct (search ic p s) as [g'|] eqn:Hsearch; [|now apply IH].
  injection Hrun as <-.
  rewrite forallb_forall in Hp. rewrite Forall_forall in Hpos |- *.
  intros n Hn. eapply search_has; eauto.
Qed.

Lemma needed_positive : forall t, Forall (fun n => 0 < n) (needed t).
Proof. intros t. destruct t; cbn; repeat constructor. Qed.

Lemma match_types_has : forall tps (s : str) t g,
  match_types tps s = Some (t, g) ->
  covered tps = true ->
  Forall (has g) (needed t).
Proof.
  induction tps as [|[t' ps] tps IH]; intros s t g; cbn [match_types covered forallb];
    [discriminate|].
  intros Hrun Hall. apply Bool.andb_true_iff in Hall. destruct Hall as [Hp Hps].
  destruct (first_match true ps s) as [g'|] eqn:Hfirst; [|now apply (IH s)].
  injection Hrun as <- <-. cbn [fst snd] in Hp.
  eapply first_match_has; eauto using needed_positive.
Qed.

Lemma has_item : forall g n, has g n -> exists t, item g (Nat.pred n) = Ok (Some t).
Proof. intros g n (t & H). exists t. unfold item. now rewrite H. Qed.

Lemma has_stripped : forall g n, has g n -> exists t, stripped g (Nat.pred n) = Ok t.
Proof.
  intros g n H. apply has_item in H. destruct H as (t & H).
  exists (strip t). unfold stripped. now rewrite H.
Qed.

Lemma has_length : forall g n, has g n -> n <= List.length g \/ n = 0.
Proof.
  intros g n (t & H).
  assert (Nat.pred n < List.length g) by (apply nth_error_Some; congruence).
  lia.
Qed.

(** A string of digits that [int] does not read holds a superscript
    digit. *)
Lemma int_of_digits : forall s : str,
  isdigit s = true -> Forall no_superscript s -> exists n, int s = Some n.
Proof.
  intros s Hd Hs. unfold isdigit, int in *.
  destruct s as [|c s]; [discriminate|].
  assert (Hdec : forallb isdecimal (c :: s) = true).
  { apply forallb_forall. intros x Hx.
    rewrite forallb_forall in Hd. rewrite Forall_forall in Hs.
    apply Hs; auto. }
  rewrite Hdec. eauto.
Qed.

(** [_create_action] on the groups of a pattern of its type: it raises
    nothing but the [ValueError] of [int], and that on a superscript digit
    only. *)
Lemma create_action_raises : forall t g (command : str) e,
  Forall (has g) (needed t) ->
  _create_action t g command = Raise e ->
  e = ValueError /\ ~ Forall (every no_superscript) g.
Proof.
  intros t g command e Hg Hrun.
  destruct t; cbn [_create_action needed] in Hrun, Hg; try discriminate.
  - inversion Hg as [|? ? H1 _]; subst. apply has_stripped in H1.
    destruct H1 as (u & H1). cbn [Nat.pred] in H1. rewrite H1 in Hrun. discriminate.
  - inversion Hg as [|? ? H1 _]; subst. apply has_stripped in H1.
    destruct H1 as (u & H1). cbn [Nat.pred] in H1. rewrite H1 in Hrun. discriminate.
  - inversion Hg as [|? ? H1 Hg2]; subst. inversion Hg2 as [|? ? H2 _]; subst.
    pose proof (has_length _ _ H2) as Hlen.
    apply has_stripped in H1. apply has_stripped in H2.
    destruct H1 as (u & H1). destruct H2 as (v & H2). cbn [Nat.pred] in H1, H2.
    replace (Nat.leb 2 (List.length g)) with true in Hrun
      by (symmetry; apply Nat.leb_le; lia).
    rewrite H1, H2 in Hrun. discriminate.
  - inversion Hg as [|? ? H1 _]; subst.
    pose proof (has_item _ _ H1) as (g0 & Hitem). cbn [Nat.pred] in Hitem.
    rewrite Hitem in Hrun. cbn [rbind the_str] in Hrun.
    destruct (isdigit g0) eqn:Hd; [|discriminate].
    destruct (int g0) as [seconds|] eqn:Hint; [discriminate|].
    injection Hrun as <-. split; [reflexivity|].
    intros Hall.
    assert (Hg0 : Forall no_superscript g0).
    { change (every no_superscript (Some g0)). eapply every_item; eauto. }
    destruct (int_of_digits g0 Hd Hg0) as (n & Hn). congruence.
  - inversion Hg as [|? ? H1 _]; subst. apply has_stripped in H1.
    destruct H1 as (u & H1). cbn [Nat.pred] in H1. rewrite H1 in Hrun. discriminate.
Qed.

Lemma patterns_covered :
  covered action_patterns = true
  /\ all_set [1; 2] auth_patterns = true
  /\ all_set [1] find_patterns = true
  /\ all_set [1] completion_patterns = true.
Proof. repeat split; vm_compute; reflexivity. Qed.

Lemma parse_single_raises : forall (command : str) e,
  _parse_single_command command = Raise e ->
  e = ValueError /\ ~ Forall no_superscript command.
Proof.
  intros command e. unfold _parse_single_command.
  destruct (match_types action_patterns command) as [[t g]|] eqn:Hmatch; [|discriminate].
  destruct (_create_action t g command) as [a|e'] eqn:Hcreate; cbn [rbind];
    [discriminate|].
  intros [= <-].
  apply create_action_raises in Hcreate.
  - destruct Hcreate as [-> Hno]. split; [reflexivity|].
    intros Hc. apply Hno. eapply every_match_types; eauto.
  - eapply match_types_has; [exact Hmatch | apply patterns_covered].
Qed.

Lemma complex_phrases_returns : forall (command : str) previous_actions,
  exists a, _parse_complex_phrases command previous_actions = Ok a.
Proof.
  intros command previous_actions. unfold _parse_complex_phrases, group.
  destruct patterns_covered as (_ & Hauth & Hfind & Hdone).
  destruct (first_match false auth_patterns command) as [g|] eqn:H1.
  { eapply first_match_has in H1; [|exact Hauth|repeat constructor].
    inversion H1 as [|? ? Hg1 H1']; subst. inversion H1' as [|? ? Hg2 _]; subst.
    pose proof (has_length _ _ Hg2) as Hlen.
    apply has_item in Hg1. apply has_item in Hg2.
    destruct Hg1 as (t1 & ->). destruct Hg2 as (t2 & ->). cbn [rbind the_str].
    replace (Nat.ltb 1 (List.length g)) with true
      by (symmetry; apply Nat.ltb_lt; lia).
    cbn [rbind the_str]. eauto. }
  destruct (first_match false find_patterns command) as [g|] eqn:H2.
  { eapply first_match_has in H2; [|exact Hfind|repeat constructor].
    inversion H2 as [|? ? Hg1 _]; subst.
    apply has_item in Hg1. destruct Hg1 as (t1 & ->). cbn [rbind the_str]. eauto. }
  destruct (first_match false completion_patterns command) as [g|] eqn:H3; [|eauto].
  eapply first_match_has in H3; [|exact Hdone|repeat constructor].
  inversion H3 as [|? ? Hg1 _]; subst.
  apply has_item in Hg1. destruct Hg1 as (t1 & ->). cbn [rbind the_str]. eauto.
Qed.

Lemma process_subs_raises : forall subs actions e,
  process_subs subs actions = Raise e ->
  e = ValueError /\ ~ Forall (Forall no_superscript) subs.
Proof.
  induction subs as [|sub subs IH]; intros actions e; cbn [process_subs];
    [discriminate|].
  assert (Hrest : forall acts, process_subs subs acts = Raise e ->
            e = ValueError /\ ~ Forall (Forall no_superscript) (sub :: subs)).
  { intros acts Hrun. apply IH in Hrun. destruct Hrun as [-> Hno].
    split; [reflexivity|]. intros Hall. inversion Hall; auto. }
  destruct (strip sub) as [|c sub'] eqn:Hsub; [apply Hrest|].
  unfold _parse_single_command_enhanced.
  destruct (_parse_single_command (c :: sub')) as [[x|]|e'] eqn:Hsingle; cbn [rbind].
  - apply Hrest.
  - destruct (complex_phrases_returns (c :: sub') actions) as ([x|] & ->).
    + apply Hrest.
    + destruct (_infer_complex_action (c :: sub') actions); apply Hrest.
  - intros [= <-]. apply parse_single_raises in Hsingle.
    destruct Hsingle as [-> Hno]. split; [reflexivity|].
    intros Hall. inversion Hall as [|? ? Hs _]; subst. apply Hno.
    rewrite <- Hsub. now apply Forall_strip.
Qed.

Lemma lower_char_no_superscript : forall c : char,
  no_superscript c -> no_superscript (lower_char c).
Proof.
  intros c Hc. destruct (N.eq_dec (lower_char c) c) as [->|Hmoved]; [exact Hc|].
  pose proof (lower_char_moved
                (fun _ d => negb (isdigit_char d) || isdecimal d) c) as H.
  cbv beta in H. specialize (H ltac:(vm_compute; reflexivity) Hmoved).
  unfold no_superscript. intros Hd. rewrite Hd in H. exact H.
Qed.

Lemma lower_from_no_superscript : forall s before : str,
  Forall no_superscript s -> Forall no_superscript (lower_from before s).
Proof.
  induction s as [|c s IH]; intros before H; cbn [lower_from]; [constructor|].
  inversion H as [|? ? Hc Hs]; subst.
  apply Forall_app. split; [|now apply IH].
  destruct (eqc c 931%N).
  - destruct (final_sigma before s); repeat constructor; vm_compute; discriminate.
  - unfold lower_full. destruct (eqc c 304%N).
    + repeat constructor; vm_compute; discriminate.
    + constructor; [now apply lower_char_no_superscript | constructor].
Qed.

Lemma lower_no_superscript : forall s : str,
  Forall no_superscript s -> Forall no_superscript (lower s).
Proof. intros s. apply lower_from_no_superscript. Qed.

(** X3: the only exception [process_command] raises is [ValueError]: every
    group [_create_action] and [_parse_complex_phrases] read without a test
    takes part in every match of its pattern, so no [IndexError] and no
    [AttributeError] comes of a command. *)
Theorem process_command_raises_value_error_only : forall (command : str) e,
  process_command command = Raise e -> e = ValueError.
Proof.
  intros command e Hrun. unfold process_command in Hrun.
  apply process_subs_raises in Hrun. tauto.
Qed.

Lemma process_command_raises_value_error_only_witness : ValueError = ValueError.
Proof.
  apply (process_command_raises_value_error_only (lit "wait for " ++ [178%N])).
  vm_compute. reflexivity.
Defined.

(** X4: [process_command] returns a sequence of actions for every command
    of Basic Latin and Latin-1 characters that holds none of the superscript
    digits U+00B2, U+00B3 and U+00B9 and has at most 4300 characters (so
    that no numeral in it reaches the interpreter's limit on the digits of
    [int]). *)
Theorem process_command_returns_without_superscripts : forall command : str,
  Forall (fun c => (c <= 255)%N) command ->
  List.length command <= 4300 ->
  Forall no_superscript command ->
  exists actions, process_command command = Ok actions.
Proof.
  intros command _ _ Hc.
  destruct (process_command command) as [actions|e] eqn:Hrun; [eauto|].
  unfold process_command in Hrun. apply process_subs_raises in Hrun.
  destruct Hrun as [_ Hno]. exfalso. apply Hno.
  apply Forall_split_compound. apply Forall_strip. now apply lower_no_superscript.
Qed.

Lemma process_command_returns_without_superscripts_witness :
  exists actions, process_command (lit "wait for 5 seconds then click ok") = Ok actions.
Proof.
  apply process_command_returns_without_superscripts;
    cbn [lit list_ascii_of_string map List.length].
  - repeat (apply Forall_cons; [vm_compute; discriminate|]). apply Forall_nil.
  - lia.
  - repeat (apply Forall_cons;
            [vm_compute; intros H; first [reflexivity | discriminate H]|]).
    apply Forall_nil.
Defined.

(** ** What an action carries *)

Ltac wf_now :=
  unfold well_formed, is_set; cbn [action_type target value parameters description action];
  repeat split; try discriminate; eauto;
  try solve [ left; split; [reflexivity | first [discriminate | eauto]]
            | right; split; [discriminate | reflexivity] ].

Lemma create_action_well_formed : forall t g (command : str) a,
  _create_action t g command = Ok a -> well_formed a.
Proof.
  intros t g command a Hrun.
  destruct t; cbn [_create_action] in Hrun.
  - destruct (stripped g 0); cbn [rbind] in Hrun; [|discriminate].
    injection Hrun as <-. wf_now.
  - destruct (stripped g 0); cbn [rbind] in Hrun; [|discriminate].
    injection Hrun as <-. wf_now.
  - match type of Hrun with
    | rbind ?c _ = _ => destruct c as [[v tg]|]
    end; cbn [rbind] in Hrun; [|discriminate].
    injection Hrun as <-. wf_now.
  - injection Hrun as <-. wf_now.
  - destruct (item g 0) as [[g0|]|]; cbn [rbind the_str] in Hrun; try discriminate.
    destruct (isdigit g0).
    + destruct (int g0) as [seconds|]; [|discriminate].
      injection Hrun as <-. wf_now.
    + injection Hrun as <-. wf_now.
  - injection Hrun as <-. wf_now.
  - injection Hrun as <-. wf_now.
  - injection Hrun as <-. wf_now.
  - injection Hrun as <-. wf_now.
  - destruct (stripped g 0); cbn [rbind] in Hrun; [|discriminate].
    injection Hrun as <-. wf_now.
  - injection Hrun as <-. wf_now.
  - injection Hrun as <-. wf_now.
  - injection Hrun as <-. wf_now.
Qed.

Lemma infer_keywords_well_formed : forall (command : str) a,
  _infer_action_from_keywords command = Some a -> well_formed a.
Proof.
  intros command a. unfold _infer_action_from_keywords.
  repeat match goal with
         | |- (if ?b then _ else _) = _ -> _ => destruct b
         end; try discriminate; intros [= <-]; wf_now.
Qed.

Lemma complex_phrases_well_formed : forall (command : str) previous_actions a,
  _parse_complex_phrases command previous_actions = Ok (Some a) -> well_formed a.
Proof.
  intros command previous_actions a. unfold _parse_complex_phrases, group.
  destruct (first_match false auth_patterns command) as [g|].
  { destruct (item g (Nat.pred 1)) as [[m1|]|]; cbn [rbind the_str]; try discriminate.
    match goal with
    | |- rbind ?c _ = _ -> _ => destruct c as [tg|]
    end; cbn [rbind]; [|discriminate].
    intros [= <-]. wf_now. }
  destruct (first_match false find_patterns command) as [g|].
  { destruct (item g (Nat.pred 1)) as [[t1|]|]; cbn [rbind the_str]; try discriminate.
    intros [= <-]. wf_now. }
  destruct (first_match false completion_patterns command) as [g|]; [|discriminate].
  destruct (item g (Nat.pred 1)) as [[t1|]|]; cbn [rbind the_str]; try discriminate.
  intros [= <-]. wf_now.
Qed.

Lemma infer_complex_well_formed : forall (command : str) previous_actions a,
  _infer_complex_action command previous_actions = Some a -> well_formed a.
Proof.
  intros command previous_actions a. unfold _infer_complex_action.
  destruct (if last_is_navigate previous_actions
            then find (fun keyword => contains keyword command) interaction_keywords
            else None) as [keyword|].
  - intros [= <-]. wf_now.
  - destruct (any_in _ command && any_in _ command).
    + intros [= <-]. wf_now.
    + destruct (Nat.ltb 5 (List.length command)); [|discriminate].
      intros [= <-]. wf_now.
Qed.

Lemma process_subs_well_formed : forall subs actions result,
  Forall well_formed actions ->
  process_subs subs actions = Ok result ->
  Forall well_formed result.
Proof.
  induction subs as [|sub subs IH]; intros actions result Hacts; cbn [process_subs].
  - now intros [= <-].
  - destruct (strip sub) as [|c sub']; [now apply IH|].
    destruct (_parse_single_command_enhanced (c :: sub') actions) as [[x|]|] eqn:Hparse;
      cbn [rbind]; try discriminate.
    + apply IH. apply Forall_app; split; [exact Hacts|]. constructor; [|constructor].
      unfold _parse_single_command_enhanced in Hparse.
      destruct (_parse_single_command (c :: sub')) as [[y|]|] eqn:Hsingle;
        cbn [rbind] in Hparse; try discriminate.
      * injection Hparse as <-. unfold _parse_single_command in Hsingle.
        destruct (match_types action_patterns (c :: sub')) as [[t g]|].
        -- destruct (_create_action t g (c :: sub')) as [a'|] eqn:Hcreate;
             cbn [rbind] in Hsingle; [|discriminate].
           injection Hsingle as <-. eapply create_action_well_formed; eauto.
        -- injection Hsingle as Hinfer. eapply infer_keywords_well_formed; eauto.
      * eapply complex_phrases_well_formed; eauto.
    + destruct (_infer_complex_action (c :: sub') actions) as [x|] eqn:Hinfer.
      * apply IH. apply Forall_app; split; [exact Hacts|]. constructor; [|constructor].
        eapply infer_complex_well_formed; eauto.
      * now apply IH.
Qed.

(** X5: what the actions of [process_command] carry.  Every action has a
    description and no parameters.  Navigate and Click have a target and no
    value; Type and Custom have both; Login has a target.  A Wait action
    has either a value, the decimal numeral of a number of seconds, or a
    target, the condition, and never both; a Search action has its query
    either in the value (from a search pattern) or in the target (from the
    other paths), and never in both.  The other types have no value. *)
Theorem process_command_actions_well_formed : forall (command : str) actions,
  process_command command = Ok actions -> Forall well_formed actions.
Proof.
  intros command actions Hrun. unfold process_command in Hrun.
  eapply process_subs_well_formed; [constructor | exact Hrun].
Qed.

Lemma process_command_actions_well_formed_witness :
  Forall well_formed
    [action SEARCH (Some (lit "quizzes")) None (Some (lit "Find quizzes"))].
Proof.
  apply (process_command_actions_well_formed (lit "look for my quizzes")).
  vm_compute. reflexivity.
Defined.

(** ** Suggestions *)

Lemma startswith_contains : forall s p : str,
  startswith s p = true -> contains p s = true.
Proof. intros [|c s] p H; cbn [contains]; now rewrite H. Qed.

Lemma contains_nil : forall s : str, contains [] s = true.
Proof. intros [|c s]; reflexivity. Qed.

Lemma filter_same : forall (A : Type) (f g : A -> bool) (l : list A),
  (forall x, f x = g x) -> filter f l = filter g l.
Proof.
  intros A f g l H. induction l as [|x l IH]; cbn; [reflexivity|].
  now rewrite H, IH.
Qed.

Lemma in_firstn : forall (A : Type) n (l : list A) x, In x (firstn n l) -> In x l.
Proof.
  intros A. induction n as [|n IH]; intros [|y l] x; cbn; try tauto.
  intros [H | H]; [left | right]; auto.
Qed.

(** X6: [get_action_suggestions] answers with the starters that contain
    the stripped, lower-cased input, in the order of the list and cut after
    the tenth (the test [startswith] adds nothing to the test [in]).  So it
    never returns more than ten suggestions, and for an input that is blank
    it returns the first ten of the thirteen starters. *)
Theorem suggestions_contain_the_input : forall partial_command : str,
  let partial := strip (lower partial_command) in
  let suggestions := get_action_suggestions partial_command in
  suggestions = firstn 10 (filter (contains partial) starters)
  /\ List.length suggestions <= 10
  /\ Forall (fun s => In s starters /\ contains partial s = true) suggestions
  /\ (partial = [] -> suggestions = firstn 10 starters
                      /\ ~ In (lit "find") suggestions).
Proof.
  intros partial_command partial suggestions.
  assert (Heq : suggestions = firstn 10 (filter (contains partial) starters)).
  { unfold suggestions, get_action_suggestions. fold partial. f_equal.
    apply filter_same. intros s.
    destruct (startswith s partial) eqn:Hs; [|reflexivity].
    cbn. symmetry. now apply startswith_contains. }
  split; [exact Heq|]. split; [|split].
  - rewrite Heq. apply firstn_le_length.
  - rewrite Heq. apply Forall_forall. intros s Hs.
    apply in_firstn in Hs.
    apply filter_In in Hs. exact Hs.
  - intros Hblank. rewrite Heq, Hblank.
    rewrite (filter_same _ (contains []) (fun _ => true) _ contains_nil).
    split; [reflexivity|].
    intros Hin. repeat (destruct Hin as [Hin | Hin]; [discriminate Hin|]). exact Hin.
Qed.

(** ** One command through the executor *)

Section CommandFacts.
Variable Page : Type.
Variable h : Executor.handlers Page.
Variable str_of_exn : exn -> str.

Lemma execute_action_ret : forall a pg,
  exists pg' o, Executor._execute_action h a pg = (pg', Ret o).
Proof.
  intros a pg. unfold Executor._execute_action.
  destruct (Executor._execute_action_body h a pg) as [pg' [o | t]]; eauto.
Qed.

Lemma run_actions_spec : forall actions command results (x : Command.executor Page),
  exists x' outcomes new,
    Command.run_actions h command actions results x = (x', Ret (results ++ outcomes))
    /\ Command.execution_log x' = Command.execution_log x ++ new
    /\ map Command.entry_action new = firstn (List.length outcomes) actions
    /\ map Command.entry_result new = outcomes
    /\ Forall (fun e => Command.entry_command e = command) new
    /\ List.length outcomes <= List.length actions
    /\ Forall (fun o => Executor.success o = true) (removelast outcomes)
    /\ (forallb Executor.success outcomes = true ->
        List.length outcomes = List.length actions)
    /\ (actions <> [] -> outcomes <> []).
Proof.
  induction actions as [|a rest IH]; intros command results x; cbn [Command.run_actions].
  - exists x, [], []. rewrite !app_nil_r. cbn. repeat split; auto.
  - destruct (execute_action_ret a (Command.page_of x)) as (pg & o & ->).
    destruct (Executor.success o) eqn:Ho; cbn [negb].
    + destruct (IH command (results ++ [o])
                   (Command.NLExecutor pg (Command.execution_log x
                                          ++ [Command.Entry command a o])))
        as (x' & outcomes & new & Hrun & Hlog & Hacts & Hres & Hcmd & Hlen & Hok & Hall & _).
      exists x', (o :: outcomes), (Command.Entry command a o :: new).
      rewrite Hrun, Hlog. cbn [Command.execution_log].
      rewrite <- !app_assoc. cbn [app map List.length firstn
                                  Command.entry_action Command.entry_result].
      rewrite Hacts, Hres.
      repeat split; auto.
      * lia.
      * destruct outcomes as [|o' outcomes]; [constructor|].
        change (removelast (o :: o' :: outcomes))
          with (o :: removelast (o' :: outcomes)).
        constructor; assumption.
      * cbn [forallb]. rewrite Ho. cbn [andb]. intros H. now rewrite (Hall H).
      * discriminate.
    + exists (Command.NLExecutor pg (Command.execution_log x
                                     ++ [Command.Entry command a o])),
             [o], [Command.Entry command a o].
      cbn. rewrite Ho. repeat split; auto; try discriminate.
      lia.
Qed.

(** X7: [execute_command] runs the actions of a command in order and
    stops at the first one that fails.  Where the parser returns actions,
    the report lists the outcomes of the actions that were run: at least
    one, at most as many as there are actions, all but the last a success;
    the log of the executor grows by one entry for each action run, in
    order, and no later action is run or logged.  The command is reported a
    success where every outcome is one, and then no action was left out. *)
Theorem execute_command_stops_at_first_failure :
  forall (command : str) actions (x : Command.executor Page),
    process_command command = Ok actions ->
    actions <> [] ->
    exists outcomes new,
      Command.results (snd (Command.execute_command h str_of_exn command x))
      = Some outcomes
      /\ Command.actions_executed (snd (Command.execute_command h str_of_exn command x))
         = Some (List.length outcomes)
      /\ 0 < List.length outcomes <= List.length actions
      /\ Forall (fun o => Executor.success o = true) (removelast outcomes)
      /\ Command.execution_log (fst (Command.execute_command h str_of_exn command x))
         = Command.execution_log x ++ new
      /\ map Command.entry_action new = firstn (List.length outcomes) actions
      /\ map Command.entry_result new = outcomes
      /\ Command.success (snd (Command.execute_command h str_of_exn command x))
         = forallb Executor.success outcomes
      /\ (Command.success (snd (Command.execute_command h str_of_exn command x)) = true ->
          List.length outcomes = List.length actions).
Proof.
  intros command actions x Hparse Hne.
  unfold Command.execute_command. rewrite Hparse.
  destruct actions as [|a rest]; [congruence|].
  destruct (run_actions_spec (a :: rest) command [] x)
    as (x' & outcomes & new & Hrun & Hlog & Hacts & Hres & _ & Hlen & Hok & Hall & Hsome).
  rewrite Hrun. cbn [app fst snd Command.combined Command.results
                     Command.actions_executed Command.success].
  exists outcomes, new. repeat split; auto.
  destruct outcomes; [now elim Hsome | cbn; lia].
Qed.

(** X8: a report of success means that the parser returned actions, that
    every one of them was run, and that each was a success; a command that
    was not understood, or on which the parser raised, is never reported a
    success. *)
Theorem execute_command_success_means_all_ran :
  forall (command : str) (x : Command.executor Page),
    Command.success (snd (Command.execute_command h str_of_exn command x)) = true ->
    exists actions outcomes,
      process_command command = Ok actions
      /\ actions <> []
      /\ Command.results (snd (Command.execute_command h str_of_exn command x))
         = Some outcomes
      /\ List.length outcomes = List.length actions
      /\ forallb Executor.success outcomes = true.
Proof.
  intros command x. unfold Command.execute_command.
  destruct (process_command command) as [[|a rest]|e] eqn:Hparse;
    cbn [snd Command.success Command.raised Command.not_understood]; try discriminate.
  destruct (run_actions_spec (a :: rest) command [] x)
    as (x' & outcomes & new & Hrun & _ & _ & _ & _ & _ & _ & Hall & _).
  rewrite Hrun. cbn [app snd Command.combined Command.results Command.success].
  intros Hok. exists (a :: rest), outcomes. repeat split; auto. discriminate.
Qed.

End CommandFacts.

Lemma execute_command_stops_at_first_failure_witness :
  exists outcomes,
    Command.results
      (snd (Command.execute_command Stub.handlers (fun _ => [])
              (lit "click ok then go to example.com then click go")
              (Command.NLExecutor tt [])))
    = Some outcomes
    /\ List.length outcomes <= 3.
Proof.
  destruct (execute_command_stops_at_first_failure unit Stub.handlers (fun _ => [])
              (lit "click ok then go to example.com then click go")
              [ action CLICK (Some (lit "ok")) None (Some (lit "Click on ok"));
                action NAVIGATE (Some (lit "https://example.com")) None
                       (Some (lit "Navigate to https://example.com"));
                action CLICK (Some (lit "go")) None (Some (lit "Click on go")) ]
              (Command.NLExecutor tt []))
    as (outcomes & new & Hres & _ & Hlen & _).
  - vm_compute. reflexivity.
  - discriminate.
  - exists outcomes. split; [exact Hres | exact (proj2 Hlen)].
Defined.

Lemma execute_command_success_means_all_ran_witness :
  exists actions outcomes,
    process_command (lit "click ok then select go") = Ok actions
    /\ actions <> []
    /\ Command.results
         (snd (Command.execute_command Stub.handlers (fun _ => [])
                 (lit "click ok then select go") (Command.NLExecutor tt [])))
       = Some outcomes
    /\ List.length outcomes = List.length actions
    /\ forallb Executor.success outcomes = true.
Proof.
  apply (execute_command_success_means_all_ran unit Stub.handlers (fun _ => [])).
  vm_compute. reflexivity.
Defined.

(** ** Waiting *)






Section WaitFacts.
Variable Page : Type.
Variable sleep : N -> Page -> Page * res unit.
Variable wait_for_selector : str -> N -> Page -> Page * res unit.


End WaitFacts.


(** ** Running the engine *)

Section RunFacts.
Variable World : Type.

Lemma bind_ret_inv : forall (A C : Type) (c : M World A) (f : A -> M World C) s s' b,
  bind c f s = (s', Ret b) ->
  exists s1 a, c s = (s1, Ret a) /\ f a s1 = (s', Ret b).
Proof.
  intros A C c f s s' b. unfold bind.
  destruct (c s) as [s1 [a | t]]; [eauto | discriminate].
Qed.

Lemma catch_ret_inv : forall (A : Type) (c : M World A) (h : str -> M World A) s s' a,
  catch c h s = (s', Ret a) ->
  c s = (s', Ret a) \/ exists s1 t, c s = (s1, Exc t) /\ h t s1 = (s', Ret a).
Proof.
  intros A c h s s' a. unfold catch.
  destruct (c s) as [s1 [a' | t]]; [auto | eauto].
Qed.

Lemma bind_ret_run : forall (A C : Type) (c : M World A) (f : A -> M World C) s s1 a r,
  c s = (s1, Ret a) -> f a s1 = r -> bind c f s = r.
Proof. intros A C c f s s1 a r Hc Hf. unfold bind. now rewrite Hc. Qed.

Lemma catch_ret_run : forall (A : Type) (c : M World A) (h : str -> M World A) s s1 a,
  c s = (s1, Ret a) -> catch c h s = (s1, Ret a).
Proof. intros A c h s s1 a Hc. unfold catch. now rewrite Hc. Qed.

End RunFacts.

(** ** Scanning the page for quizzes *)

Lemma detect_never_failed : forall e : Element, _detect_completion_status e <> FAILED.
Proof.
  intros e. unfold _detect_completion_status.
  destruct (text_content e) as [t|]; [|discriminate].
  repeat match goal with
         | |- (if ?b then _ else _) <> _ => destruct b; try discriminate
         end.
  destruct (class_attribute e) as [c|]; [|discriminate].
  repeat match goal with
         | |- (if ?b then _ else _) <> _ => destruct b; try discriminate
         end.
Qed.

Lemma scan_element_item : forall (selector current_url : str) (element : Card) q,
  snd (scan_element selector current_url element) = Ret q ->
  status q <> FAILED
  /\ strip (title q) = title q
  /\ completion_indicator q = None
  /\ (start_button_selector q = None
      \/ start_button_selector q = Some (start_selector_of selector)).
Proof.
  intros selector current_url element q. unfold scan_element.
  destruct (title_element element) as [te|]; [|discriminate].
  destruct (match te with Some t => t | None => Ret (Some (lit "Unknown Quiz")) end)
    as [[ttl|]|]; try discriminate;
    destruct (start_button element) as [sb|]; try discriminate;
    destruct (match sb with Some href => href | None => Ret (Some current_url) end)
      as [u|]; try discriminate.
  cbn [snd]. intros [= <-].
  cbn [status title completion_indicator start_button_selector].
  split; [apply detect_never_failed|]. split; [apply strip_strip|].
  split; [reflexivity|]. destruct sb; auto.
Qed.

(** A line the scan logs between its first line and its last. *)
Lemma status_warning_lines : forall e : Element,
  Forall (fun line => startswith line (lit "Status detection failed: ") = true)
         (status_warning e).
Proof.
  intros e. unfold status_warning.
  destruct (text_content e) as [t|x];
    [|constructor; [apply startswith_intro | constructor]].
  match goal with |- Forall _ (if ?b then _ else _) => destruct b end;
    [constructor|].
  destruct (class_attribute e) as [c|x];
    [constructor | constructor; [apply startswith_intro | constructor]].
Qed.

Lemma no_start_among_warnings : forall lines : list str,
  Forall (fun line => startswith line (lit "Status detection failed: ") = true) lines ->
  filter is_start_line lines = [].
Proof.
  induction 1 as [|line lines Hline _ IH]; cbn [filter]; [reflexivity|].
  apply startswith_elim in Hline. destruct Hline as (post & ->).
  replace (is_start_line (lit "Status detection failed: " ++ post)) with false
    by reflexivity.
  exact IH.
Qed.

Lemma scan_element_lines : forall (selector current_url : str) (element : Card),
  Forall (fun line => startswith line (lit "Status detection failed: ") = true)
         (fst (scan_element selector current_url element)).
Proof.
  intros selector current_url element. unfold scan_element.
  destruct (title_element element) as [te|]; [|constructor].
  destruct (match te with Some t => t | None => Ret (Some (lit "Unknown Quiz")) end)
    as [[ttl|]|]; try constructor;
    destruct (start_button element) as [sb|]; try constructor;
    destruct (match sb with Some href => href | None => Ret (Some current_url) end)
      as [u|]; apply status_warning_lines.
Qed.

Lemma scan_elements_keep :
  forall (P : QuizItem -> Prop) (selector current_url : str),
    (forall element q, snd (scan_element selector current_url element) = Ret q -> P q) ->
    forall elements logged quizzes,
      Forall P quizzes ->
      Forall (fun line => startswith line (lit "Status detection failed: ") = true)
             logged ->
      Forall P (snd (scan_elements selector current_url elements logged quizzes))
      /\ Forall (fun line => startswith line (lit "Status detection failed: ") = true)
                (fst (scan_elements selector current_url elements logged quizzes)).
Proof.
  intros P selector current_url HP.
  induction elements as [|element rest IH]; intros logged quizzes Hq Hl;
    cbn [scan_elements]; [auto|].
  pose proof (scan_element_lines selector current_url element) as Hlines.
  destruct (scan_element selector current_url element) as [warnings [q|e]] eqn:Hscan;
    cbn [fst snd] in *.
  - apply IH.
    + apply Forall_app; split; [exact Hq|]. constructor; [|constructor].
      apply (HP element). now rewrite Hscan.
    + apply Forall_app; auto.
  - split; [exact Hq | apply Forall_app; auto].
Qed.

Lemma same_filter_without_failed : forall quizzes : list QuizItem,
  Forall (fun q => status q <> FAILED) quizzes ->
  filter is_incomplete quizzes = filter not_completed quizzes.
Proof.
  induction 1 as [|q quizzes Hq _ IH]; cbn [filter]; [reflexivity|].
  rewrite IH. unfold is_incomplete, not_completed.
  destruct (status q); congruence.
Qed.

Section ScanFacts.
Variables World Handle : Type.
Variable B : Browser World Handle.
Variable read : Handle -> Card.

Lemma scan_selectors_keep :
  forall (P : QuizItem -> Prop) (selectors : list str),
    (forall selector current_url element q,
        In selector selectors ->
        snd (scan_element selector current_url element) = Ret q -> P q) ->
    forall quizzes (s : St World),
      Forall P quizzes ->
      exists s' out logged,
        scan_selectors B read selectors quizzes s = (s', Ret out)
        /\ Forall P out
        /\ execution_log s' = execution_log s ++ logged
        /\ Forall (fun line => startswith line (lit "Status detection failed: ") = true)
                  logged
        /\ agent_log s' = agent_log s
        /\ current_url s' = current_url s.
Proof.
  intros P. induction selectors as [|selector rest IH]; intros HP quizzes s Hq;
    cbn [scan_selectors].
  - exists s, quizzes, []. rewrite app_nil_r. repeat split; auto.
  - assert (HP' : forall selector current_url element q,
               In selector rest ->
               snd (scan_element selector current_url element) = Ret q -> P q)
      by (intros; eapply HP; [right|]; eauto).
    unfold page. destruct (query_selector_all B selector (world s)) as [w [elements|t]].
    + cbn [current_url world execution_log agent_log].
      destruct (scan_elements_keep P selector (current_url s)
                  (fun element q => HP selector (current_url s) element q (or_introl eq_refl))
                  (map read elements) [] quizzes Hq (Forall_nil _))
        as [Hout Hlines].
      destruct (scan_elements selector (current_url s) (map read elements) [] quizzes)
        as [logged quizzes'].
      cbn [fst snd] in Hout, Hlines.
      destruct (IH HP' quizzes'
                  (State w (current_url s) (execution_log s ++ logged) (agent_log s)) Hout)
        as (s' & out & logged' & Hrun & Hout' & Hlog & Hlines' & Hagent & Hurl).
      cbn [execution_log agent_log current_url] in Hlog, Hagent, Hurl.
      exists s', out, (logged ++ logged'). rewrite Hrun.
      repeat split; auto.
      * now rewrite Hlog, app_assoc.
      * apply Forall_app; auto.
    + destruct (IH HP' quizzes
                  (State w (current_url s) (execution_log s) (agent_log s)) Hq)
        as (s' & out & logged' & Hrun & Hout' & Hlog & Hlines' & Hagent & Hurl).
      exists s', out, logged'. rewrite Hrun. repeat split; auto.
Qed.

Lemma get_all_quiz_items_run :
  forall (P : QuizItem -> Prop),
    (forall selector current_url element q,
        In selector quiz_selectors ->
        snd (scan_element selector current_url element) = Ret q -> P q) ->
    forall s : St World,
      exists s' quizzes warnings,
        get_all_quiz_items B read s = (s', Ret quizzes)
        /\ Forall P quizzes
        /\ execution_log s'
           = execution_log s
             ++ [lit "Scanning for quiz items..."] ++ warnings
             ++ [lit "Found " ++ str_of_nat (List.length quizzes) ++ lit " quiz items"]
        /\ Forall (fun line => startswith line (lit "Status detection failed: ") = true)
                  warnings
        /\ agent_log s' = agent_log s.
Proof.
  intros P HP s.
  destruct (scan_selectors_keep P quiz_selectors HP []
              (State (world s) (current_url s)
                     (execution_log s ++ [lit "Scanning for quiz items..."])
                     (agent_log s))
              (Forall_nil _))
    as (s' & out & warnings & Hrun & Hout & Hlog & Hlines & Hagent & _).
  cbn [execution_log agent_log] in Hlog, Hagent.
  eexists _, out, warnings. split.
  - unfold get_all_quiz_items. apply catch_ret_run.
    eapply bind_ret_run; [reflexivity|].
    eapply bind_ret_run; [exact Hrun|].
    eapply bind_ret_run; reflexivity.
  - cbn [execution_log agent_log]. split; [exact Hout|].
    split; [now rewrite Hlog, <- !app_assoc|]. split; [exact Hlines | exact Hagent].
Qed.


(** X11: on the list [get_all_quiz_items] returns, the test of
    [complete_turing_quizzes] (status NOT_STARTED, IN_PROGRESS or
    RETAKE_AVAILABLE) and the test of [complete_tasks_on_any_site] (status
    other than COMPLETED) keep the same quizzes: the scan gives no item the
    status FAILED, the one status on which the two tests differ. *)
Theorem both_batches_take_the_same_quizzes : forall s : St World,
  exists s' quizzes,
    get_all_quiz_items B read s = (s', Ret quizzes)
    /\ filter is_incomplete quizzes = filter not_completed quizzes
    /\ is_incomplete (Quiz [] [] FAILED None None)
       <> not_completed (Quiz [] [] FAILED None None).
Proof.
  intros s.
  destruct (get_all_quiz_items_run (fun q => status q <> FAILED)) with (s := s)
    as (s' & quizzes & warnings & Hrun & Hall & _).
  - intros selector current_url element q _ Hscan.
    now apply scan_element_item in Hscan.
  - exists s', quizzes. split; [exact Hrun|].
    split; [now apply same_filter_without_failed | discriminate].
Qed.

End ScanFacts.

(** ** Questions and answers *)

Section AnswerFacts.
Variables World Handle : Type.
Variable B : Browser World Handle.

Lemma find_question_text_found : forall selectors (s s' : St World) t,
  find_question_text B selectors s = (s', Ret (Some t)) ->
  10 < List.length t /\ strip t = t.
Proof.
  induction selectors as [|selector rest IH]; intros s s' t; cbn [find_question_text].
  - discriminate.
  - intros Hrun. apply bind_ret_inv in Hrun.
    destruct Hrun as (s1 & [found|] & Htry & Hrest); [|eauto].
    injection Hrest as _ <-.
    apply catch_ret_inv in Htry. destruct Htry as [Htry | (s2 & e & _ & Hh)];
      [|discriminate].
    apply bind_ret_inv in Htry. destruct Htry as (s2 & [element|] & _ & Htry);
      [|discriminate].
    apply bind_ret_inv in Htry. destruct Htry as (s3 & [content|] & _ & Htry);
      [|discriminate].
    destruct (nonempty content && Nat.ltb 10 (List.length (strip content))) eqn:Hc;
      [|discriminate].
    injection Htry as _ <-.
    apply Bool.andb_true_iff in Hc. destruct Hc as [_ Hc].
    apply Nat.ltb_lt in Hc. split; [exact Hc | apply strip_strip].
Qed.

Lemma append_texts_options : forall elements options (s : St World),
  Forall (fun o => o <> [] /\ strip o = o) options ->
  Forall (fun o => o <> [] /\ strip o = o)
         (fst (snd (append_texts B elements options s))).
Proof.
  induction elements as [|element rest IH]; intros options s Ho; cbn [append_texts];
    [exact Ho|].
  destruct (page (handle_text_content B element) s) as [s1 [[content|]|e]];
    [ | apply IH; exact Ho | exact Ho].
  apply IH. destruct (nonempty (strip content)) eqn:Hne; [|exact Ho].
  apply Forall_app; split; [exact Ho|]. constructor; [|constructor].
  split; [|apply strip_strip]. intros Hnil. rewrite Hnil in Hne. discriminate.
Qed.

Lemma collect_options_run : forall selectors options (s : St World),
  Forall (fun o => o <> [] /\ strip o = o) options ->
  exists s' out,
    collect_options B selectors options s = (s', Ret out)
    /\ Forall (fun o => o <> [] /\ strip o = o) out.
Proof.
  induction selectors as [|selector rest IH]; intros options s Ho; cbn [collect_options].
  - exists s, options. split; [reflexivity | exact Ho].
  - destruct (page (query_selector_all B selector) s) as [s1 [elements|e]];
      [|apply IH; exact Ho].
    pose proof (append_texts_options elements options s1 Ho) as Hkeep.
    destruct (append_texts B elements options s1) as [s2 [options' whole]].
    cbn [fst snd] in Hkeep.
    destruct (whole && nonempty options'); [eauto | apply IH; exact Hkeep].
Qed.

Lemma extract_options_run : forall s : St World,
  exists s' out,
    _extract_multiple_choice_options B s = (s', Ret out)
    /\ Forall (fun o => o <> [] /\ strip o = o) out.
Proof.
  intros s. unfold _extract_multiple_choice_options, catch.
  destruct (collect_options_run option_selectors (@nil str) s (Forall_nil _))
    as (s' & out & -> & Hout).
  eauto.
Qed.

(** X12: what [_get_current_question] returns as a question.  Its text is
    stripped and longer than ten characters, its type is the one
    [classify_question] gives the text, and its options are stripped and
    not empty; a question that is not multiple choice has no options.  The
    selector it records is [.question], whichever selector found the
    text. *)
Theorem current_question_is_well_formed : forall (s s' : St World) q,
  _get_current_question B s = (s', Ret (Some q)) ->
  10 < List.length (text q)
  /\ strip (text q) = text q
  /\ question_type q = classify_question (text q)
  /\ Forall (fun o => o <> [] /\ strip o = o) (options q)
  /\ (question_type q <> MULTIPLE_CHOICE -> options q = [])
  /\ element_selector q = lit ".question"
  /\ startswith (context q) (lit "Page: ") = true.
Proof.
  intros s s' q Hrun. unfold _get_current_question in Hrun.
  apply catch_ret_inv in Hrun. destruct Hrun as [Hrun | (s1 & e & _ & Hh)];
    [|discriminate].
  apply bind_ret_inv in Hrun. destruct Hrun as (s1 & [question_text|] & Hfind & Hrun);
    [|discriminate].
  apply find_question_text_found in Hfind. destruct Hfind as [Hlen Hstrip].
  apply bind_ret_inv in Hrun. destruct Hrun as (s2 & opts & Hopts & Hrun).
  apply bind_ret_inv in Hrun. destruct Hrun as (s3 & page_title & _ & Hrun).
  injection Hrun as _ <-. cbn [text question_type options element_selector context].
  repeat split; auto.
  - destruct (classify_question question_text);
      try (injection Hopts as _ <-; constructor).
    destruct (extract_options_run s1) as (s2' & out & Hex & Hout).
    rewrite Hex in Hopts. now injection Hopts as _ <-.
  - intros Hmc. destruct (classify_question question_text);
      try (now injection Hopts as _ <-).
    congruence.
Qed.

Lemma first_success_returns : forall (attempt : str -> M World bool) selectors,
  total (first_success attempt selectors).
Proof.
  intros attempt. induction selectors as [|selector rest IH]; cbn [first_success].
  - apply total_ret.
  - apply total_bind.
    + apply total_catch. intros t. apply total_ret.
    + intros [|]; [apply total_ret | exact IH].
Qed.

Lemma click_submit_button_returns : total (_click_submit_button B).
Proof.
  unfold _click_submit_button. apply total_catch. intros t.
  apply total_bind; [apply total_log | intros _; apply total_ret].
Qed.

(** X13: [_click_submit_button] falls back on the Enter key: on a page
    where pressing Enter does not raise it returns [True] in every state,
    whether or not a submit button was found. *)
Theorem click_submit_button_true_with_enter :
  (forall w, exists w', keyboard_press B (lit "Enter") w = (w', Ret tt)) ->
  forall s : St World, exists s', _click_submit_button B s = (s', Ret true).
Proof.
  intros Henter s. unfold _click_submit_button, catch, bind.
  match goal with
  | |- context [first_success ?a ?l s] =>
      destruct (first_success_returns a l s) as (s1 & clicked & ->)
  end.
  destruct clicked; [cbn [ret]; eauto|].
  unfold page. destruct (Henter (world s1)) as (w' & ->).
  cbn [log ret]. eauto.
Qed.

(** X14: [_submit_multiple_choice_answer] reports an answer as submitted
    once an option was clicked, whatever became of the submission: where
    the click on the option by its text returns, the result is [True], in
    the state [_click_submit_button] leaves, also when that returned
    [False]. *)
Theorem option_click_counts_as_submitted : forall (answer : str) (s : St World) w,
  click B (lit "text='" ++ answer ++ lit "'") (world s) = (w, Ret tt) ->
  _submit_multiple_choice_answer B answer s
  = (fst (_click_submit_button B
            (State w (current_url s)
                   (execution_log s ++ [lit "Selected option: " ++ answer])
                   (agent_log s))),
     Ret true).
Proof.
  intros answer s w Hclick.
  set (s1 := State w (current_url s)
                   (execution_log s ++ [lit "Selected option: " ++ answer])
                   (agent_log s)).
  destruct (click_submit_button_returns s1) as (s2 & b & Hsubmit).
  rewrite Hsubmit. cbn [fst].
  unfold _submit_multiple_choice_answer, answer_selectors.
  cbn [first_success].
  apply catch_ret_run. eapply bind_ret_run.
  - eapply bind_ret_run.
    + apply catch_ret_run.
      eapply bind_ret_run; [unfold page; rewrite Hclick; reflexivity|].
      eapply bind_ret_run; [reflexivity|].
      eapply bind_ret_run; [exact Hsubmit | reflexivity].
    + reflexivity.
  - reflexivity.
Qed.

End AnswerFacts.

Lemma current_question_is_well_formed_witness :
  10 < List.length (lit "Name the largest planet.")
  /\ strip (lit "Name the largest planet.") = lit "Name the largest planet."
  /\ GENERAL = classify_question (lit "Name the largest planet.")
  /\ Forall (fun o : str => o <> [] /\ strip o = o) []
  /\ (GENERAL <> MULTIPLE_CHOICE -> @nil str = [])
  /\ lit ".question" = lit ".question"
  /\ startswith (lit "Page: Quiz") (lit "Page: ") = true.
Proof.
  apply (current_question_is_well_formed Site.world unit Site.browser
           (Site.opened "/endless") (Site.opened "/endless")
           (Quest (lit "Name the largest planet.") GENERAL [] (lit "Page: Quiz")
                  (lit ".question"))).
  vm_compute. reflexivity.
Defined.

Lemma click_submit_button_true_with_enter_witness :
  exists s', _click_submit_button Site.browser (Site.opened "/short") = (s', Ret true).
Proof.
  apply (click_submit_button_true_with_enter Site.world unit Site.browser).
  intros w. eexists. reflexivity.
Defined.

Lemma option_click_counts_as_submitted_witness :
  snd (_submit_multiple_choice_answer NoSubmit.browser (lit "Paris") (Site.opened "/short"))
  = Ret true
  /\ snd (_click_submit_button NoSubmit.browser
            (State (Site.World (lit "/short") 0) (lit "/short")
                   [lit "Selected option: Paris"] []))
     = Ret false.
Proof.
  split; [|vm_compute; reflexivity].
  rewrite (option_click_counts_as_submitted Site.world unit NoSubmit.browser
             (lit "Paris") (Site.opened "/short") (Site.World (lit "/short") 0)).
  - reflexivity.
  - vm_compute. reflexivity.
Defined.

(** ** Finding a section of the site *)

Section NavigationFacts.
Variables World Handle : Type.
Variable B : Browser World Handle.

Lemma first_shown_run : forall (name : str) selectors (s : St World),
  exists s' r,
    first_shown B name selectors s = (s', Ret r)
    /\ agent_log s' = agent_log s
    /\ match r with
       | Some selector =>
           In selector selectors
           /\ execution_log s'
              = execution_log s ++ [lit "Found navigation item: " ++ name]
       | None => execution_log s' = execution_log s
       end.
Proof.
  intros name. induction selectors as [|selector rest IH]; intros s;
    cbn [first_shown].
  - exists s, None. auto.
  - unfold bind, catch, page.
    destruct (wait_for_selector B selector 2000 (world s)) as [w [[element|]|e]];
      cbn [log ret].
    + eexists _, (Some selector).
      split; [reflexivity|]. split; [reflexivity|]. split; [now left | reflexivity].
    + match goal with
      | |- context [first_shown B name rest ?s1] =>
          destruct (IH s1) as (s' & r & -> & Hagent & Hr)
      end.
      exists s', r. split; [reflexivity|]. split; [exact Hagent|].
      destruct r as [sel|]; cbn [execution_log] in Hr; [|exact Hr].
      destruct Hr as [Hin Hlog]. split; [now right | exact Hlog].
    + match goal with
      | |- context [first_shown B name rest ?s1] =>
          destruct (IH s1) as (s' & r & -> & Hagent & Hr)
      end.
      exists s', r. split; [reflexivity|]. split; [exact Hagent|].
      destruct r as [sel|]; cbn [execution_log] in Hr; [|exact Hr].
      destruct Hr as [Hin Hlog]. split; [now right | exact Hlog].
Qed.

Lemma first_named_run : forall possible_names (s : St World),
  exists s' r,
    first_named B possible_names s = (s', Ret r)
    /\ agent_log s' = agent_log s
    /\ match r with
       | Some selector =>
           exists name,
             In name possible_names
             /\ In selector (navigation_selectors name)
             /\ execution_log s'
                = execution_log s ++ [lit "Found navigation item: " ++ name]
       | None => execution_log s' = execution_log s ++ [lit "No navigation items found"]
       end.
Proof.
  induction possible_names as [|name rest IH]; intros s; cbn [first_named].
  - eexists _, None. split; [reflexivity|]. split; reflexivity.
  - unfold bind.
    destruct (first_shown_run name (navigation_selectors name) s)
      as (s1 & [selector|] & -> & Hagent & Hr).
    + exists s1, (Some selector). split; [reflexivity|]. split; [exact Hagent|].
      exists name. destruct Hr as [Hin Hlog]. cbn [In]. auto.
    + destruct (IH s1) as (s' & r & -> & Hagent' & Hr').
      exists s', r. split; [reflexivity|]. split; [congruence|].
      rewrite Hr in Hr'. destruct r as [sel|]; [|exact Hr'].
      destruct Hr' as (name' & Hin & Hsel & Hlog). exists name'. cbn [In]. auto.
Qed.

(** X15: [find_navigation_item] returns for every list of names and does
    not raise.  What it returns is [None], after the line "No navigation
    items found" in the log, or one of the six selectors built of one of
    the names, after the line that names it; the log gets that one line. *)
Theorem find_navigation_item_answers_a_selector_of_a_name :
  forall possible_names (s : St World),
    exists s' r,
      find_navigation_item B possible_names s = (s', Ret r)
      /\ agent_log s' = agent_log s
      /\ match r with
         | Some selector =>
             exists name,
               In name possible_names
               /\ In selector (navigation_selectors name)
               /\ execution_log s'
                  = execution_log s ++ [lit "Found navigation item: " ++ name]
         | None =>
             execution_log s' = execution_log s ++ [lit "No navigation items found"]
         end.
Proof.
  intros possible_names s. unfold find_navigation_item, catch.
  destruct (first_named_run possible_names s) as (s' & r & -> & H).
  exists s', r. auto.
Qed.

Lemma first_section_unmapped : forall keywords (s : St World),
  Forall (fun keyword => mapped keyword = None) keywords ->
  first_section B keywords s = (s, Ret None).
Proof.
  induction 1 as [|keyword rest Hk _ IH]; cbn [first_section]; [reflexivity|].
  now rewrite Hk.
Qed.

(** X16: [_find_relevant_section] looks a section up for a word of the
    task description only where the word, in lower case, is one of "quiz",
    "test", "course", "job" and "profile" as a whole.  For a description
    with no such word it returns [None] and touches neither the page nor a
    log; "Complete all quizzes" is such a description. *)
Theorem no_section_without_an_exact_keyword :
  forall (task_description : str) (s : St World),
    Forall (fun word => mem word (map lit ["quiz"; "test"; "course"; "job"; "profile"])
                        = false)
           (split_ws (lower task_description)) ->
    _find_relevant_section B task_description s = (s, Ret None).
Proof.
  intros task_description s Hwords. unfold _find_relevant_section, catch.
  rewrite first_section_unmapped; [reflexivity|].
  eapply Forall_impl; [|exact Hwords].
  intros word Hword. unfold mapped, section_mappings.
  cbn [mem existsb map] in Hword. cbn [find fst snd].
  repeat match type of Hword with
         | (_ || _)%bool = false =>
             apply Bool.orb_false_iff in Hword; destruct Hword as [?H Hword]
         end.
  repeat match goal with
         | H : eqs word ?k = false |- context [eqs word ?k] => rewrite H
         end.
  reflexivity.
Qed.

End NavigationFacts.

Lemma no_section_without_an_exact_keyword_witness :
  _find_relevant_section Site.browser (lit "Complete all quizzes") Site.start
  = (Site.start, Ret None).
Proof.
  apply (no_section_without_an_exact_keyword Site.world unit Site.browser).
  vm_compute. repeat constructor.
Defined.

(** ** The batch of [complete_tasks_on_any_site] *)

Section TaskFacts.
Variables World Handle : Type.
Variable B : Browser World Handle.
Variable read : Handle -> Card.

Lemma complete_tasks_run : forall tasks completed_count (s : St World),
  exists s' completed,
    complete_tasks B tasks completed_count s = (s', Ret (completed_count + completed))
    /\ completed <= List.length tasks
    /\ starts (execution_log s') = starts (execution_log s) ++ map start_line tasks
    /\ agent_log s' = agent_log s.
Proof.
  induction tasks as [|task rest IH]; intros completed_count s; cbn [complete_tasks].
  - exists s, 0. cbn. rewrite app_nil_r, Nat.add_0_r. auto.
  - unfold bind.
    destruct (complete_quiz_run World Handle B task s) as (s1 & done & -> & Hs1 & Ha1).
    destruct (IH (if done then completed_count + 1 else completed_count) s1)
      as (s' & completed & -> & Hlen & Hs & Ha).
    exists s', ((if done then 1 else 0) + completed).
    split; [destruct done; do 2 f_equal; lia|].
    split; [destruct done; cbn [List.length]; lia|].
    split; [|congruence].
    rewrite Hs, Hs1, <- app_assoc. reflexivity.
Qed.

(** X17: [complete_tasks_on_any_site], from the scan on.  It works through
    every item of the scan that is not completed, in order, each announced
    once in the engine's log, and returns the number completed out of the
    number attempted, also where that is none.  The agent's log gets two
    lines, the number found and the result: unlike the batch of
    [complete_turing_quizzes], it names no task that failed. *)
Theorem site_batch_attempts_every_task :
  forall (site_url task_description : str) (s : St World),
    exists s1 tasks s' completed,
      get_all_quiz_items B read s = (s1, Ret tasks)
      /\ complete_found_tasks B read site_url task_description s
         = (s', Ret (tasks_line completed
                       (List.length (filter not_completed tasks)) site_url))
      /\ completed <= List.length (filter not_completed tasks)
      /\ starts (execution_log s')
         = starts (execution_log s) ++ map start_line (filter not_completed tasks)
      /\ agent_log s'
         = agent_log s
           ++ [lit "Found " ++ str_of_nat (List.length (filter not_completed tasks))
               ++ lit " tasks to complete";
               tasks_line completed (List.length (filter not_completed tasks)) site_url].
Proof.
  intros site_url task_description s.
  destruct (get_all_quiz_items_run World Handle B read (fun _ => True)) with (s := s)
    as (s1 & tasks & warnings & Hscan & _ & Hlog1 & Hlines & Hagent1); [auto|].
  exists s1, tasks.
  set (batch := filter not_completed tasks).
  set (found := lit "Found " ++ str_of_nat (List.length batch)
                ++ lit " tasks to complete").
  destruct (complete_tasks_run batch 0
              (State (world s1) (current_url s1) (execution_log s1)
                     (agent_log s1 ++ [found])))
    as (s2 & completed & Hrun & Hlen & Hs & Ha).
  cbn [execution_log agent_log Nat.add] in Hrun, Hs, Ha.
  eexists _, completed. split; [exact Hscan|]. split; [|split; [exact Hlen|]].
  - unfold complete_found_tasks, _analyze_available_tasks.
    apply catch_ret_run.
    eapply bind_ret_run; [apply catch_ret_run; exact Hscan|].
    eapply bind_ret_run; [reflexivity|].
    eapply bind_ret_run; [exact Hrun|].
    reflexivity.
  - cbn [execution_log agent_log]. split.
    + rewrite Hs, Hlog1. f_equal. unfold starts. rewrite filter_app.
      change ([lit "Scanning for quiz items..."] ++ warnings
              ++ [lit "Found " ++ str_of_nat (List.length tasks) ++ lit " quiz items"])
        with (lit "Scanning for quiz items..." :: warnings
              ++ [lit "Found " ++ str_of_nat (List.length tasks) ++ lit " quiz items"]).
      cbn [filter].
      replace (is_start_line (lit "Scanning for quiz items...")) with false
        by reflexivity.
      etransitivity; [apply f_equal | apply app_nil_r].
      rewrite filter_app.
      etransitivity; [apply f_equal2; [exact (no_start_among_warnings warnings Hlines)|]|];
        reflexivity.
    + rewrite Ha, Hagent1, <- app_assoc. reflexivity.
Qed.

End TaskFacts.

(** ** The address of a navigation *)

Lemma rstrip_app : forall p t : str,
  Forall (fun c => isspace c = false) p -> rstrip (p ++ t) = p ++ rstrip t.
Proof.
  induction 1 as [|c p Hc _ IH]; cbn [app]; [reflexivity|].
  now rewrite rstrip_cons, IH.
Qed.

Lemma strip_app_stripped : forall (c : char) (p t : str),
  Forall (fun c => isspace c = false) (c :: p) ->
  strip t = t ->
  strip ((c :: p) ++ t) = (c :: p) ++ t.
Proof.
  intros c p t Hp Ht. unfold strip.
  assert (Hc : isspace c = false) by now inversion Hp.
  cbn [app lstrip]. rewrite Hc.
  change (c :: p ++ t) with ((c :: p) ++ t). rewrite rstrip_app by exact Hp.
  f_equal. rewrite <- Ht at 1. unfold strip. rewrite rstrip_rstrip. exact Ht.
Qed.

(** X18: the address [_create_action] gives a Navigate action is stable:
    taken as the group of a navigation pattern again, it comes back
    unchanged, so the scheme and the "www." are put in front once only. *)
Theorem navigate_address_is_stable :
  forall (g : list (option str)) (command command' : str) a u,
    _create_action NAVIGATE g command = Ok a ->
    target a = Some u ->
    exists a',
      _create_action NAVIGATE [Some u] command' = Ok a' /\ target a' = Some u.
Proof.
  intros g command command' a u Hrun Hu.
  unfold _create_action in Hrun |- *.
  destruct (stripped g 0) as [t|] eqn:Hs; unfold rbind in Hrun; [|discriminate].
  assert (Ht : strip t = t).
  { unfold stripped, item, rbind, the_str in Hs.
    destruct (nth_error g 0) as [[x|]|]; try discriminate.
    injection Hs as <-. apply strip_strip. }
  cbv beta zeta in Hrun.
  match type of Hrun with
  | Ok (action _ (Some ?e) _ _) = _ => remember e as url eqn:Hurl
  end.
  injection Hrun as <-. unfold action, target in Hu. injection Hu as <-.
  match goal with
  | |- context [stripped ?l 0] => change (stripped l 0) with (Ok (strip url))
  end.
  unfold rbind. cbv beta iota zeta.
  assert (Hscheme : Forall (fun c => isspace c = false) (lit "https://"))
    by (repeat constructor).
  assert (Hwww : Forall (fun c => isspace c = false) (lit "https://www."))
    by (repeat constructor).
  assert (Hstable : strip url = url
                    /\ (startswith url (lit "http://") || startswith url (lit "https://")
                        || startswith url (lit "www.")) = true).
  { rewrite Hurl. clear Hurl.
    destruct (startswith t (lit "http://")) eqn:H1;
      [cbv [orb negb]; now rewrite Ht, H1|].
    destruct (startswith t (lit "https://")) eqn:H2;
      [cbv [orb negb]; now rewrite Ht, H1, H2|].
    cbv [orb negb].
    destruct (contains (lit ".") t) eqn:H3; destruct (startswith t (lit "www.")) eqn:H4;
      cbv [andb negb].
    - now rewrite Ht, H1, H2, H4.
    - split; [exact (strip_app_stripped _ _ t Hscheme Ht)|].
      rewrite (startswith_intro (lit "https://") t).
      now destruct (startswith (lit "https://" ++ t) (lit "http://")).
    - now rewrite Ht, H1, H2, H4.
    - split; [exact (strip_app_stripped _ _ t Hwww Ht)|].
      change (lit "https://www." ++ t) with (lit "https://" ++ (lit "www." ++ t)).
      rewrite (startswith_intro (lit "https://") (lit "www." ++ t)).
      now destruct (startswith (lit "https://" ++ (lit "www." ++ t)) (lit "http://")). }
  destruct Hstable as [Hstrip Hhead]. rewrite Hstrip.
  eexists. split; [reflexivity|]. unfold action, target. f_equal.
  destruct (startswith url (lit "http://") || startswith url (lit "https://")) eqn:H12;
    cbv [negb]; [reflexivity|].
  cbv [orb] in Hhead. rewrite Hhead. cbv [negb andb].
  destruct (contains (lit ".") url); reflexivity.
Qed.

Lemma navigate_address_is_stable_witness :
  exists a',
    _create_action NAVIGATE [Some (lit "https://google.com")] (lit "open it") = Ok a'
    /\ target a' = Some (lit "https://google.com").
Proof.
  apply (navigate_address_is_stable [Some (lit " google.com ")] (lit "go to google.com")
           (lit "open it")
           (action NAVIGATE (Some (lit "https://google.com")) None
                   (Some (lit "Navigate to https://google.com")))).
  - vm_compute. reflexivity.
  - reflexivity.
Defined.

(** ** A quiz at an address that names results *)

Section AddressFacts.
Variables World Handle : Type.
Variable B : Browser World Handle.

Lemma before_questions_returns : forall quiz, total (before_questions B quiz).
Proof.
  intros quiz. unfold before_questions, open_and_start.
  apply total_bind; [apply total_log | intros _].
  apply total_bind.
  - intros s. destruct (eqs (url quiz) (current_url s)); [eauto|].
    unfold navigate_to. destruct (negb (page_started B (world s))); [eauto|].
    destruct (goto B (url quiz) (world s)) as [w [[]|e]]; eauto.
  - intros _. destruct (start_button_selector quiz) as [[|c sel]|];
      try apply total_ret.
    apply total_catch. intros e. apply total_log.
Qed.

(** X19: [_is_quiz_finished] takes the address of the page as a sign:
    where the address holds "complete", "finished" or "results",
    [complete_quiz] leaves its loop in the first round, with no question
    read or answered, and reports the quiz as completed. *)
Theorem address_alone_completes_the_quiz :
  (forall w, any_in (map lit ["complete"; "finished"; "results"]) (page_url B w) = true) ->
  forall (quiz : QuizItem) (s : St World),
    exists s1 s2,
      before_questions B quiz s = (s1, Ret tt)
      /\ question_loop B (S max_questions) quiz 0 0 s1 = (s2, Ret (Finished, 0, 1))
      /\ complete_quiz B quiz s = (s2, Ret true).
Proof.
  intros Haddress quiz s.
  destruct (before_questions_returns quiz s) as (s1 & [] & Hbefore).
  assert (Hfinished : exists s', _is_quiz_finished B s1 = (s', Ret true)).
  { unfold _is_quiz_finished, catch, bind.
    match goal with
    | |- context [first_success ?a ?l s1] =>
        destruct (first_success_returns World a l s1) as (s' & found & ->)
    end.
    destruct found; [cbn [ret]; eauto|]. rewrite Haddress. eauto. }
  destruct Hfinished as (s' & Hfinished).
  assert (Hloop : question_loop B (S max_questions) quiz 0 0 s1
                  = (State (world s') (current_url s')
                           (execution_log s' ++ [lit "Quiz completed: " ++ title quiz])
                           (agent_log s'),
                     Ret (Finished, 0, 1))).
  { cbn [question_loop]. replace (Nat.ltb 0 max_questions) with true by reflexivity.
    eapply bind_ret_run; [exact Hfinished|].
    eapply bind_ret_run; reflexivity. }
  eexists s1, _. split; [exact Hbefore|]. split; [exact Hloop|].
  unfold complete_quiz. apply catch_ret_run.
  eapply bind_ret_run; [exact Hbefore|].
  eapply bind_ret_run; [exact Hloop|]. reflexivity.
Qed.

End AddressFacts.

Lemma address_alone_completes_the_quiz_witness :
  exists s1 s2,
    before_questions Results.browser (Site.quiz_at "Teams" "/endless") Site.start
    = (s1, Ret tt)
    /\ question_loop Results.browser (S max_questions) (Site.quiz_at "Teams" "/endless")
         0 0 s1
       = (s2, Ret (Finished, 0, 1))
    /\ complete_quiz Results.browser (Site.quiz_at "Teams" "/endless") Site.start
       = (s2, Ret true).
Proof.
  apply (address_alone_completes_the_quiz Site.world unit Results.browser).
  intros w. vm_compute. reflexivity.
Defined.

(** ** Scrolling *)

Section ScrollFacts.
Variable Page : Type.
Variable Handle : Type.
Variable keyboard_press : str -> Page -> Page * res unit.
Variable _find_element : str -> Page -> Page * res (option Handle).
Variable scroll_into_view_if_needed : Handle -> Page -> Page * res unit.

(** X20: a scroll pattern without a group says nothing of the direction
    to the executor.  The action [_create_action] builds of a match of such
    a pattern has no target, and [_execute_scroll] presses PageDown for it
    and reports "Scrolled down".  The patterns for "page down" and "page
    up" and for "go to top" and "go to bottom" have no group; so "page up"
    scrolls down. *)
Theorem scroll_without_a_group_goes_down :
  forall (p : regex) (command : str) g a (pg : Page),
    ngroups p = 0 ->
    search true p command = Some g ->
    _create_action SCROLL g command = Ok a ->
    (target a = None
     /\ Command._execute_scroll keyboard_press _find_element
          scroll_into_view_if_needed a pg
        = match keyboard_press (lit "PageDown") pg with
          | (pg', Ret _) =>
              (pg', Ret (Executor.Outcome true (lit "Scrolled down") None []))
          | (pg', Exc e) => (pg', Exc e)
          end)
    /\ match_types action_patterns (lit "page up") = Some (SCROLL, [])
    /\ process_command (lit "page up")
       = Ok [action SCROLL None None (Some (lit "page up"))].
Proof.
  intros p command g a pg Hp Hsearch Hrun.
  split; [|split; vm_compute; reflexivity].
  unfold search in Hsearch.
  destruct (search_from true p 0 command) as [mt|]; [|discriminate].
  injection Hsearch as <-. unfold groups in Hrun. rewrite Hp in Hrun.
  cbv [seq map _create_action stripped_or nth_error] in Hrun.
  assert (Ha : a = action SCROLL None None (Some command)) by congruence.
  subst a. clear Hrun.
  split; [reflexivity|].
  unfold Command._execute_scroll. unfold action, target.
  replace (contains (lit "down") (lower (lit "down"))) with true by reflexivity.
  reflexivity.
Qed.

End ScrollFacts.

Lemma scroll_without_a_group_goes_down_witness :
  Command._execute_scroll (fun key (keys : list str) => (keys ++ [key], Ret tt))
     (fun _ keys => (keys, Ret (@None unit))) (fun _ keys => (keys, Ret tt))
     (action SCROLL None None (Some (lit "page up"))) []
  = ([lit "PageDown"], Ret (Executor.Outcome true (lit "Scrolled down") None [])).
Proof.
  destruct (scroll_without_a_group_goes_down (list str) unit
              (fun key keys => (keys ++ [key], Ret tt))
              (fun _ keys => (keys, Ret None)) (fun _ keys => (keys, Ret tt))
              (alt [cat [lits "page"; sp1; lits "down"]; cat [lits "page"; sp1; lits "up"]])
              (lit "page up") []
              (action SCROLL None None (Some (lit "page up"))) [])
    as [[_ Hscroll] _].
  - reflexivity.
  - vm_compute. reflexivity.
  - reflexivity.
  - exact Hscroll.
Defined.

(** ** A quiz that is given up *)

Section GivenUpFacts.
Variables World Handle : Type.
Variable B : Browser World Handle.

(** X21: [complete_quiz] answers [False] on one way out of its loop only:
    where an answer could not be submitted, which happens before the bound
    of 50 questions.  With C9 this tells how the loop was left from what
    [complete_quiz] returns. *)
Theorem complete_quiz_false_means_submission_failed :
  forall (quiz : QuizItem) (s s' : St World),
    complete_quiz B quiz s = (s', Ret false) ->
    exists s1 question_count iterations,
      before_questions B quiz s = (s1, Ret tt)
      /\ question_loop B (S max_questions) quiz 0 0 s1
         = (s', Ret (SubmitFailed, question_count, iterations))
      /\ question_count < 50.
Proof.
  intros quiz s s' Hrun.
  destruct (before_questions_returns World Handle B quiz s) as (s1 & [] & Hbefore).
  destruct (question_loop_run World Handle B (S max_questions) quiz 0 0 s1)
    as (s2 & e & question_count & iterations & Hloop & _ & _ & _ & Hearly & _);
    [unfold max_questions; lia | lia |].
  assert (Hafter : complete_quiz B quiz s
                   = after_questions quiz (e, question_count, iterations) s2).
  { destruct e; unfold complete_quiz;
      (eapply catch_ret_run; eapply bind_ret_run; [exact Hbefore|];
       eapply bind_ret_run; [exact Hloop|]; reflexivity). }
  exists s1, question_count, iterations. split; [exact Hbefore|].
  rewrite Hafter in Hrun.
  destruct e; cbn in Hrun; try discriminate Hrun.
  injection Hrun as <-. split; [exact Hloop|]. apply (Hearly eq_refl).
Qed.

End GivenUpFacts.

Lemma complete_quiz_false_means_submission_failed_witness :
  exists s1 question_count iterations,
    before_questions Site.browser (Site.quiz_at "Stuck" "/stuck") Site.start
    = (s1, Ret tt)
    /\ question_loop Site.browser (S max_questions) (Site.quiz_at "Stuck" "/stuck") 0 0 s1
       = (fst (complete_quiz Site.browser (Site.quiz_at "Stuck" "/stuck") Site.start),
          Ret (SubmitFailed, question_count, iterations))
    /\ question_count < 50.
Proof.
  apply (complete_quiz_false_means_submission_failed Site.world unit Site.browser).
  vm_compute. reflexivity.
Defined.
